(** * The interactive EER diagram of SQL_Editor.py

    A shallow embedding of the diagram code of [src/SQL_Editor.py]:
    the [TableNode] class (lines 723-825) and the closures of
    [HRMSQueryGUI._show_interactive_eer] (lines 3096-3335) that build
    the nodes and the foreign-key edges, lay the nodes out, zoom the
    canvas and keep the edges attached to the nodes.

    Numbers.  Python integers that count or index (table counts, grid
    rows and columns, item ids, event fields) are in [Z] or [nat].
    Coordinates and the zoom scale are Python numbers that the code
    mixes freely between [int] and [float].  This first part reads
    them in [R], integers through [IZR]: its statements give a
    coordinate as the expression the code evaluates for it, compare
    counts and names, or bound the scale, and do not rest on an
    addition undoing another.  What does rest on that (a move and its
    way back, a layout and the points it aims at) is stated in the
    part on Python's arithmetic, on ints and IEEE floats.

    State.  The Tk canvas is a list of items (the id of an item is its
    1-based position), the [nodes] dict is an association list in
    insertion order, and every handler is a function from the state of
    the diagram window to its next state.

    Tk.  The canvas operations follow the Tk manual: [move] translates
    the items that carry a tag, [scale] maps every coordinate [c] of
    every item to [origin + factor * (c - origin)], [coords] replaces
    the coordinates of one item, [canvasx] and [canvasy] add the
    origin of the view to a window coordinate.  The reset of the
    scroll region to [bbox("all")], which ends [_apply_scale_at] and
    [apply_layout], changes no node, edge, item or scale and is left
    out of the handlers of this part; the part on the scroll region
    adds it for what is said of the view.  Colours, fonts, hover
    highlighting and the export to a file are left out. *)

From Stdlib Require Import List String Ascii Bool ZArith Reals Lra Lia.
From Corelib Require PrimFloat FloatOps SpecFloat.
Import ListNotations.

Local Open Scope string_scope.
Local Open Scope list_scope.

(** ** Python values *)

(** [int(r)] on a float: truncation toward zero. *)
Definition py_int (r : R) : Z :=
  if Rle_dec 0 r then Int_part r else (- Int_part (- r))%Z.

(** [a // b] on numbers: the floor of the quotient. *)
Definition py_floordiv (a b : R) : R := IZR (Int_part (a / b)).

(** A [dict] with string keys, in insertion order. *)
Definition dict (V : Type) : Type := list (string * V).

Fixpoint dict_get {V : Type} (d : dict V) (k : string) : option V :=
  match d with
  | [] => None
  | (k', v) :: rest => if String.eqb k k' then Some v else dict_get rest k
  end.

(** [k in d] *)
Definition dict_mem {V : Type} (d : dict V) (k : string) : bool :=
  match dict_get d k with Some _ => true | None => false end.

(** [d[k] = v]: an existing key keeps its place, a new key goes last. *)
Fixpoint dict_set {V : Type} (d : dict V) (k : string) (v : V) : dict V :=
  match d with
  | [] => [(k, v)]
  | (k', v') :: rest =>
      if String.eqb k k' then (k', v) :: rest else (k', v') :: dict_set rest k v
  end.

(** [list(d.keys())] and [len(d)] *)
Definition dict_keys {V : Type} (d : dict V) : list string := map fst d.
Definition dict_values {V : Type} (d : dict V) : list V := map snd d.
Definition dict_len {V : Type} (d : dict V) : Z := Z.of_nat (List.length d).

(** ** The Tk canvas *)

Inductive item_kind : Type := Arc | Rectangle | Line | Text.

(** The tags the diagram puts on its items.  A node tags all its items
    with [f"box_{id(canvas)}_{x1}_{y1}_{x2}_{y2}"], the corners it was
    first drawn at; the canvas is the same throughout one window.  Two
    such tags are the same when the four numbers are. *)
Inductive item_tag : Type :=
| BoxTag (x1 y1 x2 y2 : R)
| FkLine
| FkLabel
| NoTag.

Definition item_tag_eqb (a b : item_tag) : bool :=
  match a, b with
  | BoxTag a1 a2 a3 a4, BoxTag b1 b2 b3 b4 =>
      if Req_dec_T a1 b1 then
        if Req_dec_T a2 b2 then
          if Req_dec_T a3 b3 then
            if Req_dec_T a4 b4 then true else false
          else false
        else false
      else false
  | FkLine, FkLine => true
  | FkLabel, FkLabel => true
  | NoTag, NoTag => true
  | _, _ => false
  end.

(** An item: what it is, its tag, its coordinate list [x0 y0 x1 y1 ...]
    and, for a text item, its text.  Colours, fonts and widths do not
    enter any position and are left out. *)
Record item : Type := mk_item {
  ikind : item_kind;
  itag : item_tag;
  icoords : list R;
  itext : string
}.

Definition canvas : Type := list item.

(** [canvas.create_*]: the new item goes on top and gets the next id. *)
Definition create (c : canvas) (it : item) : canvas * nat :=
  (c ++ [it], S (List.length c)).

Fixpoint create_all (c : canvas) (its : list item) : canvas * list nat :=
  match its with
  | [] => (c, [])
  | it :: rest =>
      let '(c1, i) := create c it in
      let '(c2, ids) := create_all c1 rest in
      (c2, i :: ids)
  end.

(** Translate a coordinate list by [(dx, dy)]. *)
Fixpoint shift_xy (dx dy : R) (l : list R) : list R :=
  match l with
  | px :: py :: rest => (px + dx)%R :: (py + dy)%R :: shift_xy dx dy rest
  | _ => l
  end.

(** Tk's rescaling about [(ox, oy)]: a coordinate [c] becomes
    [origin + factor * (c - origin)]. *)
Definition scale_about (o f c : R) : R := (o + f * (c - o))%R.

Fixpoint scale_xy (ox oy fx fy : R) (l : list R) : list R :=
  match l with
  | px :: py :: rest =>
      scale_about ox fx px :: scale_about oy fy py :: scale_xy ox oy fx fy rest
  | _ => l
  end.

Definition set_coords (it : item) (cs : list R) : item :=
  mk_item (ikind it) (itag it) cs (itext it).

(** [canvas.move(tag, dx, dy)] *)
Definition canvas_move (c : canvas) (tg : item_tag) (dx dy : R) : canvas :=
  map (fun it =>
         if item_tag_eqb (itag it) tg
         then set_coords it (shift_xy dx dy (icoords it))
         else it) c.

(** [canvas.scale("all", ox, oy, fx, fy)] *)
Definition canvas_scale_all (c : canvas) (ox oy fx fy : R) : canvas :=
  map (fun it => set_coords it (scale_xy ox oy fx fy (icoords it))) c.

(** [canvas.coords(id, ...)]: replace the coordinates of item [id];
    nothing changes when no item has this id. *)
Fixpoint canvas_coords (c : canvas) (id : nat) (cs : list R) : canvas :=
  match c, id with
  | [], _ => []
  | it :: rest, 1%nat => set_coords it cs :: rest
  | it :: rest, S n => it :: canvas_coords rest n cs
  | _, O => c
  end.

(** The item with a given id. *)
Definition canvas_item (c : canvas) (id : nat) : option item :=
  match id with
  | O => None
  | S n => nth_error c n
  end.

(** ** The drawing helpers *)

(** [_create_rounded_rect]: four corner arcs and two rectangles. *)
Definition _create_rounded_rect (tg : item_tag) (x1 y1 x2 y2 r : R) : list item :=
  [ mk_item Arc tg [x1; y1; x1 + 2 * r; y1 + 2 * r] EmptyString;
    mk_item Arc tg [x2 - 2 * r; y1; x2; y1 + 2 * r] EmptyString;
    mk_item Arc tg [x2 - 2 * r; y2 - 2 * r; x2; y2] EmptyString;
    mk_item Arc tg [x1; y2 - 2 * r; x1 + 2 * r; y2] EmptyString;
    mk_item Rectangle tg [x1 + r; y1; x2 - r; y2] EmptyString;
    mk_item Rectangle tg [x1; y1 + r; x2; y2 - r] EmptyString ]%R.

(** [_create_box_with_shadow]: the shadow, offset by [(sx, sy)], then
    the box, all under the tag built from the corners. *)
Definition _create_box_with_shadow (x1 y1 x2 y2 r sx sy : R) : item_tag * list item :=
  let tg := BoxTag x1 y1 x2 y2 in
  (tg,
   _create_rounded_rect tg (x1 + sx) (y1 + sy) (x2 + sx) (y2 + sy) r
     ++ _create_rounded_rect tg x1 y1 x2 y2 r)%R.

(** [_draw_header_gradient]: [steps] horizontal bands. *)
Definition _draw_header_gradient (tg : item_tag) (x1 y1 x2 y2 : R) (steps : nat)
  : list item :=
  let h := (y2 - y1)%R in
  map (fun i : nat =>
         let y_start := (y1 + IZR (py_int (INR i * h / INR steps)))%R in
         let y_end := (y1 + IZR (py_int (INR (i + 1) * h / INR steps)))%R in
         mk_item Rectangle tg [x1; y_start; x2; y_end] EmptyString)
      (seq 0 steps).

(** ** class TableNode *)

Module TableNode.

Definition BOX_WIDTH : Z := 220.
Definition HEADER_H : Z := 28.
Definition ROW_H : Z := 20.
Definition PAD : Z := 6.
Definition BOTTOM_PAD : Z := 8.

(** The attributes of a node.  [drag_start] is [drag_start_x,
    drag_start_y], absent until the first [start_drag]. *)
Record t : Type := mk {
  name : string;
  cols : list string;
  x : R;
  y : R;
  width : Z;
  height : Z;
  tag : item_tag;
  text_ids : list nat;
  drag_start : option (Z * Z)
}.

(** The loop of [draw] over [enumerate(self.cols)], from index [i],
    where [n] is [len(self.cols)]: a separator under every row but
    the last, and the column name. *)
Fixpoint draw_cols (tg : item_tag) (x1 y1 x2 : R) (n : Z) (i : Z)
    (cs : list string) (c : canvas) (ids : list nat) : canvas * list nat :=
  match cs with
  | [] => (c, ids)
  | col :: rest =>
      let cy := (y1 + IZR HEADER_H + IZR i * IZR ROW_H + IZR ROW_H / 2 + 3)%R in
      let line_y := (y1 + IZR HEADER_H + IZR (i + 1) * IZR ROW_H)%R in
      let c1 :=
        if (i <? n - 1)%Z
        then fst (create c (mk_item Line tg [x1 + 5; line_y; x2 - 5; line_y]%R EmptyString))
        else c in
      let '(c2, tid) := create c1 (mk_item Text tg [x1 + 10; cy]%R col) in
      draw_cols tg x1 y1 x2 n (i + 1) rest c2 (ids ++ [tid])
  end.

(** [draw]: paints the node and returns its tag and [text_ids]. *)
Definition draw (c : canvas) (name : string) (cols : list string)
    (x y : R) (width height : Z) : canvas * item_tag * list nat :=
  let x1 := x in
  let y1 := y in
  let x2 := (x1 + IZR width)%R in
  let y2 := (y1 + IZR height)%R in
  let '(tg, box) := _create_box_with_shadow x1 y1 x2 y2 10 4 4 in
  let c1 := fst (create_all c box) in
  let c2 :=
    fst (create_all c1
           (_draw_header_gradient tg x1 y1 x2 (y1 + IZR HEADER_H) 20)) in
  let '(c3, title_id) :=
    create c2 (mk_item Text tg [x1 + 10; y1 + IZR HEADER_H / 2]%R name) in
  let '(c4, ids) :=
    draw_cols tg x1 y1 x2 (Z.of_nat (List.length cols)) 0 cols c3 [title_id] in
  (c4, tg, ids).

(** [TableNode(canvas, name, cols, x, y)] *)
Definition init (c : canvas) (name : string) (cols : list string) (x y : R)
  : t * canvas :=
  let width := BOX_WIDTH in
  let height :=
    (HEADER_H + Z.of_nat (List.length cols) * ROW_H + PAD + BOTTOM_PAD)%Z in
  let '(c', tg, ids) := draw c name cols x y width height in
  (mk name cols x y width height tg ids None, c').

(** [start_drag(event)] *)
Definition start_drag (nd : t) (ex ey : Z) : t :=
  mk (name nd) (cols nd) (x nd) (y nd) (width nd) (height nd) (tag nd)
     (text_ids nd) (Some (ex, ey)).

(** [move(dx, dy)]: no test on the new position. *)
Definition move (nd : t) (dx dy : R) (c : canvas) : t * canvas :=
  (mk (name nd) (cols nd) (x nd + dx) (y nd + dy) (width nd) (height nd)
      (tag nd) (text_ids nd) (drag_start nd),
   canvas_move c (tag nd) dx dy).

(** [on_drag(event)]: move by the pointer's displacement since the
    last event.  Without a recorded start the attribute lookup fails
    and the handler leaves everything as it is. *)
Definition on_drag (nd : t) (ex ey : Z) (c : canvas) : t * canvas :=
  match drag_start nd with
  | None => (nd, c)
  | Some (sx, sy) =>
      let dx := (ex - sx)%Z in
      let dy := (ey - sy)%Z in
      let '(nd1, c1) := move nd (IZR dx) (IZR dy) c in
      (start_drag nd1 ex ey, c1)
  end.

(** [contains(cx, cy)] *)
Definition contains (nd : t) (cx cy : R) : bool :=
  (if Rle_dec (x nd) cx then true else false)
  && (if Rle_dec cx (x nd + IZR (width nd)) then true else false)
  && (if Rle_dec (y nd) cy then true else false)
  && (if Rle_dec cy (y nd + IZR (height nd)) then true else false).

(** [column_at(cx, cy)]: the column whose row holds the point, if the
    node contains the point and the point is not in the header.  The
    row index is [int(rel_y // ROW_H)]. *)
Definition column_at (nd : t) (cx cy : R) : option string :=
  if negb (contains nd cx cy) then None
  else
    let rel_y := (cy - (y nd + IZR HEADER_H))%R in
    if Rlt_dec rel_y 0 then None
    else
      let idx := py_int (py_floordiv rel_y (IZR ROW_H)) in
      if (0 <=? idx)%Z && (idx <? Z.of_nat (List.length (cols nd)))%Z
      then nth_error (cols nd) (Z.to_nat idx)
      else None.

End TableNode.

(** ** The diagram window: [_show_interactive_eer] *)

(** A row of [_get_foreign_keys]: [table.col] references
    [ref_table.ref_col]. *)
Record foreign_key : Type := mk_fk {
  fk_table : string;
  fk_col : string;
  fk_ref_table : string;
  fk_ref_col : string
}.

(** An entry of [edges]: the ids of the line and of the label on the
    canvas, the names of the two tables, and the foreign key. *)
Record edge : Type := mk_edge {
  e_line : nat;
  e_label : nat;
  e_from : string;
  e_to : string;
  e_fk : foreign_key
}.

(** What the canvas widget shows: the canvas coordinates of the
    window's top-left corner, and the window's size in pixels. *)
Record viewport : Type := mk_view {
  xorigin : R;
  yorigin : R;
  winfo_width : Z;
  winfo_height : Z
}.

(** [canvas.canvasx(sx)], [canvas.canvasy(sy)]: window to canvas. *)
Definition canvasx (v : viewport) (sx : Z) : R := (IZR sx + xorigin v)%R.
Definition canvasy (v : viewport) (sy : Z) : R := (IZR sy + yorigin v)%R.


(** The variables the closures of [_show_interactive_eer] share. *)
Record diagram : Type := mk_diagram {
  cv : canvas;
  nodes : dict TableNode.t;
  edges : list edge;
  current_scale : R;
  zoom_var : R;
  view : viewport
}.

(** [cols_grid = max(1, int((len(tables) ** 0.5) + 0.5))] *)
Definition cols_grid (count : Z) : Z :=
  Z.max 1 (py_int (sqrt (IZR count) + 0.5)).

(** The grid cell of index [i] in a grid of [ncols] columns. *)
Definition grid_x (ncols i : Z) : Z := (80 + (i mod ncols) * 320)%Z.
Definition grid_y (ncols i : Z) : Z := (80 + (i / ncols) * 220)%Z.

(** Where the node of table [t] goes: its entry in [gv_positions] when
    there is one, else the next grid cell, which uses up an index. *)
Definition place_node (gv_positions : dict (R * R)) (ncols : Z) (index : Z)
    (t : string) : R * R * Z :=
  match dict_get gv_positions t with
  | Some (gx, gy) => (gx, gy, index)
  | None => (IZR (grid_x ncols index), IZR (grid_y ncols index), (index + 1)%Z)
  end.

(** [schema[t]] for a key [t] of [schema]. *)
Definition schema_cols (schema : dict (list string)) (t : string) : list string :=
  match dict_get schema t with Some cs => cs | None => [] end.

(** The loop [for t in tables] that creates the nodes. *)
Fixpoint build_nodes (schema : dict (list string)) (gv_positions : dict (R * R))
    (ncols : Z) (tables : list string) (index : Z)
    (c : canvas) (nds : dict TableNode.t) : canvas * dict TableNode.t :=
  match tables with
  | [] => (c, nds)
  | t :: rest =>
      let '(px, py, index') := place_node gv_positions ncols index t in
      let '(nd, c') := TableNode.init c t (schema_cols schema t) px py in
      build_nodes schema gv_positions ncols rest index' c' (dict_set nds t nd)
  end.

(** Where an edge is attached on a node: the right side for the source,
    the left side for the target, at [HEADER_H + ROW_H / 2] below the
    top. *)
Definition anchor_y (nd : TableNode.t) : R :=
  (TableNode.y nd + IZR TableNode.HEADER_H + IZR TableNode.ROW_H / 2)%R.

Definition line_coords (na nb : TableNode.t) : list R :=
  [ TableNode.x na + IZR (TableNode.width na); anchor_y na;
    TableNode.x nb; anchor_y nb ]%R.

Definition label_coords (na nb : TableNode.t) : list R :=
  let x1 := (TableNode.x na + IZR (TableNode.width na))%R in
  let y1 := anchor_y na in
  let x2 := TableNode.x nb in
  let y2 := anchor_y nb in
  let mx := ((x1 + x2) / 2)%R in
  let my := ((y1 + y2) / 2)%R in
  [ mx; my - 12 ]%R.

(** [f"{t}.{col} → {rt}.{ref_col}"] *)
Definition fk_label_text (fk : foreign_key) : string :=
  fk_table fk ++ "." ++ fk_col fk ++ " → " ++ fk_ref_table fk ++ "." ++ fk_ref_col fk.

(** The loop [for i, fk in enumerate(fk_list)] that creates the edges. *)
Fixpoint build_edges (nds : dict TableNode.t) (fk_list : list foreign_key)
    (c : canvas) (es : list edge) : canvas * list edge :=
  match fk_list with
  | [] => (c, es)
  | fk :: rest =>
      match dict_get nds (fk_table fk), dict_get nds (fk_ref_table fk) with
      | Some na, Some nb =>
          let '(c1, lid) := create c (mk_item Line FkLine (line_coords na nb) EmptyString) in
          let '(c2, label_id) :=
            create c1 (mk_item Text FkLabel (label_coords na nb) (fk_label_text fk)) in
          build_edges nds rest c2
            (es ++ [mk_edge lid label_id (fk_table fk) (fk_ref_table fk) fk])
      | _, _ => build_edges nds rest c es
      end
  end.

(** [_show_interactive_eer(parent_window, schema, gv_positions)], from
    [tables = list(schema.keys())] on.  [fk_list] is what
    [self._get_foreign_keys()] returns and [v] is the freshly laid out
    window.  An empty schema gets a notice and nothing else. *)
Definition _show_interactive_eer (v : viewport) (schema : dict (list string))
    (gv_positions : dict (R * R)) (fk_list : list foreign_key) : diagram :=
  let tables := dict_keys schema in
  match tables with
  | [] =>
      mk_diagram [mk_item Text NoTag [20; 40]%R "No tables found"] [] [] 1 1 v
  | _ :: _ =>
      let ncols := cols_grid (Z.of_nat (List.length tables)) in
      let '(c1, nds) := build_nodes schema gv_positions ncols tables 0 [] [] in
      let '(c2, es) := build_edges nds fk_list c1 [] in
      mk_diagram c2 nds es 1 1 v
  end.

(** [_update_edges()]: every line and label is set again from the two
    nodes of its edge.  Both names are keys of [nodes] for every edge
    the window built; a missing key would stop the loop. *)
Fixpoint update_edges_loop (nds : dict TableNode.t) (es : list edge) (c : canvas)
    : canvas :=
  match es with
  | [] => c
  | e :: rest =>
      match dict_get nds (e_from e), dict_get nds (e_to e) with
      | Some na, Some nb =>
          let c1 := canvas_coords c (e_line e) (line_coords na nb) in
          let c2 := canvas_coords c1 (e_label e) (label_coords na nb) in
          update_edges_loop nds rest c2
      | _, _ => c
      end
  end.

Definition with_canvas (d : diagram) (c : canvas) : diagram :=
  mk_diagram c (nodes d) (edges d) (current_scale d) (zoom_var d) (view d).

Definition with_nodes (d : diagram) (nds : dict TableNode.t) (c : canvas) : diagram :=
  mk_diagram c nds (edges d) (current_scale d) (zoom_var d) (view d).

Definition _update_edges (d : diagram) : diagram :=
  with_canvas d (update_edges_loop (nodes d) (edges d) (cv d)).

(** The displacement [apply_layout] gives a node to bring it to
    [(target_x, target_y)]. *)
Definition delta_to (nd : TableNode.t) (target_x target_y : R) : R * R :=
  (target_x - TableNode.x nd, target_y - TableNode.y nd)%R.

(** The [grid] loop of [apply_layout] over [nodes.items()], from index [i]. *)
Fixpoint layout_grid (ncols : Z) (i : Z) (nds : dict TableNode.t) (c : canvas)
    : dict TableNode.t * canvas :=
  match nds with
  | [] => ([], c)
  | (tname, nd) :: rest =>
      let target_x := IZR (grid_x ncols i) in
      let target_y := IZR (grid_y ncols i) in
      let '(dx, dy) := delta_to nd target_x target_y in
      let '(nd', c1) := TableNode.move nd dx dy c in
      let '(rest', c2) := layout_grid ncols (i + 1) rest c1 in
      ((tname, nd') :: rest', c2)
  end.

(** [radius = max(200, min(800, len(nodes) * 40))] *)
Definition radial_radius (count : Z) : Z := Z.max 200 (Z.min 800 (count * 40)).

(** The [radial] loop of [apply_layout], from index [i]. *)
Fixpoint layout_radial (center_x center_y : R) (radius total : Z) (i : Z)
    (nds : dict TableNode.t) (c : canvas) : dict TableNode.t * canvas :=
  match nds with
  | [] => ([], c)
  | (tname, nd) :: rest =>
      let ang := (2 * PI * IZR i / IZR total)%R in
      let target_x := (center_x + cos ang * IZR radius)%R in
      let target_y := (center_y + sin ang * IZR radius)%R in
      let '(dx, dy) := delta_to nd target_x target_y in
      let '(nd', c1) := TableNode.move nd dx dy c in
      let '(rest', c2) := layout_radial center_x center_y radius total (i + 1) rest c1 in
      ((tname, nd') :: rest', c2)
  end.

(** [apply_layout(mode)].  The code has the two branches [grid] and
    [radial] and no [else]; it then refreshes the edges. *)
Definition apply_layout (mode : string) (d : diagram) : diagram :=
  let count := dict_len (nodes d) in
  if (count =? 0)%Z then d
  else
    let d1 :=
      if String.eqb mode "grid" then
        let ncols := cols_grid count in
        let '(nds, c) := layout_grid ncols 0 (nodes d) (cv d) in
        with_nodes d nds c
      else if String.eqb mode "radial" then
        let center_x := canvasx (view d) (winfo_width (view d) / 2) in
        let center_y := canvasy (view d) (winfo_height (view d) / 2) in
        let radius := radial_radius (dict_len (nodes d)) in
        let total := dict_len (nodes d) in
        let '(nds, c) :=
          layout_radial center_x center_y radius total 0 (nodes d) (cv d) in
        with_nodes d nds c
      else d in
    _update_edges d1.

(** ** Zoom *)

(** [_apply_scale_at(cx, cy, factor)] *)
Definition _apply_scale_at (d : diagram) (cx cy factor : R) : diagram :=
  with_canvas d (canvas_scale_all (cv d) cx cy factor factor).

Definition with_scale (d : diagram) (s : R) : diagram :=
  mk_diagram (cv d) (nodes d) (edges d) s (zoom_var d) (view d).

Definition with_zoom_var (d : diagram) (z : R) : diagram :=
  mk_diagram (cv d) (nodes d) (edges d) (current_scale d) z (view d).

(** [set_zoom(val)], the trace on [zoom_var]: zoom about the centre of
    the window to the scale [val].  Were the current scale zero, the
    division would raise before anything is changed. *)
Definition set_zoom (val : R) (d : diagram) : diagram :=
  if Rle_dec val 0 then d
  else if Rlt_dec (Rabs (val - current_scale d)) 1e-6 then d
  else if Req_dec_T (current_scale d) 0 then d
  else
    let factor := (val / current_scale d)%R in
    let d1 := with_scale d val in
    let cx := canvasx (view d) (winfo_width (view d) / 2) in
    let cy := canvasy (view d) (winfo_height (view d) / 2) in
    _apply_scale_at d1 cx cy factor.

(** Writing [zoom_var], by the slider or by [zoom_var.set], runs the trace. *)
Definition zoom_var_set (val : R) (d : diagram) : diagram :=
  set_zoom val (with_zoom_var d val).

(** A mouse-wheel event: the modifier mask, [delta] (Windows, macOS)
    and [num] (the button, on Linux) when the event has them, and the
    pointer's window coordinates. *)
Record wheel_event : Type := mk_wheel {
  ev_state : Z;
  ev_delta : option Z;
  ev_num : option Z;
  ev_x : Z;
  ev_y : Z
}.

(** The wheel direction from the button number, on Linux. *)
Definition button_delta (num : option Z) : Z :=
  match num with
  | Some 4%Z => 1%Z
  | Some 5%Z => (-1)%Z
  | _ => 0%Z
  end.

(** The normalised wheel direction: [1], [-1] or [0]. *)
Definition wheel_delta (e : wheel_event) : Z :=
  match ev_delta e with
  | Some dl =>
      if negb (dl =? 0)%Z then (if (dl >? 0)%Z then 1%Z else (-1)%Z)
      else button_delta (ev_num e)
  | None => button_delta (ev_num e)
  end.

(** The scale [wheel_zoom] goes to from [s] for a direction [delta]:
    [max(0.2, min(3.0, s * step))]. *)
Definition wheel_new_scale (s : R) (delta : Z) : R :=
  let step := if (delta >? 0)%Z then 1.1%R else (1 / 1.1)%R in
  Rmax 0.2 (Rmin 3.0 (s * step)).

(** [wheel_zoom(event)].  Without Control, or when the wheel has not
    turned, nothing happens; were the current scale zero, the division
    would raise before anything is changed. *)
Definition wheel_zoom (e : wheel_event) (d : diagram) : diagram :=
  if (Z.land (ev_state e) 4 =? 0)%Z then d
  else
    let delta := wheel_delta e in
    if (delta =? 0)%Z then d
    else
      let new_scale := wheel_new_scale (current_scale d) delta in
      if Req_dec_T (current_scale d) 0 then d
      else
        let factor := (new_scale / current_scale d)%R in
        let d1 := with_scale d new_scale in
        let cx := canvasx (view d) (ev_x e) in
        let cy := canvasy (view d) (ev_y e) in
        let d2 := _apply_scale_at d1 cx cy factor in
        zoom_var_set new_scale d2.

(** ** Scrolling *)

(** The scrollbars and the pan handlers ([scan_mark], [scan_dragto])
    move the origin of the view, and resizing the window changes its
    size; they touch nothing else. *)
Definition with_view (d : diagram) (v : viewport) : diagram :=
  mk_diagram (cv d) (nodes d) (edges d) (current_scale d) (zoom_var d) v.

(** ** Dragging a node *)

(** [<ButtonPress-1>] on an item of the node [tname]. *)
Definition press_node (tname : string) (ex ey : Z) (d : diagram) : diagram :=
  match dict_get (nodes d) tname with
  | None => d
  | Some nd =>
      with_nodes d (dict_set (nodes d) tname (TableNode.start_drag nd ex ey)) (cv d)
  end.

(** [<B1-Motion>] on an item of the node [tname]: the node's [on_drag],
    then the canvas binding that calls [_update_edges]. *)
Definition drag_node (tname : string) (ex ey : Z) (d : diagram) : diagram :=
  match dict_get (nodes d) tname with
  | None => _update_edges d
  | Some nd =>
      let '(nd', c) := TableNode.on_drag nd ex ey (cv d) in
      _update_edges (with_nodes d (dict_set (nodes d) tname nd') c)
  end.

(** ** Vocabulary of the statements *)

(** The position of a node. *)
Definition node_pos (nd : TableNode.t) : R * R := (TableNode.x nd, TableNode.y nd).

(** What a node keeps of its table: its name and its columns. *)
Definition node_table (p : string * TableNode.t) : string * list string :=
  (TableNode.name (snd p), TableNode.cols (snd p)).

(** The grid cells of the indices [i, i+1, ..., i+n-1], row by row. *)
Fixpoint grid_cells (ncols : Z) (i : Z) (n : nat) : list (R * R) :=
  match n with
  | O => []
  | S m => (IZR (grid_x ncols i), IZR (grid_y ncols i)) :: grid_cells ncols (i + 1) m
  end.

Definition positions (nds : dict TableNode.t) : list (R * R) :=
  map (fun p => node_pos (snd p)) nds.

(** Both tables of the foreign key are keys of [nodes]. *)
Definition fk_drawable (nds : dict TableNode.t) (fk : foreign_key) : bool :=
  dict_mem nds (fk_table fk) && dict_mem nds (fk_ref_table fk).

(** An edge joins the two tables of its foreign key. *)
Definition edge_of_fk (e : edge) : Prop :=
  e_from e = fk_table (e_fk e) /\ e_to e = fk_ref_table (e_fk e).

(** The integer nearest to the square root of [n]. *)
Definition nearest_sqrt (n : Z) : Z :=
  let s := Z.sqrt n in
  if (s * s + s <? n)%Z then (s + 1)%Z else s.

(** The column count in the words of the specification:
    [ceil(sqrt(node_count))]. *)
Definition spec_cols_grid (count : Z) : Z := Z.sqrt_up count.

(** ** A two-table schema *)

Definition window0 : viewport := mk_view 0 0 1400 900.

Definition users_orders : dict (list string) :=
  [ ("users", ["id"; "name"]); ("orders", ["id"; "user_id"]) ].

Definition fk_orders_users : foreign_key := mk_fk "orders" "user_id" "users" "id".

Definition fk_archived : foreign_key := mk_fk "orders" "log_id" "archived_logs" "id".

Definition users_orders_diagram : diagram :=
  _show_interactive_eer window0 users_orders [] [fk_orders_users].



(** A request to zoom: a wheel event on the canvas, or the slider
    writing its value to [zoom_var]. *)
Inductive zoom_request : Type :=
| Wheel (e : wheel_event)
| Slider (val : R).

Definition zoom_step (d : diagram) (q : zoom_request) : diagram :=
  match q with
  | Wheel e => wheel_zoom e d
  | Slider val => zoom_var_set val d
  end.

Definition zoom_run (qs : list zoom_request) (d : diagram) : diagram :=
  fold_left zoom_step qs d.

(** The bounds of [wheel_zoom]. *)
Definition in_zoom_range (s : R) : Prop := (0.2 <= s <= 3.0)%R.

(** The slider is created with [from_=0.4, to=2.4]. *)
Definition slider_in_range (q : zoom_request) : Prop :=
  match q with
  | Wheel _ => True
  | Slider val => (0.4 <= val <= 2.4)%R
  end.

(** The wheel event zooms: Control is held, the wheel has turned and
    the scale can be divided by. *)
Definition wheel_active (e : wheel_event) (d : diagram) : bool :=
  negb (Z.land (ev_state e) 4 =? 0)%Z
  && negb (wheel_delta e =? 0)%Z
  && (if Req_dec_T (current_scale d) 0 then false else true).


Definition ctrl_wheel_up : wheel_event := mk_wheel 4 (Some 120%Z) None 300 200.
Definition ctrl_wheel_down : wheel_event := mk_wheel 4 (Some (-120)%Z) None 300 200.

(** ** Edges on the canvas *)

(** What no canvas operation of the diagram changes in an item. *)
Definition item_shape (it : item) : item_kind * item_tag * string :=
  (ikind it, itag it, itext it).

Definition canvas_shape (c : canvas) : list (item_kind * item_tag * string) :=
  map item_shape c.

Definition shape_item (sh : list (item_kind * item_tag * string)) (id : nat)
    : option (item_kind * item_tag * string) :=
  match id with
  | O => None
  | S n => nth_error sh n
  end.

(** The ids of an edge are those of a line and of a text with the
    label of its foreign key. *)
Definition edge_items_ok (sh : list (item_kind * item_tag * string)) (e : edge)
    : Prop :=
  shape_item sh (e_line e) = Some (Line, FkLine, EmptyString)
  /\ shape_item sh (e_label e) = Some (Text, FkLabel, fk_label_text (e_fk e)).

Definition edge_ids (es : list edge) : list nat :=
  flat_map (fun e => [e_line e; e_label e]) es.

Definition edge_ends_in (nds : dict TableNode.t) (e : edge) : Prop :=
  In (e_from e) (dict_keys nds) /\ In (e_to e) (dict_keys nds).

(** The invariant of the window: every edge joins two nodes, which
    are the tables of its foreign key, and the edges own distinct line
    and label items. *)
Record well_formed (d : diagram) : Prop := mk_wf {
  wf_ends : Forall (edge_ends_in (nodes d)) (edges d);
  wf_items : Forall (edge_items_ok (canvas_shape (cv d))) (edges d);
  wf_ids : NoDup (edge_ids (edges d));
  wf_fk : Forall edge_of_fk (edges d)
}.

(** [d'] has the edges, the node names and the items of [d]; positions
    and coordinates may differ. *)
Definition same_frame (d d' : diagram) : Prop :=
  edges d' = edges d
  /\ dict_keys (nodes d') = dict_keys (nodes d)
  /\ canvas_shape (cv d') = canvas_shape (cv d).

(** The edge [e] is drawn where the nodes of [nds] are: its line runs
    from the source to the target as [line_coords] says, and its text
    item carries the label at [label_coords]. *)
Definition edge_drawn (nds : dict TableNode.t) (c : canvas) (e : edge) : Prop :=
  exists na nb,
    dict_get nds (e_from e) = Some na
    /\ dict_get nds (e_to e) = Some nb
    /\ canvas_item c (e_line e) = Some (mk_item Line FkLine (line_coords na nb) EmptyString)
    /\ canvas_item c (e_label e)
       = Some (mk_item Text FkLabel (label_coords na nb) (fk_label_text (e_fk e))).

(** The states of an open diagram window: the one it is built in,
    and those the handlers lead to. *)
Inductive reachable : diagram -> Prop :=
| reach_show (v : viewport) (schema : dict (list string))
    (gv_positions : dict (R * R)) (fk_list : list foreign_key) :
    NoDup (dict_keys schema) ->
    reachable (_show_interactive_eer v schema gv_positions fk_list)
| reach_layout (mode : string) (d : diagram) :
    reachable d -> reachable (apply_layout mode d)
| reach_press (tname : string) (ex ey : Z) (d : diagram) :
    reachable d -> reachable (press_node tname ex ey d)
| reach_drag (tname : string) (ex ey : Z) (d : diagram) :
    reachable d -> reachable (drag_node tname ex ey d)
| reach_motion (d : diagram) :
    reachable d -> reachable (_update_edges d)
| reach_wheel (e : wheel_event) (d : diagram) :
    reachable d -> reachable (wheel_zoom e d)
| reach_slider (val : R) (d : diagram) :
    reachable d -> reachable (zoom_var_set val d)
| reach_scroll (v : viewport) (d : diagram) :
    reachable d -> reachable (with_view d v).

(** The states in which the edges have just been drawn: the initial
    one, and those left by [_update_edges], which a layout, a drag of
    a node and any pointer motion with the button down end with. *)
Inductive redrawn : diagram -> Prop :=
| redrawn_show (v : viewport) (schema : dict (list string))
    (gv_positions : dict (R * R)) (fk_list : list foreign_key) :
    NoDup (dict_keys schema) ->
    redrawn (_show_interactive_eer v schema gv_positions fk_list)
| redrawn_layout (mode : string) (d : diagram) :
    reachable d -> redrawn (apply_layout mode d)
| redrawn_drag (tname : string) (ex ey : Z) (d : diagram) :
    reachable d -> redrawn (drag_node tname ex ey d)
| redrawn_motion (d : diagram) :
    reachable d -> redrawn (_update_edges d).

(** The attachment in the words of the specification: at the vertical
    centre of the header, with the label at the middle of the line. *)
Definition spec_anchor_y (nd : TableNode.t) : R :=
  (TableNode.y nd + IZR TableNode.HEADER_H / 2)%R.

Definition spec_line_coords (na nb : TableNode.t) : list R :=
  [ TableNode.x na + IZR (TableNode.width na); spec_anchor_y na;
    TableNode.x nb; spec_anchor_y nb ]%R.

Definition midpoint (seg : list R) : list R :=
  match seg with
  | [x1; y1; x2; y2] => [ (x1 + x2) / 2; (y1 + y2) / 2 ]%R
  | _ => []
  end.

(** ** More of the diagram *)

(** What no handler changes in a node: its table, its size, its tag
    and the ids of its texts. *)
Definition node_frame (nd : TableNode.t)
    : string * list string * Z * Z * item_tag * list nat :=
  (TableNode.name nd, TableNode.cols nd, TableNode.width nd,
   TableNode.height nd, TableNode.tag nd, TableNode.text_ids nd).

(** The nodes of a diagram without their positions and drag state. *)
Definition frames (d : diagram)
    : list (string * (string * list string * Z * Z * item_tag * list nat)) :=
  map (fun p => (fst p, node_frame (snd p))) (nodes d).

(** The items [draw_cols] makes for the columns [cs] from index [i],
    when [cs] are the last columns of the node: a separator before the
    text of every column but the last. *)
Fixpoint col_items (tg : item_tag) (x1 y1 x2 : R) (i : Z) (cs : list string)
    : list item :=
  match cs with
  | [] => []
  | col :: rest =>
      let cy := (y1 + IZR TableNode.HEADER_H + IZR i * IZR TableNode.ROW_H
                 + IZR TableNode.ROW_H / 2 + 3)%R in
      let line_y := (y1 + IZR TableNode.HEADER_H + IZR (i + 1) * IZR TableNode.ROW_H)%R in
      (match rest with
       | [] => []
       | _ :: _ => [mk_item Line tg [x1 + 5; line_y; x2 - 5; line_y]%R EmptyString]
       end)
        ++ mk_item Text tg [x1 + 10; cy]%R col :: col_items tg x1 y1 x2 (i + 1) rest
  end.

(** The items of a node drawn at [(x, y)], in the order of creation:
    shadow, box, header bands, title, columns. *)
Definition node_items (name : string) (cols : list string) (x y : R) : list item :=
  let width := TableNode.BOX_WIDTH in
  let height :=
    (TableNode.HEADER_H + Z.of_nat (List.length cols) * TableNode.ROW_H
     + TableNode.PAD + TableNode.BOTTOM_PAD)%Z in
  let x2 := (x + IZR width)%R in
  let y2 := (y + IZR height)%R in
  let tg := BoxTag x y x2 y2 in
  snd (_create_box_with_shadow x y x2 y2 10 4 4)
    ++ _draw_header_gradient tg x y x2 (y + IZR TableNode.HEADER_H) 20
    ++ mk_item Text tg [x + 10; y + IZR TableNode.HEADER_H / 2]%R name
    :: col_items tg x y x2 0 cols.

(** * The scroll region

    [_apply_scale_at] ends with
    [canvas.configure(scrollregion=canvas.bbox("all"))].  The handlers
    of the first part leave that call out: it changes no node, no
    edge, no item and no scale, which is all their statements speak
    of.  It can change the view: the canvas is created with Tk's
    default [-confine], under which Tk, whenever the scroll region is
    set, moves the origin of the view so that the window does not
    stick out of the region on one side while there is room on the
    other.  The handlers of this part include the call. *)

(** What Tk answers to the window: [canvas.bbox("all")], from the
    shapes of the items (line widths and text extents included), and
    the width of the widget's border (border and highlight), which the
    view excludes. *)
Record tk : Type := mk_tk {
  tk_bbox : canvas -> option (Z * Z * Z * Z);
  tk_inset : Z
}.

(** Tk's confinement on one axis.  [left] and [right] are the room
    between the sides of the window and the sides of the region
    [lo, hi]; a side with negative room sticks out. *)
Definition confine_axis (origin : R) (size inset lo hi : Z) : R :=
  let left := (origin + IZR inset - IZR lo)%R in
  let right := (IZR hi - (origin + IZR size - IZR inset))%R in
  if Rlt_dec left 0 then
    if Rlt_dec 0 right
    then (origin + (if Rlt_dec (- left) right then - left else right))%R
    else origin
  else if Rlt_dec right 0 then
    if Rlt_dec 0 left
    then (origin - (if Rlt_dec (- right) left then - right else left))%R
    else origin
  else origin.

(** [bbox = canvas.bbox("all")] and, [if bbox:],
    [canvas.configure(scrollregion=bbox)]: the view Tk leaves. *)
Definition configure_scrollregion (k : tk) (c : canvas) (v : viewport) : viewport :=
  match tk_bbox k c with
  | None => v
  | Some (x1, y1, x2, y2) =>
      mk_view (confine_axis (xorigin v) (winfo_width v) (tk_inset k) x1 x2)
              (confine_axis (yorigin v) (winfo_height v) (tk_inset k) y1 y2)
              (winfo_width v) (winfo_height v)
  end.

Module Scrolled.

(** [_apply_scale_at(cx, cy, factor)] *)
Definition _apply_scale_at (k : tk) (d : diagram) (cx cy factor : R) : diagram :=
  let c := canvas_scale_all (cv d) cx cy factor factor in
  with_view (with_canvas d c) (configure_scrollregion k c (view d)).

(** [set_zoom(val)] *)
Definition set_zoom (k : tk) (val : R) (d : diagram) : diagram :=
  if Rle_dec val 0 then d
  else if Rlt_dec (Rabs (val - current_scale d)) 1e-6 then d
  else if Req_dec_T (current_scale d) 0 then d
  else
    let factor := (val / current_scale d)%R in
    let d1 := with_scale d val in
    let cx := canvasx (view d) (winfo_width (view d) / 2) in
    let cy := canvasy (view d) (winfo_height (view d) / 2) in
    _apply_scale_at k d1 cx cy factor.

Definition zoom_var_set (k : tk) (val : R) (d : diagram) : diagram :=
  set_zoom k val (with_zoom_var d val).

(** [wheel_zoom(event)] *)
Definition wheel_zoom (k : tk) (e : wheel_event) (d : diagram) : diagram :=
  if (Z.land (ev_state e) 4 =? 0)%Z then d
  else
    let delta := wheel_delta e in
    if (delta =? 0)%Z then d
    else
      let new_scale := wheel_new_scale (current_scale d) delta in
      if Req_dec_T (current_scale d) 0 then d
      else
        let factor := (new_scale / current_scale d)%R in
        let d1 := with_scale d new_scale in
        let cx := canvasx (view d) (ev_x e) in
        let cy := canvasy (view d) (ev_y e) in
        let d2 := _apply_scale_at k d1 cx cy factor in
        zoom_var_set k new_scale d2.

End Scrolled.





(** * The diagram in Python's arithmetic

    The definitions above read coordinates as real numbers.  That is
    what the code computes as long as its additions are exact; where
    a statement equates two different computations (a move and its
    way back, a layout and its target) the rounding of Python's
    floats decides, and the same code is read here on Python's
    numbers: an [int], exact and unbounded, or a [float], an IEEE 754
    binary64 number with the operations of the processor.

    The window creates every node on integers, and a drag moves it by
    integers ([event.x - drag_start_x]); floats come in with the
    radial layout ([canvasx], [math.cos], [math.sin]) and with saved
    positions.  Tk keeps item coordinates as C doubles.  [math.cos]
    and [math.sin] are functions of the C library: the layout takes
    them as they are given. *)

Import PrimFloat.PrimFloatNotations.
Number Notation PrimFloat.float PrimFloat.parser PrimFloat.printer : float_scope.
Set Warnings "-inexact-float".

Module Py.

(** A Python number. *)
Inductive num : Type :=
| Int (z : Z)
| Float (f : PrimFloat.float).

(** [float(z)]: the nearest float, ties to even. *)
Definition float_of_int (z : Z) : PrimFloat.float :=
  FloatOps.SF2Prim
    (SpecFloat.binary_normalize FloatOps.prec FloatOps.emax z 0 false).

(** The float an operation on mixed operands works with. *)
Definition to_float (a : num) : PrimFloat.float :=
  match a with
  | Int z => float_of_int z
  | Float f => f
  end.

(** [a + b], [a - b], [a * b]: exact on two ints, else on floats. *)
Definition add (a b : num) : num :=
  match a, b with
  | Int x, Int y => Int (x + y)
  | _, _ => Float (to_float a + to_float b)
  end.

Definition sub (a b : num) : num :=
  match a, b with
  | Int x, Int y => Int (x - y)
  | _, _ => Float (to_float a - to_float b)
  end.

Definition mul (a b : num) : num :=
  match a, b with
  | Int x, Int y => Int (x * y)
  | _, _ => Float (to_float a * to_float b)
  end.

(** [a / b]: always a float. *)
Definition truediv (a b : num) : num := Float (to_float a / to_float b).

(** [-a] *)
Definition neg (a : num) : num :=
  match a with
  | Int z => Int (- z)
  | Float f => Float (- f)
  end.

(** [int(f)] on a finite float: truncation toward zero. *)
Definition int_of_float (f : PrimFloat.float) : Z :=
  match FloatOps.Prim2SF f with
  | SpecFloat.S754_finite s m e =>
      let v := if (0 <=? e)%Z then (Zpos m * 2 ^ e)%Z else (Zpos m / 2 ^ (- e))%Z in
      if s then (- v)%Z else v
  | _ => 0%Z
  end.

Definition int (a : num) : Z :=
  match a with
  | Int z => z
  | Float f => int_of_float f
  end.

(** [a == b]: equality of the values. *)
Definition eqb (a b : num) : bool :=
  match a, b with
  | Int x, Int y => Z.eqb x y
  | Float x, Float y => PrimFloat.eqb x y
  | Int x, Float y | Float y, Int x =>
      PrimFloat.eqb (float_of_int x) y && Z.eqb (int_of_float y) x
  end.

(** [f"{a}" == f"{b}"]: an int prints without a point and a float
    with one, and two floats print alike when they are the same
    float. *)
Definition same_text (a b : num) : bool :=
  match a, b with
  | Int x, Int y => Z.eqb x y
  | Float x, Float y => PrimFloat.Leibniz.eqb x y
  | _, _ => false
  end.

Definition is_int (a : num) : bool :=
  match a with
  | Int _ => true
  | Float _ => false
  end.

(** [math.pi] *)
Definition pi : PrimFloat.float := 0x1.921fb54442d18p+1.

End Py.

Declare Scope num_scope.
Delimit Scope num_scope with num.
Bind Scope num_scope with Py.num.
Infix "+" := Py.add : num_scope.
Infix "-" := Py.sub : num_scope.
Infix "*" := Py.mul : num_scope.
Infix "/" := Py.truediv : num_scope.

(** [math.cos] and [math.sin]. *)
Record libm : Type := mk_libm {
  m_cos : PrimFloat.float -> PrimFloat.float;
  m_sin : PrimFloat.float -> PrimFloat.float
}.

Module Machine.

(** ** The Tk canvas *)

(** The tag of a node, [f"box_{id(canvas)}_{x1}_{y1}_{x2}_{y2}"], is
    a string: two tags are the same when the four numbers print
    alike. *)
Inductive item_tag : Type :=
| BoxTag (x1 y1 x2 y2 : Py.num)
| FkLine
| FkLabel
| NoTag.

Definition item_tag_eqb (a b : item_tag) : bool :=
  match a, b with
  | BoxTag a1 a2 a3 a4, BoxTag b1 b2 b3 b4 =>
      Py.same_text a1 b1 && Py.same_text a2 b2
      && Py.same_text a3 b3 && Py.same_text a4 b4
  | FkLine, FkLine => true
  | FkLabel, FkLabel => true
  | NoTag, NoTag => true
  | _, _ => false
  end.

(** An item; its coordinates are doubles. *)
Record item : Type := mk_item {
  ikind : item_kind;
  itag : item_tag;
  icoords : list PrimFloat.float;
  itext : string
}.

Definition canvas : Type := list item.

(** The coordinates Python hands to Tk, as Tk reads them. *)
Definition tk_coords (l : list Py.num) : list PrimFloat.float := map Py.to_float l.

Definition create (c : canvas) (it : item) : canvas * nat :=
  (c ++ [it], S (List.length c)).

Fixpoint create_all (c : canvas) (its : list item) : canvas * list nat :=
  match its with
  | [] => (c, [])
  | it :: rest =>
      let '(c1, i) := create c it in
      let '(c2, ids) := create_all c1 rest in
      (c2, i :: ids)
  end.

Fixpoint shift_xy (dx dy : PrimFloat.float) (l : list PrimFloat.float)
    : list PrimFloat.float :=
  match l with
  | px :: py :: rest => (px + dx)%float :: (py + dy)%float :: shift_xy dx dy rest
  | _ => l
  end.

Definition set_coords (it : item) (cs : list PrimFloat.float) : item :=
  mk_item (ikind it) (itag it) cs (itext it).

(** [canvas.move(tag, dx, dy)] *)
Definition canvas_move (c : canvas) (tg : item_tag) (dx dy : PrimFloat.float) : canvas :=
  map (fun it =>
         if item_tag_eqb (itag it) tg
         then set_coords it (shift_xy dx dy (icoords it))
         else it) c.

(** [canvas.coords(id, ...)] *)
Fixpoint canvas_coords (c : canvas) (id : nat) (cs : list PrimFloat.float) : canvas :=
  match c, id with
  | [], _ => []
  | it :: rest, 1%nat => set_coords it cs :: rest
  | it :: rest, S n => it :: canvas_coords rest n cs
  | _, O => c
  end.

(** ** The drawing helpers *)

Definition _create_rounded_rect (tg : item_tag) (x1 y1 x2 y2 r : Py.num) : list item :=
  [ mk_item Arc tg
      (tk_coords [x1; y1; x1 + Py.Int 2 * r; y1 + Py.Int 2 * r]%num) EmptyString;
    mk_item Arc tg
      (tk_coords [x2 - Py.Int 2 * r; y1; x2; y1 + Py.Int 2 * r]%num) EmptyString;
    mk_item Arc tg
      (tk_coords [x2 - Py.Int 2 * r; y2 - Py.Int 2 * r; x2; y2]%num) EmptyString;
    mk_item Arc tg
      (tk_coords [x1; y2 - Py.Int 2 * r; x1 + Py.Int 2 * r; y2]%num) EmptyString;
    mk_item Rectangle tg (tk_coords [x1 + r; y1; x2 - r; y2]%num) EmptyString;
    mk_item Rectangle tg (tk_coords [x1; y1 + r; x2; y2 - r]%num) EmptyString ].

Definition _create_box_with_shadow (x1 y1 x2 y2 r sx sy : Py.num)
    : item_tag * list item :=
  let tg := BoxTag x1 y1 x2 y2 in
  (tg,
   _create_rounded_rect tg (x1 + sx) (y1 + sy) (x2 + sx) (y2 + sy) r
     ++ _create_rounded_rect tg x1 y1 x2 y2 r)%num.

(** [_draw_header_gradient]: band [i] runs from
    [y1 + int(i * height/steps)] to [y1 + int((i+1) * height/steps)]. *)
Definition _draw_header_gradient (tg : item_tag) (x1 y1 x2 y2 : Py.num) (steps : nat)
    : list item :=
  let height := (y2 - y1)%num in
  map (fun i : nat =>
         let band := fun k : nat =>
           Py.Int (Py.int (Py.Int (Z.of_nat k) * height / Py.Int (Z.of_nat steps))%num) in
         let y_start := (y1 + band i)%num in
         let y_end := (y1 + band (i + 1)%nat)%num in
         mk_item Rectangle tg (tk_coords [x1; y_start; x2; y_end]) EmptyString)
      (seq 0 steps).

(** ** class TableNode *)

Module TableNode.

Definition BOX_WIDTH : Z := 220.
Definition HEADER_H : Z := 28.
Definition ROW_H : Z := 20.
Definition PAD : Z := 6.
Definition BOTTOM_PAD : Z := 8.

Record t : Type := mk {
  name : string;
  cols : list string;
  x : Py.num;
  y : Py.num;
  width : Z;
  height : Z;
  tag : item_tag;
  text_ids : list nat
}.

Fixpoint draw_cols (tg : item_tag) (x1 y1 x2 : Py.num) (n : Z) (i : Z)
    (cs : list string) (c : canvas) (ids : list nat) : canvas * list nat :=
  match cs with
  | [] => (c, ids)
  | col :: rest =>
      let cy :=
        (y1 + Py.Int HEADER_H + Py.Int i * Py.Int ROW_H
         + Py.Int ROW_H / Py.Int 2 + Py.Int 3)%num in
      let line_y :=
        (y1 + Py.Int HEADER_H + Py.Int (i + 1) * Py.Int ROW_H)%num in
      let c1 :=
        if (i <? n - 1)%Z
        then fst (create c
                    (mk_item Line tg
                       (tk_coords [x1 + Py.Int 5; line_y; x2 - Py.Int 5; line_y]%num)
                       EmptyString))
        else c in
      let '(c2, tid) :=
        create c1 (mk_item Text tg (tk_coords [x1 + Py.Int 10; cy]%num) col) in
      draw_cols tg x1 y1 x2 n (i + 1) rest c2 (ids ++ [tid])
  end.

(** [draw] *)
Definition draw (c : canvas) (name : string) (cols : list string)
    (x y : Py.num) (width height : Z) : canvas * item_tag * list nat :=
  let x1 := x in
  let y1 := y in
  let x2 := (x1 + Py.Int width)%num in
  let y2 := (y1 + Py.Int height)%num in
  let '(tg, box) :=
    _create_box_with_shadow x1 y1 x2 y2 (Py.Int 10) (Py.Int 4) (Py.Int 4) in
  let c1 := fst (create_all c box) in
  let c2 :=
    fst (create_all c1
           (_draw_header_gradient tg x1 y1 x2 (y1 + Py.Int HEADER_H)%num 20)) in
  let '(c3, title_id) :=
    create c2
      (mk_item Text tg
         (tk_coords [x1 + Py.Int 10; y1 + Py.Int HEADER_H / Py.Int 2]%num)
         name) in
  let '(c4, ids) :=
    draw_cols tg x1 y1 x2 (Z.of_nat (List.length cols)) 0 cols c3 [title_id] in
  (c4, tg, ids).

(** [TableNode(canvas, name, cols, x, y)] *)
Definition init (c : canvas) (name : string) (cols : list string) (x y : Py.num)
  : t * canvas :=
  let width := BOX_WIDTH in
  let height :=
    (HEADER_H + Z.of_nat (List.length cols) * ROW_H
     + PAD + BOTTOM_PAD)%Z in
  let '(c', tg, ids) := draw c name cols x y width height in
  (mk name cols x y width height tg ids, c').

(** [move(dx, dy)]: [self.x += dx], [self.y += dy], and the items of
    the node are moved on the canvas. *)
Definition move (nd : t) (dx dy : Py.num) (c : canvas) : t * canvas :=
  (mk (name nd) (cols nd) (x nd + dx)%num (y nd + dy)%num (width nd) (height nd)
      (tag nd) (text_ids nd),
   canvas_move c (tag nd) (Py.to_float dx) (Py.to_float dy)).

End TableNode.

(** ** The diagram window *)

Record diagram : Type := mk_diagram {
  cv : canvas;
  nodes : dict TableNode.t;
  edges : list edge
}.

Definition place_node (gv_positions : dict (Py.num * Py.num)) (ncols : Z) (index : Z)
    (t : string) : Py.num * Py.num * Z :=
  match dict_get gv_positions t with
  | Some (gx, gy) => (gx, gy, index)
  | None =>
      (Py.Int (grid_x ncols index), Py.Int (grid_y ncols index), (index + 1)%Z)
  end.

Fixpoint build_nodes (schema : dict (list string)) (gv_positions : dict (Py.num * Py.num))
    (ncols : Z) (tables : list string) (index : Z)
    (c : canvas) (nds : dict TableNode.t) : canvas * dict TableNode.t :=
  match tables with
  | [] => (c, nds)
  | t :: rest =>
      let '(px, py, index') := place_node gv_positions ncols index t in
      let '(nd, c') := TableNode.init c t (schema_cols schema t) px py in
      build_nodes schema gv_positions ncols rest index' c' (dict_set nds t nd)
  end.

(** [na.y + HEADER_H + ROW_H / 2] *)
Definition anchor_y (nd : TableNode.t) : Py.num :=
  (TableNode.y nd + Py.Int TableNode.HEADER_H
   + Py.Int TableNode.ROW_H / Py.Int 2)%num.

Definition line_coords (na nb : TableNode.t) : list PrimFloat.float :=
  tk_coords
    [ (TableNode.x na + Py.Int (TableNode.width na))%num; anchor_y na;
      TableNode.x nb; anchor_y nb ].

Definition label_coords (na nb : TableNode.t) : list PrimFloat.float :=
  let x1 := (TableNode.x na + Py.Int (TableNode.width na))%num in
  let y1 := anchor_y na in
  let x2 := TableNode.x nb in
  let y2 := anchor_y nb in
  let mx := ((x1 + x2) / Py.Int 2)%num in
  let my := ((y1 + y2) / Py.Int 2)%num in
  tk_coords [ mx; (my - Py.Int 12)%num ].

Fixpoint build_edges (nds : dict TableNode.t) (fk_list : list foreign_key)
    (c : canvas) (es : list edge) : canvas * list edge :=
  match fk_list with
  | [] => (c, es)
  | fk :: rest =>
      match dict_get nds (fk_table fk), dict_get nds (fk_ref_table fk) with
      | Some na, Some nb =>
          let '(c1, lid) := create c (mk_item Line FkLine (line_coords na nb) EmptyString) in
          let '(c2, label_id) :=
            create c1 (mk_item Text FkLabel (label_coords na nb) (fk_label_text fk)) in
          build_edges nds rest c2
            (es ++ [mk_edge lid label_id (fk_table fk) (fk_ref_table fk) fk])
      | _, _ => build_edges nds rest c es
      end
  end.

(** [_show_interactive_eer(parent_window, schema, gv_positions)] *)
Definition _show_interactive_eer (schema : dict (list string))
    (gv_positions : dict (Py.num * Py.num)) (fk_list : list foreign_key) : diagram :=
  let tables := dict_keys schema in
  match tables with
  | [] =>
      mk_diagram
        [mk_item Text NoTag (tk_coords [Py.Int 20; Py.Int 40]) "No tables found"] [] []
  | _ :: _ =>
      let ncols := cols_grid (Z.of_nat (List.length tables)) in
      let '(c1, nds) := build_nodes schema gv_positions ncols tables 0 [] [] in
      let '(c2, es) := build_edges nds fk_list c1 [] in
      mk_diagram c2 nds es
  end.

Fixpoint update_edges_loop (nds : dict TableNode.t) (es : list edge) (c : canvas)
    : canvas :=
  match es with
  | [] => c
  | e :: rest =>
      match dict_get nds (e_from e), dict_get nds (e_to e) with
      | Some na, Some nb =>
          let c1 := canvas_coords c (e_line e) (line_coords na nb) in
          let c2 := canvas_coords c1 (e_label e) (label_coords na nb) in
          update_edges_loop nds rest c2
      | _, _ => c
      end
  end.

Definition _update_edges (d : diagram) : diagram :=
  mk_diagram (update_edges_loop (nodes d) (edges d) (cv d)) (nodes d) (edges d).

(** The [grid] loop of [apply_layout], from index [i]:
    [dx, dy = target_x - nd.x, target_y - nd.y] and [nd.move(dx, dy)]. *)
Fixpoint layout_grid (ncols : Z) (i : Z) (nds : dict TableNode.t) (c : canvas)
    : dict TableNode.t * canvas :=
  match nds with
  | [] => ([], c)
  | (tname, nd) :: rest =>
      let target_x := Py.Int (grid_x ncols i) in
      let target_y := Py.Int (grid_y ncols i) in
      let dx := (target_x - TableNode.x nd)%num in
      let dy := (target_y - TableNode.y nd)%num in
      let '(nd', c1) := TableNode.move nd dx dy c in
      let '(rest', c2) := layout_grid ncols (i + 1) rest c1 in
      ((tname, nd') :: rest', c2)
  end.

(** The point the [radial] loop aims node [i] of [total] at:
    [ang = (2 * math.pi * i) / total],
    [center_x + math.cos(ang) * radius],
    [center_y + math.sin(ang) * radius]. *)
Definition radial_target (m : libm) (center_x center_y : PrimFloat.float)
    (radius total i : Z) : Py.num * Py.num :=
  let ang :=
    Py.to_float (Py.Int 2 * Py.Float Py.pi * Py.Int i / Py.Int total)%num in
  ((Py.Float center_x + Py.Float (m_cos m ang) * Py.Int radius)%num,
   (Py.Float center_y + Py.Float (m_sin m ang) * Py.Int radius)%num).

(** The [radial] loop of [apply_layout], from index [i]. *)
Fixpoint layout_radial (m : libm) (center_x center_y : PrimFloat.float)
    (radius total : Z) (i : Z) (nds : dict TableNode.t) (c : canvas)
    : dict TableNode.t * canvas :=
  match nds with
  | [] => ([], c)
  | (tname, nd) :: rest =>
      let '(target_x, target_y) := radial_target m center_x center_y radius total i in
      let dx := (target_x - TableNode.x nd)%num in
      let dy := (target_y - TableNode.y nd)%num in
      let '(nd', c1) := TableNode.move nd dx dy c in
      let '(rest', c2) := layout_radial m center_x center_y radius total (i + 1) rest c1 in
      ((tname, nd') :: rest', c2)
  end.

(** [apply_layout(mode)].  [center] is what [canvas.canvasx] and
    [canvas.canvasy] answer for the middle of the window,
    [winfo_width() // 2] and [winfo_height() // 2]; only the radial
    branch asks.  The reset of the scroll region that ends the
    function touches neither the nodes nor the items. *)
Definition apply_layout (m : libm) (center : PrimFloat.float * PrimFloat.float)
    (mode : string) (d : diagram) : diagram :=
  let count := dict_len (nodes d) in
  if (count =? 0)%Z then d
  else
    let d1 :=
      if String.eqb mode "grid" then
        let ncols := cols_grid count in
        let '(nds, c) := layout_grid ncols 0 (nodes d) (cv d) in
        mk_diagram c nds (edges d)
      else if String.eqb mode "radial" then
        let radius := radial_radius (dict_len (nodes d)) in
        let total := dict_len (nodes d) in
        let '(nds, c) :=
          layout_radial m (fst center) (snd center) radius total 0 (nodes d) (cv d) in
        mk_diagram c nds (edges d)
      else d in
    _update_edges d1.

(** ** Vocabulary of the statements *)

Definition node_pos (nd : TableNode.t) : Py.num * Py.num :=
  (TableNode.x nd, TableNode.y nd).

Definition positions (nds : dict TableNode.t) : list (Py.num * Py.num) :=
  map (fun p => node_pos (snd p)) nds.

(** What a move leaves of a node. *)
Definition node_frame (nd : TableNode.t)
    : string * list string * Z * Z * item_tag * list nat :=
  (TableNode.name nd, TableNode.cols nd, TableNode.width nd,
   TableNode.height nd, TableNode.tag nd, TableNode.text_ids nd).

Definition frames (nds : dict TableNode.t)
    : list (string * (string * list string * Z * Z * item_tag * list nat)) :=
  map (fun p => (fst p, node_frame (snd p))) nds.

(** The coordinates of the node are Python ints. *)
Definition on_ints (nd : TableNode.t) : bool :=
  Py.is_int (TableNode.x nd) && Py.is_int (TableNode.y nd).

Definition all_on_ints (nds : dict TableNode.t) : bool :=
  forallb (fun p => on_ints (snd p)) nds.

(** The grid cells of the indices [i, ..., i+n-1], as ints. *)
Fixpoint grid_cells (ncols : Z) (i : Z) (n : nat) : list (Py.num * Py.num) :=
  match n with
  | O => []
  | S m =>
      (Py.Int (grid_x ncols i), Py.Int (grid_y ncols i)) :: grid_cells ncols (i + 1) m
  end.

(** The points the radial loop aims the nodes [i, ..., i+n-1] at. *)
Fixpoint radial_targets (m : libm) (center_x center_y : PrimFloat.float)
    (radius total : Z) (i : Z) (n : nat) : list (Py.num * Py.num) :=
  match n with
  | O => []
  | S k =>
      radial_target m center_x center_y radius total i
        :: radial_targets m center_x center_y radius total (i + 1) k
  end.

(** Where [move] leaves a node that is sent from [p] to [t]:
    [p + (t - p)] on each axis. *)
Definition landing (p t : Py.num * Py.num) : Py.num * Py.num :=
  ((fst p + (fst t - fst p))%num, (snd p + (snd t - snd p))%num).

(** Two positions are the same point. *)
Definition same_point (p q : Py.num * Py.num) : bool :=
  Py.eqb (fst p) (fst q) && Py.eqb (snd p) (snd q).

(** Where the nodes land when node [j] is sent from the [j]-th of
    [ps] to the [j]-th of [ts]. *)
Definition landings (ps ts : list (Py.num * Py.num)) : list (Py.num * Py.num) :=
  map (fun pt => landing (fst pt) (snd pt)) (combine ps ts).

(** The displacements the [grid] loop hands to [move], from index [i]. *)
Fixpoint grid_deltas (ncols : Z) (i : Z) (nds : dict TableNode.t)
    : list (Py.num * Py.num) :=
  match nds with
  | [] => []
  | (_, nd) :: rest =>
      ((Py.Int (grid_x ncols i) - TableNode.x nd)%num,
       (Py.Int (grid_y ncols i) - TableNode.y nd)%num)
        :: grid_deltas ncols (i + 1) rest
  end.

(** A move by [(dx, dy)] followed by the move by [(-dx, -dy)]. *)
Definition there_and_back (nd : TableNode.t) (dx dy : Py.num) (c : canvas)
    : TableNode.t * canvas :=
  let '(nd1, c1) := TableNode.move nd dx dy c in
  TableNode.move nd1 (Py.neg dx) (Py.neg dy) c1.

(** The saved positions are pairs of ints. *)
Definition saved_on_ints (gv_positions : dict (Py.num * Py.num)) : bool :=
  forallb (fun p => Py.is_int (fst (snd p)) && Py.is_int (snd (snd p))) gv_positions.

(** ** Diagrams to try *)

Definition users_orders_diagram : diagram :=
  _show_interactive_eer users_orders [] [fk_orders_users].

(** Nineteen tables without columns, and the first six of them. *)
Definition tables19 : dict (list string) :=
  [ ("t00", []);
    ("t01", []);
    ("t02", []);
    ("t03", []);
    ("t04", []);
    ("t05", []);
    ("t06", []);
    ("t07", []);
    ("t08", []);
    ("t09", []);
    ("t10", []);
    ("t11", []);
    ("t12", []);
    ("t13", []);
    ("t14", []);
    ("t15", []);
    ("t16", []);
    ("t17", []);
    ("t18", []) ].


End Machine.

(** The values of C's [cos] and [sin] at the angles
    [(2 * math.pi * i) / n] of the radial layout of 2, 6 and 19 nodes:
    the angle, then its cosine and its sine. *)
Definition c_cos_sin : list (PrimFloat.float * (PrimFloat.float * PrimFloat.float)) :=
  [ (0.0, (1.0, 0.0));
    (0.3306939635357677, (0.9458172417006346, 0.32469946920468346));
    (0.6613879270715354, (0.7891405093963936, 0.6142127126896678));
    (0.9920818906073031, (0.5469481581224269, 0.8371664782625285));
    (1.0471975511965976, (0.5000000000000001, 0.8660254037844386));
    (1.3227758541430708, (0.24548548714079924, 0.9694002659393304));
    (1.6534698176788385, (-0.08257934547233227, 0.9965844930066698));
    (1.9841637812146062, (-0.4016954246529694, 0.9157733266550574));
    (2.0943951023931953, (-0.4999999999999998, 0.8660254037844387));
    (2.3148577447503738, (-0.6772815716257409, 0.7357239106731318));
    (2.6455517082861415, (-0.879473751206489, 0.4759473930370737));
    (2.9762456718219092, (-0.9863613034027223, 0.16459459028073403));
    (3.141592653589793, (-1.0, 1.2246467991473532e-16));
    (3.306939635357677, (-0.9863613034027224, -0.16459459028073378));
    (3.6376335988934443, (-0.8794737512064893, -0.4759473930370731));
    (3.9683275624292125, (-0.6772815716257411, -0.7357239106731316));
    (4.1887902047863905, (-0.5000000000000004, -0.8660254037844384));
    (4.299021525964981, (-0.40169542465296904, -0.9157733266550576));
    (4.6297154895007475, (-0.08257934547233274, -0.9965844930066698));
    (4.960409453036515, (0.2454854871407988, -0.9694002659393305));
    (5.235987755982989, (0.5000000000000001, -0.8660254037844386));
    (5.291103416572283, (0.5469481581224266, -0.8371664782625288));
    (5.621797380108052, (0.7891405093963939, -0.6142127126896674));
    (5.9524913436438185, (0.9458172417006346, -0.32469946920468373)) ]%float.

Fixpoint c_lookup (a : PrimFloat.float)
    (tbl : list (PrimFloat.float * (PrimFloat.float * PrimFloat.float)))
    : option (PrimFloat.float * PrimFloat.float) :=
  match tbl with
  | [] => None
  | (k, v) :: rest => if PrimFloat.Leibniz.eqb a k then Some v else c_lookup a rest
  end.

(** [math.cos] and [math.sin] on those angles; the table says nothing
    of the others. *)
Definition libm_c : libm :=
  mk_libm
    (fun a => match c_lookup a c_cos_sin with
              | Some (c, _) => c
              | None => PrimFloat.nan
              end)
    (fun a => match c_lookup a c_cos_sin with
              | Some (_, s) => s
              | None => PrimFloat.nan
              end).

(** * The result grid and the action history

    The main window ([HRMSQueryGUI]) keeps the rows of the last SELECT
    in [query_rows], shows one page of them in the Treeview
    [result_tree], and logs actions in the Listbox [history_list],
    mirrored by [_history_data].  Values of the database are of any
    type [V]; the builtins [str], [str.lower] and [str.strip] appear
    as they are, as functions. *)

Definition PAGE_SIZE : Z := 100.

(** [l[start:stop]] for integers of either sign. *)
Definition py_slice {A : Type} (l : list A) (start stop : Z) : list A :=
  let len := Z.of_nat (List.length l) in
  let norm := fun i : Z => if (i <? 0)%Z then Z.max 0 (i + len) else Z.min i len in
  let a := norm start in
  let b := norm stop in
  firstn (Z.to_nat (b - a)) (skipn (Z.to_nat a) l).

(** [enumerate(l)] from [i]. *)
Fixpoint enumerate_from {A : Type} (i : Z) (l : list A) : list (Z * A) :=
  match l with
  | [] => []
  | a :: rest => (i, a) :: enumerate_from (i + 1) rest
  end.

(** [sep.join(l)] *)
Fixpoint join (sep : string) (l : list string) : string :=
  match l with
  | [] => EmptyString
  | [s] => s
  | s :: rest => (s ++ sep ++ join sep rest)%string
  end.

Fixpoint is_prefix (p s : string) : bool :=
  match p, s with
  | EmptyString, _ => true
  | String a p', String b s' => Ascii.eqb a b && is_prefix p' s'
  | String _ _, EmptyString => false
  end.

(** [p in s] on strings. *)
Fixpoint is_substring (p s : string) : bool :=
  is_prefix p s
  || match s with
     | EmptyString => false
     | String _ s' => is_substring p s'
     end.

(** A row as the cursor returns it: a dict, or a tuple. *)
Inductive db_row (V : Type) : Type :=
| DictRow (r : dict V)
| TupleRow (r : list V).

Arguments DictRow {V} r.
Arguments TupleRow {V} r.

(** A child of the Treeview: its item id, its values and its tag. *)
Record tree_item (V : Type) : Type := mk_tree_item {
  iid : nat;
  values : list V;
  row_tag : string
}.

Arguments mk_tree_item {V} iid values row_tag.
Arguments iid {V} t.
Arguments values {V} t.
Arguments row_tag {V} t.

(** The attributes of the window the grid lives in: the rows, the
    page, the columns and children of [result_tree], and the counter
    the Treeview names new items from. *)
Record grid (V : Type) : Type := mk_grid {
  query_rows : list (db_row V);
  current_page : Z;
  columns : list string;
  result_tree : list (tree_item V);
  next_iid : nat
}.

Arguments mk_grid {V} query_rows current_page columns result_tree next_iid.
Arguments query_rows {V} g.
Arguments current_page {V} g.
Arguments columns {V} g.
Arguments result_tree {V} g.
Arguments next_iid {V} g.

Section ResultGrid.

Context {V : Type}.

(** [""], the default of [r.get(c, "")], as a value. *)
Variable empty : V.

(** [str(x)], [s.lower()], [s.strip()] *)
Variable py_str : V -> string.
Variable py_lower : string -> string.
Variable py_strip : string -> string.

(** The window as [__init__] leaves it. *)
Definition grid_init : grid V := mk_grid [] 1 [] [] 1.

(** The values shown for a row: by column for a dict, with [""] for a
    column the dict has not, and as they come for a tuple. *)
Definition row_values (cols : list string) (r : db_row V) : list V :=
  match r with
  | DictRow d =>
      map (fun c => match dict_get d c with Some v => v | None => empty end) cols
  | TupleRow vs => vs
  end.

(** The loop of [update_result_grid] and [run_explain] that inserts
    the rows at the end of the tree, striped by parity. *)
Fixpoint insert_rows (cols : list string) (rows : list (Z * db_row V))
    (tree : list (tree_item V)) (next : nat) : list (tree_item V) * nat :=
  match rows with
  | [] => (tree, next)
  | (i, r) :: rest =>
      let tg := if (i mod 2 =? 0)%Z then "evenrow" else "oddrow" in
      insert_rows cols rest (tree ++ [mk_tree_item next (row_values cols r) tg])
        (S next)
  end.

(** [update_result_grid()].  The window has no [total_label] and no
    [page_entry]: the two blocks that use them fail at once inside
    their [try] and do nothing. *)
Definition update_result_grid (g : grid V) : grid V :=
  let rows := query_rows g in
  let total := Z.of_nat (List.length rows) in
  if (total =? 0)%Z then
    mk_grid (query_rows g) (current_page g) (columns g) [] (next_iid g)
  else
    let start := ((current_page g - 1) * PAGE_SIZE)%Z in
    let stop := (start + PAGE_SIZE)%Z in
    let chunk := py_slice rows start stop in
    let '(tree, next) :=
      insert_rows (columns g) (enumerate_from 0 chunk) [] (next_iid g) in
    mk_grid (query_rows g) (current_page g) (columns g) tree next.

Definition with_page (g : grid V) (p : Z) : grid V :=
  mk_grid (query_rows g) p (columns g) (result_tree g) (next_iid g).

(** [next_page()] *)
Definition next_page (g : grid V) : grid V :=
  if (current_page g * PAGE_SIZE <? Z.of_nat (List.length (query_rows g)))%Z
  then update_result_grid (with_page g (current_page g + 1))
  else g.

(** [prev_page()] *)
Definition prev_page (g : grid V) : grid V :=
  if (current_page g >? 1)%Z
  then update_result_grid (with_page g (current_page g - 1))
  else g.

(** What [_on_select_success(preview, rows, cols, ...)] does to the
    grid: the new rows and columns, shown from the first page. *)
Definition on_select_success (rows : list (db_row V)) (cols : list string)
    (g : grid V) : grid V :=
  update_result_grid (mk_grid rows 1 cols (result_tree g) (next_iid g)).

(** What [_on_nonselect_success] does to the grid: no rows, no
    columns, an empty tree; the page is left as it is. *)
Definition on_nonselect_success (g : grid V) : grid V :=
  mk_grid [] (current_page g) [] [] (next_iid g).

(** What [run_explain] does to the grid when the query succeeds: the
    tree shows all the rows of the plan under its columns; the rows
    and the page of the last SELECT are left as they are. *)
Definition run_explain (rows : list (db_row V)) (cols : list string)
    (g : grid V) : grid V :=
  let '(tree, next) := insert_rows cols (enumerate_from 0 rows) [] (next_iid g) in
  mk_grid (query_rows g) (current_page g) cols tree next.

(** The child of the tree with a given id. *)
Definition tree_find (rid : nat) (tree : list (tree_item V)) : option (tree_item V) :=
  find (fun it => Nat.eqb (iid it) rid) tree.

(** [tree.detach(rid)]: the item is no longer a child. *)
Definition detach (rid : nat) (tree : list (tree_item V)) : list (tree_item V) :=
  filter (fun it => negb (Nat.eqb (iid it) rid)) tree.

(** [tree.reattach(rid, "", "end")]: the item becomes the last child. *)
Definition reattach_end (rid : nat) (tree : list (tree_item V)) : list (tree_item V) :=
  match tree_find rid tree with
  | Some it => detach rid tree ++ [it]
  | None => tree
  end.

(** The text a row is searched in: its values, as strings, joined by
    spaces, in lower case. *)
Definition row_matches (val : string) (vals : list V) : bool :=
  is_substring val (py_lower (join " " (map py_str vals))).

(** The loop of [apply_filter] over [get_children()], taken before the
    loop starts. *)
Definition filter_children (val : string) (children : list nat)
    (tree : list (tree_item V)) : list (tree_item V) :=
  fold_left
    (fun t rid =>
       match tree_find rid t with
       | Some it =>
           if row_matches val (values it) then reattach_end rid t else detach rid t
       | None => t
       end)
    children tree.

(** [apply_filter()] with [search] the text of the search box. *)
Definition apply_filter (search : string) (g : grid V) : grid V :=
  let val := py_lower (py_strip search) in
  match val with
  | EmptyString => update_result_grid g
  | String _ _ =>
      mk_grid (query_rows g) (current_page g) (columns g)
        (filter_children val (map iid (result_tree g)) (result_tree g))
        (next_iid g)
  end.

(** The states of the grid.  The last step stands for what the
    headings do: [sort_column] puts the children in another order,
    the column filter of the header menu detaches some of them, and a
    heading dragged on another swaps two columns; the children are
    then some of the children, each once, under some columns. *)
Inductive grid_reachable : grid V -> Prop :=
| grid_start : grid_reachable grid_init
| grid_select (rows : list (db_row V)) (cols : list string) (g : grid V) :
    grid_reachable g -> grid_reachable (on_select_success rows cols g)
| grid_nonselect (g : grid V) :
    grid_reachable g -> grid_reachable (on_nonselect_success g)
| grid_explain (rows : list (db_row V)) (cols : list string) (g : grid V) :
    grid_reachable g -> grid_reachable (run_explain rows cols g)
| grid_next (g : grid V) : grid_reachable g -> grid_reachable (next_page g)
| grid_prev (g : grid V) : grid_reachable g -> grid_reachable (prev_page g)
| grid_filter (search : string) (g : grid V) :
    grid_reachable g -> grid_reachable (apply_filter search g)
| grid_header (cols : list string) (tree : list (tree_item V)) (g : grid V) :
    grid_reachable g ->
    NoDup (map iid tree) -> incl tree (result_tree g) ->
    grid_reachable
      (mk_grid (query_rows g) (current_page g) cols tree (next_iid g)).

(** The pages seen from [g] on by pressing "next" [n - 1] times. *)
Fixpoint walk_pages (n : nat) (g : grid V) : list (list (list V)) :=
  match n with
  | O => []
  | S m => map values (result_tree g) :: walk_pages m (next_page g)
  end.

End ResultGrid.

(** The ids of the tree are distinct and older than the counter. *)
Definition tree_ok {V : Type} (g : grid V) : Prop :=
  NoDup (map iid (result_tree g))
  /\ Forall (fun it => (iid it < next_iid g)%nat) (result_tree g).

(** The page is a page of the rows. *)
Definition page_ok {V : Type} (g : grid V) : Prop :=
  (1 <= current_page g)%Z
  /\ (query_rows g <> [] ->
      ((current_page g - 1) * PAGE_SIZE < Z.of_nat (List.length (query_rows g)))%Z).

(** The rows of the page [p]. *)
Definition page_rows {V : Type} (rows : list (db_row V)) (p : Z) : list (db_row V) :=
  firstn 100 (skipn (Z.to_nat ((p - 1) * PAGE_SIZE)) rows).

(** ** Rows to try the grid on *)

(** Strings as values, shown as they are. *)
Definition str_id (s : string) : string := s.

(** A result of [150] rows of one column: page [1] is full, page [2]
    holds the last [50]. *)
Definition rows_150 : list (db_row string) :=
  repeat (TupleRow ["a"]) 120 ++ repeat (TupleRow ["b"]) 30.

Definition grid_150 : grid string :=
  on_select_success EmptyString rows_150 ["c"] grid_init.

(** Three rows, two of them with an [a] and two with a [b]. *)
Definition rows_ab : list (db_row string) :=
  [TupleRow ["ab"]; TupleRow ["b"]; DictRow [("c", "a")]].

Definition grid_ab : grid string :=
  on_select_success EmptyString rows_ab ["c"] grid_init.

(** ** The action history *)

(** An entry of [_history_data].  [_add_history] writes the keys
    [preview], [status], [raw], [ts] and [display]; [_log_history]
    writes [status] and [raw] only. *)
Record history_entry : Type := mk_history_entry {
  h_preview : option string;
  h_status : string;
  h_raw : string;
  h_ts : option string;
  h_display : option string
}.

(** The lines of the Listbox [history_list] and the list
    [_history_data] behind it. *)
Record history : Type := mk_history {
  history_list : list string;
  _history_data : list history_entry
}.

(** The window as [__init__] leaves it. *)
Definition history_init : history := mk_history [] [].

(** [_log_history(txt)], with [ts] the time of the call as
    [strftime] writes it. *)
Definition _log_history (ts txt : string) (h : history) : history :=
  let display := (ts ++ "  " ++ txt)%string in
  mk_history (history_list h ++ [display])
    (_history_data h ++ [mk_history_entry None display txt None None]).

(** [_add_history(preview, status, raw)], with [iso] and [ts] the
    times of the two calls of [datetime.now()]. *)
Definition _add_history (iso ts preview status raw : string) (h : history) : history :=
  let display := (ts ++ "  " ++ status)%string in
  mk_history (history_list h ++ [display])
    (_history_data h
       ++ [mk_history_entry (Some preview) status raw (Some iso) (Some display)]).

(** [h.get("display", "")] *)
Definition entry_display (e : history_entry) : string :=
  match h_display e with
  | Some d => d
  | None => EmptyString
  end.

(** [refresh_history()] *)
Definition refresh_history (h : history) : history :=
  mk_history (map entry_display (_history_data h)) (_history_data h).

(** [clear_history()], with [yes] the answer to the question. *)
Definition clear_history (yes : bool) (h : history) : history :=
  if yes then mk_history [] [] else h.

(** [l.pop(i)] as a list, and [Listbox.delete(i)]: the list without
    its element at [i]. *)
Fixpoint remove_nth {A : Type} (i : nat) (l : list A) : list A :=
  match l, i with
  | [], _ => []
  | _ :: t, O => t
  | a :: t, S j => a :: remove_nth j t
  end.

(** [_delete_history_item()], with [sel] the selection of the
    Listbox.  [pop] raises [IndexError] out of range: [None]. *)
Definition _delete_history_item (sel : list nat) (h : history) : option history :=
  match sel with
  | [] => Some h
  | idx :: _ =>
      if (idx <? List.length (_history_data h))%nat
      then Some (mk_history (remove_nth idx (history_list h))
                   (remove_nth idx (_history_data h)))
      else None
  end.

(** [_copy_history_item()]: the clipboard after the call, from the
    clipboard before it.  The index out of range raises: [None]. *)
Definition _copy_history_item (sel : list nat) (h : history) (clipboard : string)
    : option string :=
  match sel with
  | [] => Some clipboard
  | idx :: _ =>
      match nth_error (_history_data h) idx with
      | Some e => Some (h_raw e)
      | None => None
      end
  end.

(** What [curselection()] can return: indices of lines of the Listbox. *)
Definition selection_of (sel : list nat) (h : history) : Prop :=
  Forall (fun i => (i < List.length (history_list h))%nat) sel.

(** The states of the history. *)
Inductive history_reachable : history -> Prop :=
| hist_start : history_reachable history_init
| hist_log (ts txt : string) (h : history) :
    history_reachable h -> history_reachable (_log_history ts txt h)
| hist_add (iso ts preview status raw : string) (h : history) :
    history_reachable h ->
    history_reachable (_add_history iso ts preview status raw h)
| hist_refresh (h : history) :
    history_reachable h -> history_reachable (refresh_history h)
| hist_clear (yes : bool) (h : history) :
    history_reachable h -> history_reachable (clear_history yes h)
| hist_delete (sel : list nat) (h h' : history) :
    history_reachable h -> selection_of sel h ->
    _delete_history_item sel h = Some h' -> history_reachable h'.

(** A line of the Listbox stands for an entry: it is the display of
    the entry, or, for an entry that has none, its status or nothing. *)
Definition line_of (line : string) (e : history_entry) : Prop :=
  match h_display e with
  | Some d => line = d
  | None => line = h_status e \/ line = EmptyString
  end.

(** A history to try: a query, then a log line. *)
Definition history_two : history :=
  _log_history "12:00:01" "Disconnected"
    (_add_history "2024-01-01T12:00:00" "12:00:00" "SELECT 1" "1 row(s) returned"
       "SELECT 1" history_init).

(** * Properties *)

(** ** Canvas operations *)






(** ** Dictionaries *)

Lemma dict_get_some_in {V : Type} (d : dict V) (k : string) (v : V) :
  dict_get d k = Some v -> In (k, v) d.
Proof.
  induction d as [ | [k' v'] rest IH ]; simpl; [ discriminate | ].
  destruct (String.eqb k k') eqn:E.
  - apply String.eqb_eq in E. intros [= ->]. left. now subst.
  - intros H. right. now apply IH.
Qed.

Lemma dict_get_none {V : Type} (d : dict V) (k : string) :
  dict_get d k = None <-> ~ In k (dict_keys d).
Proof.
  induction d as [ | [k' v'] rest IH ]; simpl.
  - split; [ intros _ [] | trivial ].
  - destruct (String.eqb k k') eqn:E.
    + apply String.eqb_eq in E. subst k'. split; [ discriminate | ].
      intros H. exfalso. apply H. now left.
    + apply String.eqb_neq in E. rewrite IH. split.
      * intros H [H1 | H1]; [ congruence | auto ].
      * intros H H1. apply H. now right.
Qed.

Lemma dict_mem_in {V : Type} (d : dict V) (k : string) :
  dict_mem d k = true <-> In k (dict_keys d).
Proof.
  unfold dict_mem. destruct (dict_get d k) eqn:E.
  - split; trivial. intros _. apply dict_get_some_in in E.
    unfold dict_keys. change k with (fst (k, v)). now apply in_map.
  - apply dict_get_none in E. split; [ discriminate | contradiction ].
Qed.

Lemma dict_get_entry {V : Type} (d : dict V) (k : string) (v : V) :
  NoDup (dict_keys d) -> In (k, v) d -> dict_get d k = Some v.
Proof.
  induction d as [ | [k' v'] rest IH ]; simpl; [ intros _ [] | ].
  intros Hnd [H | H].
  - injection H as -> ->. now rewrite String.eqb_refl.
  - inversion Hnd as [ | ? ? Hnotin Hrest ]; subst.
    destruct (String.eqb k k') eqn:E.
    + apply String.eqb_eq in E. subst k'. exfalso. apply Hnotin.
      unfold dict_keys. change k with (fst (k, v)). now apply in_map.
    + now apply IH.
Qed.

Lemma dict_set_fresh {V : Type} (d : dict V) (k : string) (v : V) :
  ~ In k (dict_keys d) -> dict_set d k v = d ++ [(k, v)].
Proof.
  induction d as [ | [k' v'] rest IH ]; simpl; trivial.
  intros H. destruct (String.eqb k k') eqn:E.
  - apply String.eqb_eq in E. exfalso. apply H. now left.
  - f_equal. apply IH. intros H1. apply H. now right.
Qed.

Lemma dict_set_keys {V : Type} (d : dict V) (k : string) (v : V) :
  In k (dict_keys d) -> dict_keys (dict_set d k v) = dict_keys d.
Proof.
  induction d as [ | [k' v'] rest IH ]; simpl; [ intros [] | ].
  destruct (String.eqb k k') eqn:E; simpl; trivial.
  apply String.eqb_neq in E. intros [H | H]; [ congruence | ].
  f_equal. now apply IH.
Qed.

(** ** Building the nodes *)

Lemma init_fields (c : canvas) (n : string) (cs : list string) (px py : R) :
  let nd := fst (TableNode.init c n cs px py) in
  TableNode.name nd = n /\ TableNode.cols nd = cs
  /\ TableNode.x nd = px /\ TableNode.y nd = py
  /\ TableNode.width nd = TableNode.BOX_WIDTH.
Proof.
  unfold TableNode.init.
  destruct (TableNode.draw _ _ _ _ _ _ _) as [[c' tg] ids]. simpl. tauto.
Qed.

Section BuildNodes.

Variable schema : dict (list string).
Variable gv_positions : dict (R * R).
Variable ncols : Z.

(** Over distinct tables not yet in the dict, the loop appends one
    node per table, in order, named after the table and holding its
    columns. *)
Lemma build_nodes_appends (tables : list string) :
  forall (index : Z) (c : canvas) (nds : dict TableNode.t),
  NoDup tables ->
  (forall t, In t tables -> ~ In t (dict_keys nds)) ->
  exists new,
    snd (build_nodes schema gv_positions ncols tables index c nds) = nds ++ new
    /\ dict_keys new = tables
    /\ map node_table new = map (fun t => (t, schema_cols schema t)) tables
    /\ Forall (fun p => TableNode.width (snd p) = TableNode.BOX_WIDTH) new
    /\ (gv_positions = [] ->
        positions new = grid_cells ncols index (List.length tables)).
Proof.
  induction tables as [ | t rest IH ]; intros index c nds Hnd Hfresh.
  - exists []. simpl. rewrite app_nil_r. repeat split; trivial.
  - apply NoDup_cons_iff in Hnd. destruct Hnd as [Hnotin Hrest]. simpl.
    destruct (place_node gv_positions ncols index t) as [[px py] index'] eqn:Ep.
    pose proof (init_fields c t (schema_cols schema t) px py) as Hf.
    destruct (TableNode.init c t (schema_cols schema t) px py) as [nd c'].
    simpl in Hf. destruct Hf as (Hn & Hc & Hx & Hy & Hw).
    rewrite dict_set_fresh by (apply Hfresh; now left).
    destruct (IH index' c' (nds ++ [(t, nd)]) Hrest) as (new & E & K & T & W & P).
    { intros t' Ht'. unfold dict_keys. rewrite map_app, in_app_iff. simpl.
      intros [H | [H | []]].
      - revert H. apply Hfresh. now right.
      - subst t'. contradiction. }
    exists ((t, nd) :: new). rewrite E, <- app_assoc. simpl.
    repeat split.
    + now rewrite K.
    + unfold node_table at 1. simpl. now rewrite Hn, Hc, T.
    + constructor; trivial.
    + intros ->. unfold place_node in Ep. simpl in Ep.
      injection Ep as <- <- <-. unfold positions in *. simpl.
      unfold node_pos at 1. simpl. rewrite Hx, Hy. f_equal. now apply P.
Qed.

End BuildNodes.

(** ** Building the edges *)

Lemma build_edges_appends (nds : dict TableNode.t) (fk_list : list foreign_key) :
  forall (c : canvas) (es : list edge),
  exists new,
    snd (build_edges nds fk_list c es) = es ++ new
    /\ map e_fk new = filter (fk_drawable nds) fk_list
    /\ Forall edge_of_fk new.
Proof.
  induction fk_list as [ | fk rest IH ]; intros c es.
  - exists []. simpl. now rewrite app_nil_r.
  - simpl. unfold fk_drawable at 1, dict_mem.
    destruct (dict_get nds (fk_table fk)) as [na | ].
    + destruct (dict_get nds (fk_ref_table fk)) as [nb | ]; simpl.
      * match goal with
        | |- context [ build_edges nds rest ?c' (es ++ [?e]) ] =>
            destruct (IH c' (es ++ [e])) as (new & E & F & W);
            exists (e :: new)
        end.
        rewrite E, <- app_assoc. simpl. repeat split.
        -- now rewrite F.
        -- constructor; [ now split | assumption ].
      * apply IH.
    + simpl. apply IH.
Qed.

Lemma filter_no_nodes (fk_list : list foreign_key) :
  filter (fk_drawable []) fk_list = [].
Proof. induction fk_list; simpl; trivial. Qed.

Lemma show_nodes (v : viewport) (schema : dict (list string))
    (gv_positions : dict (R * R)) (fk_list : list foreign_key) :
  nodes (_show_interactive_eer v schema gv_positions fk_list)
  = match schema with
    | [] => []
    | _ :: _ =>
        snd (build_nodes schema gv_positions
               (cols_grid (Z.of_nat (List.length (dict_keys schema))))
               (dict_keys schema) 0 [] [])
    end.
Proof.
  unfold _show_interactive_eer. destruct schema as [ | entry rest ]; trivial.
  cbv zeta. change (dict_keys (entry :: rest)) with (fst entry :: dict_keys rest).
  cbv iota beta.
  destruct (build_nodes _ _ _ _ _ _ _) as [c1 nds].
  destruct (build_edges _ _ _ _) as [c2 es]. reflexivity.
Qed.

Lemma show_edges (v : viewport) (schema : dict (list string))
    (gv_positions : dict (R * R)) (fk_list : list foreign_key) :
  let d := _show_interactive_eer v schema gv_positions fk_list in
  map e_fk (edges d) = filter (fk_drawable (nodes d)) fk_list
  /\ Forall edge_of_fk (edges d).
Proof.
  unfold _show_interactive_eer. destruct schema as [ | entry rest ].
  - simpl. now rewrite filter_no_nodes.
  - cbv zeta. change (dict_keys (entry :: rest)) with (fst entry :: dict_keys rest).
    cbv iota beta.
    destruct (build_nodes _ _ _ _ _ _ _) as [c1 nds].
    destruct (build_edges_appends nds fk_list c1 []) as (new & E & F & W).
    destruct (build_edges nds fk_list c1 []) as [c2 es]. simpl in *.
    subst es. now split.
Qed.

Lemma show_nodes_built (v : viewport) (schema : dict (list string))
    (gv_positions : dict (R * R)) (fk_list : list foreign_key) :
  NoDup (dict_keys schema) ->
  let nds := nodes (_show_interactive_eer v schema gv_positions fk_list) in
  dict_keys nds = dict_keys schema
  /\ map node_table nds = schema
  /\ (gv_positions = [] ->
      positions nds
      = grid_cells (cols_grid (dict_len schema)) 0 (List.length schema))
  /\ Forall (fun p => TableNode.width (snd p) = TableNode.BOX_WIDTH) nds.
Proof.
  intros Hnd. rewrite show_nodes. destruct schema as [ | entry rest ].
  - simpl. repeat split; trivial.
  - destruct (build_nodes_appends (entry :: rest) gv_positions
                (cols_grid (Z.of_nat (List.length (dict_keys (entry :: rest)))))
                (dict_keys (entry :: rest)) 0 [] [] Hnd)
      as (new & E & K & T & W & P); [ intros t _ [] | ].
    rewrite E. simpl app. repeat split; trivial.
    + rewrite T. unfold dict_keys. rewrite map_map.
      rewrite <- (map_id (entry :: rest)) at 2. apply map_ext_in.
      intros [t cs] Hin. simpl. unfold schema_cols.
      now rewrite (dict_get_entry _ _ _ Hnd Hin).
    + intros Hgv. rewrite (P Hgv). unfold dict_len, dict_keys.
      now rewrite length_map.
Qed.

(** C1.  Over a schema snapshot (a dict, so its table names are
    distinct) and any list of foreign keys, the window builds one node
    per table, in the order of the snapshot, each holding the name and
    the columns of its table, so as many nodes as tables; it builds
    one edge per foreign key whose two tables are both among the nodes,
    in the order of the list, and none for the others; and the nodes
    are the same whatever the foreign keys are. *)
Theorem build_one_node_per_table_one_edge_per_fk
    (v : viewport) (schema : dict (list string))
    (gv_positions : dict (R * R)) (fk_list : list foreign_key) :
  NoDup (dict_keys schema) ->
  let d := _show_interactive_eer v schema gv_positions fk_list in
  dict_keys (nodes d) = dict_keys schema
  /\ map node_table (nodes d) = schema
  /\ List.length (nodes d) = List.length schema
  /\ map e_fk (edges d) = filter (fk_drawable (nodes d)) fk_list
  /\ Forall edge_of_fk (edges d)
  /\ (forall fk, In fk (map e_fk (edges d)) <->
                 In fk fk_list
                 /\ In (fk_table fk) (dict_keys schema)
                 /\ In (fk_ref_table fk) (dict_keys schema))
  /\ nodes d = nodes (_show_interactive_eer v schema gv_positions []).
Proof.
  intros Hnd d.
  destruct (show_nodes_built v schema gv_positions fk_list Hnd) as (K & T & _ & _).
  destruct (show_edges v schema gv_positions fk_list) as (F & W).
  fold d in K, T, F, W.
  repeat split; trivial.
  - rewrite <- (length_map node_table (nodes d)). now rewrite T.
  - rewrite F in H. apply filter_In in H. tauto.
  - rewrite F in H. apply filter_In in H. destruct H as [_ H].
    apply andb_prop in H. rewrite <- K. apply dict_mem_in, H.
  - rewrite F in H. apply filter_In in H. destruct H as [_ H].
    apply andb_prop in H. rewrite <- K. apply dict_mem_in, H.
  - intros (Hin & Ha & Hb). rewrite F. apply filter_In. split; trivial.
    unfold fk_drawable. rewrite <- K in Ha, Hb.
    apply dict_mem_in in Ha, Hb. now rewrite Ha, Hb.
  - unfold d. now rewrite !show_nodes.
Qed.

(** ** The column count of the grid *)

Lemma py_int_floor (r : R) (z : Z) :
  (IZR z <= r < IZR z + 1)%R -> (0 <= z)%Z -> py_int r = z.
Proof.
  intros [H1 H2] Hz. unfold py_int.
  assert (0 <= IZR z)%R by (apply IZR_le; lia).
  destruct (Rle_dec 0 r) as [ _ | Hn ]; [ | lra ].
  symmetry. apply Int_part_spec. lra.
Qed.

(** [int(count ** 0.5 + 0.5)] rounds the square root to the nearest
    integer. *)
Lemma cols_grid_nearest (n : Z) : cols_grid n = Z.max 1 (nearest_sqrt n).
Proof.
  unfold cols_grid. f_equal. unfold nearest_sqrt.
  destruct (Z_le_gt_dec n 0) as [Hn | Hn].
  - assert (Hs : Z.sqrt n = 0%Z).
    { destruct (Z.eq_dec n 0) as [-> | ]; [ reflexivity | apply Z.sqrt_neg; lia ]. }
    rewrite Hs. simpl.
    replace (0 <? n)%Z with false by (symmetry; apply Z.ltb_ge; lia).
    assert (Hr : sqrt (IZR n) = 0%R).
    { apply sqrt_neg_0. apply (IZR_le n 0). exact Hn. }
    rewrite Hr. apply py_int_floor; [ simpl; lra | lia ].
  - pose proof (Z.sqrt_spec n ltac:(lia)) as [Hlo Hhi].
    pose proof (Z.sqrt_nonneg n) as Hs0.
    pose proof (Z.sqrt_nonneg n) as HsZ.
    set (s := Z.sqrt n) in *.
    pose proof (sqrt_pos (IZR n)) as Hr0.
    assert (Hsq : (sqrt (IZR n) * sqrt (IZR n) = IZR n)%R).
    { apply sqrt_sqrt. apply (IZR_le 0 n). lia. }
    set (r := sqrt (IZR n)) in *.
    apply IZR_le in Hlo. apply IZR_lt in Hhi. apply IZR_le in Hs0.
    unfold Z.succ in Hhi. rewrite mult_IZR in Hlo. rewrite mult_IZR, plus_IZR in Hhi.
    assert (Hmono : forall a : R, (0 <= a)%R -> (a * a <= IZR n)%R -> (a <= r)%R).
    { intros a Ha Haa. destruct (Rle_dec a r) as [ | Hgt ]; trivial.
      exfalso. assert (r < a)%R by lra. assert (r * r < a * a)%R by nra. lra. }
    assert (Hanti : forall a : R, (0 <= a)%R -> (IZR n < a * a)%R -> (r < a)%R).
    { intros a Ha Haa. destruct (Rlt_dec r a) as [ | Hge ]; trivial.
      exfalso. assert (a <= r)%R by lra. assert (a * a <= r * r)%R by nra. lra. }
    destruct (s * s + s <? n)%Z eqn:E.
    + apply Z.ltb_lt in E. apply py_int_floor; [ | lia ].
      assert (H : (IZR (s * s + s + 1) <= IZR n)%R) by (apply IZR_le; lia).
      rewrite !plus_IZR, mult_IZR in H. rewrite plus_IZR. split.
      * assert (IZR s + 0.5 <= r)%R by (apply Hmono; nra). lra.
      * assert (r < IZR s + 1)%R by (apply Hanti; nra). lra.
    + apply Z.ltb_ge in E. apply py_int_floor; [ | lia ].
      apply IZR_le in E. rewrite plus_IZR, mult_IZR in E. split.
      * assert (IZR s <= r)%R by (apply Hmono; nra). lra.
      * assert (r < IZR s + 0.5)%R by (apply Hanti; nra). lra.
Qed.

(** ** The grid layout *)

Section GridLayout.

Variable ncols : Z.

(** The loop keeps the keys and the tables and puts the node of index
    [j] on the grid cell [j]. *)
Lemma layout_grid_nodes (nds : dict TableNode.t) :
  forall (i : Z) (c : canvas),
  let r := fst (layout_grid ncols i nds c) in
  dict_keys r = dict_keys nds
  /\ map node_table r = map node_table nds
  /\ positions r = grid_cells ncols i (List.length nds).
Proof.
  induction nds as [ | [tname nd] rest IH ]; intros i c; simpl.
  - repeat split.
  - specialize (IH (i + 1)%Z
                   (canvas_move c (TableNode.tag nd)
                      (IZR (grid_x ncols i) - TableNode.x nd)
                      (IZR (grid_y ncols i) - TableNode.y nd))).
    destruct (layout_grid ncols (i + 1) rest _) as [rest' c2].
    simpl in *. destruct IH as (K & T & P). repeat split.
    + now rewrite K.
    + now rewrite T.
    + rewrite P. f_equal. unfold node_pos. simpl. f_equal; lra.
Qed.

End GridLayout.

Lemma dict_len_zero {V : Type} (d : dict V) : dict_len d = 0%Z -> d = [].
Proof. destruct d; trivial. unfold dict_len. simpl. lia. Qed.

Lemma update_edges_nodes (d : diagram) : nodes (_update_edges d) = nodes d.
Proof. reflexivity. Qed.

Lemma apply_layout_grid_nodes (d : diagram) :
  nodes (apply_layout "grid" d)
  = fst (layout_grid (cols_grid (dict_len (nodes d))) 0 (nodes d) (cv d)).
Proof.
  unfold apply_layout. destruct (dict_len (nodes d) =? 0)%Z eqn:E.
  - apply Z.eqb_eq in E. now rewrite (dict_len_zero _ E).
  - simpl String.eqb. cbv iota. rewrite update_edges_nodes.
    destruct (layout_grid _ _ _ _) as [nds c]. reflexivity.
Qed.

Lemma apply_layout_grid_positions (d : diagram) :
  dict_keys (nodes (apply_layout "grid" d)) = dict_keys (nodes d)
  /\ map node_table (nodes (apply_layout "grid" d)) = map node_table (nodes d)
  /\ positions (nodes (apply_layout "grid" d))
     = grid_cells (cols_grid (dict_len (nodes d))) 0 (List.length (nodes d)).
Proof. rewrite apply_layout_grid_nodes. apply layout_grid_nodes. Qed.

Lemma dict_keys_length {V : Type} (d : dict V) :
  List.length (dict_keys d) = List.length d.
Proof. apply length_map. Qed.

Lemma nodup_users_orders : NoDup (dict_keys users_orders).
Proof.
  simpl. repeat constructor; simpl; intuition discriminate.
Qed.

Lemma users_orders_keys :
  dict_keys (nodes users_orders_diagram) = ["users"; "orders"].
Proof.
  apply (show_nodes_built window0 users_orders [] [fk_orders_users]
           nodup_users_orders).
Qed.

(** With two tables the grid has one column: [users] is on the first
    row and [orders] below it. *)
Lemma users_orders_grid :
  positions (nodes (apply_layout "grid" users_orders_diagram))
  = [ (80, 80); (80, 300) ]%R.
Proof.
  destruct (apply_layout_grid_positions users_orders_diagram) as (_ & _ & P).
  rewrite P. unfold dict_len.
  rewrite <- (dict_keys_length (nodes users_orders_diagram)), users_orders_keys.
  rewrite cols_grid_nearest. reflexivity.
Qed.

(** C2, counterexample.  For the schema [users], [orders] the grid
    layout uses one column where [ceil(sqrt(2))] is two, and puts
    [orders] under [users], on row 1 and column 0, not beside it. *)
Lemma grid_two_tables_not_side_by_side :
  spec_cols_grid 2 = 2%Z
  /\ cols_grid 2 = 1%Z
  /\ positions (nodes (apply_layout "grid" users_orders_diagram))
     = [ (IZR (80 + 0 * 320), IZR (80 + 0 * 220));
         (IZR (80 + 0 * 320), IZR (80 + 1 * 220)) ]
  /\ positions (nodes (apply_layout "grid" users_orders_diagram))
     <> grid_cells (spec_cols_grid 2) 0 2.
Proof.
  split; [ reflexivity | ].
  split; [ rewrite cols_grid_nearest; reflexivity | ].
  rewrite users_orders_grid. split; [ reflexivity | ].
  intros H. apply (f_equal (fun l => fst (nth 1 l (0, 0)%R))) in H.
  change (IZR 80 = IZR 400) in H. apply eq_IZR in H. discriminate H.
Qed.

(** The schema [users], [orders] with a foreign key to [archived_logs],
    which is not in the schema: two nodes and no edge. *)
Lemma build_drops_fk_to_absent_table :
  NoDup (dict_keys users_orders)
  /\ List.length (nodes (_show_interactive_eer window0 users_orders [] [fk_archived]))
     = 2%nat
  /\ edges (_show_interactive_eer window0 users_orders [] [fk_archived]) = [].
Proof.
  split; [ exact nodup_users_orders | ].
  destruct (build_one_node_per_table_one_edge_per_fk window0 users_orders []
              [fk_archived] nodup_users_orders) as (_ & _ & L & _ & _ & I & _).
  split; [ exact L | ].
  destruct (edges _) as [ | e rest ]; trivial.
  exfalso. destruct (proj1 (I (e_fk e)) (or_introl eq_refl)) as ([H | []] & _ & A).
  rewrite <- H in A. simpl in A. intuition discriminate.
Defined.

(** ** The radial layout *)

Lemma layout_radial_nodes (cx cy : R) (radius total : Z) (nds : dict TableNode.t) :
  forall (i : Z) (c : canvas),
  let r := fst (layout_radial cx cy radius total i nds c) in
  dict_keys r = dict_keys nds
  /\ map node_table r = map node_table nds.
Proof.
  induction nds as [ | [tname nd] rest IH ]; intros i c; simpl.
  - repeat split.
  - match goal with
    | |- context [ layout_radial cx cy radius total (i + 1) rest ?c1 ] =>
        specialize (IH (i + 1)%Z c1);
        destruct (layout_radial cx cy radius total (i + 1) rest c1) as [rest' c2]
    end.
    simpl in *. destruct IH as (K & T). repeat split.
    + now rewrite K.
    + now rewrite T.
Qed.

Lemma show_view (v : viewport) (schema : dict (list string))
    (gv_positions : dict (R * R)) (fk_list : list foreign_key) :
  let d := _show_interactive_eer v schema gv_positions fk_list in
  view d = v /\ current_scale d = 1%R.
Proof.
  unfold _show_interactive_eer. destruct (dict_keys schema); [ now split | ].
  cbv zeta. destruct (build_nodes _ _ _ _ _ _ _) as [c1 nds].
  destruct (build_edges _ _ _ _) as [c2 es]. now split.
Qed.

(** ** Layout kinds *)






(** ** Zoom *)

Lemma wheel_new_scale_in_range (s : R) (delta : Z) :
  in_zoom_range (wheel_new_scale s delta).
Proof.
  unfold in_zoom_range, wheel_new_scale. split.
  - apply Rmax_l.
  - apply Rmax_lub; [ lra | apply Rmin_l ].
Qed.


(** The trace has nothing to do when the variable is set to the
    current scale. *)
Lemma set_zoom_current (d : diagram) (val : R) :
  val = current_scale d -> set_zoom val d = d.
Proof.
  intros ->. unfold set_zoom.
  destruct (Rle_dec (current_scale d) 0); trivial.
  destruct (Rlt_dec (Rabs (current_scale d - current_scale d)) 1e-6) as [ | H ];
    trivial.
  exfalso. apply H. rewrite Rminus_diag, Rabs_R0. lra.
Qed.

Lemma wheel_zoom_unfold (e : wheel_event) (d : diagram) :
  wheel_zoom e d
  = if wheel_active e d then
      let new_scale := wheel_new_scale (current_scale d) (wheel_delta e) in
      with_zoom_var
        (_apply_scale_at (with_scale d new_scale)
           (canvasx (view d) (ev_x e)) (canvasy (view d) (ev_y e))
           (new_scale / current_scale d))
        new_scale
    else d.
Proof.
  unfold wheel_zoom, wheel_active.
  destruct (Z.land (ev_state e) 4 =? 0)%Z; simpl; trivial.
  destruct (wheel_delta e =? 0)%Z; simpl; trivial.
  destruct (Req_dec_T (current_scale d) 0); trivial.
  unfold zoom_var_set. now rewrite set_zoom_current.
Qed.

Lemma wheel_zoom_scale (e : wheel_event) (d : diagram) :
  current_scale (wheel_zoom e d)
  = if wheel_active e d
    then wheel_new_scale (current_scale d) (wheel_delta e)
    else current_scale d.
Proof. rewrite wheel_zoom_unfold. now destruct (wheel_active e d). Qed.

(** [set_zoom] takes the requested scale as it is, or does nothing. *)
Lemma set_zoom_scale (val : R) (d : diagram) :
  current_scale (set_zoom val d)
  = if Rle_dec val 0 then current_scale d
    else if Rlt_dec (Rabs (val - current_scale d)) 1e-6 then current_scale d
    else if Req_dec_T (current_scale d) 0 then current_scale d
    else val.
Proof.
  unfold set_zoom. destruct (Rle_dec val 0); trivial.
  destruct (Rlt_dec _ _); trivial.
  now destruct (Req_dec_T _ _).
Qed.

Lemma zoom_step_in_range (d : diagram) (q : zoom_request) :
  in_zoom_range (current_scale d) ->
  slider_in_range q ->
  in_zoom_range (current_scale (zoom_step d q)).
Proof.
  intros Hd Hq. destruct q as [e | val]; simpl.
  - rewrite wheel_zoom_scale. destruct (wheel_active e d); trivial.
    apply wheel_new_scale_in_range.
  - unfold zoom_var_set. rewrite set_zoom_scale. simpl in *.
    destruct (Rle_dec val 0); trivial.
    destruct (Rlt_dec _ _); trivial.
    destruct (Req_dec_T _ _); trivial.
    unfold in_zoom_range. lra.
Qed.

Lemma users_orders_scale : current_scale users_orders_diagram = 1%R.
Proof. apply (show_view window0 users_orders [] [fk_orders_users]). Qed.

Lemma zoom_run_in_range (qs : list zoom_request) :
  forall d : diagram,
  in_zoom_range (current_scale d) ->
  Forall slider_in_range qs ->
  in_zoom_range (current_scale (zoom_run qs d)).
Proof.
  induction qs as [ | q qs IH ]; intros d Hd Hqs; trivial.
  apply Forall_cons_iff in Hqs. destruct Hqs as [Hq Hqs].
  simpl. apply IH; trivial. now apply zoom_step_in_range.
Qed.

(** C3, counterexample.  The slider handler [set_zoom] does not clamp:
    asked for the scale [0.1], below the lower bound, it sets [0.1],
    and asked for [5] it sets [5]. *)
Lemma set_zoom_does_not_clamp :
  current_scale (set_zoom 0.1 users_orders_diagram) = 0.1%R
  /\ ~ in_zoom_range (current_scale (set_zoom 0.1 users_orders_diagram))
  /\ current_scale (set_zoom 5 users_orders_diagram) = 5%R
  /\ ~ in_zoom_range (current_scale (set_zoom 5 users_orders_diagram)).
Proof.
  pose proof users_orders_scale as H1.
  assert (A : current_scale (set_zoom 0.1 users_orders_diagram) = 0.1%R).
  { rewrite set_zoom_scale, H1.
    destruct (Rle_dec 0.1 0) as [H | _]; [ lra | ].
    destruct (Rlt_dec (Rabs (0.1 - 1)) 1e-6) as [H | _];
      [ rewrite Rabs_left in H; lra | ].
    destruct (Req_dec_T 1 0) as [H | _]; [ lra | trivial ]. }
  assert (B : current_scale (set_zoom 5 users_orders_diagram) = 5%R).
  { rewrite set_zoom_scale, H1.
    destruct (Rle_dec 5 0) as [H | _]; [ lra | ].
    destruct (Rlt_dec (Rabs (5 - 1)) 1e-6) as [H | _];
      [ rewrite Rabs_right in H; lra | ].
    destruct (Req_dec_T 1 0) as [H | _]; [ lra | trivial ]. }
  rewrite A, B. unfold in_zoom_range. repeat split; lra.
Qed.

(** C3, as amended.  A wheel zoom sets the scale to
    [max(0.2, min(3.0, scale * step))], so into [0.2, 3.0], the lower
    bound for a product below it and the upper bound for one above.
    The slider handler does not clamp: it ignores a value that is not
    positive or is within [1e-6] of the scale, and otherwise takes the
    value as the scale.  The slider only produces values from [0.4] to
    [2.4], so from a scale in [0.2, 3.0] every sequence of wheel and
    slider requests leaves the scale in [0.2, 3.0]. *)
Theorem zoom_scale_stays_in_range (qs : list zoom_request) (d : diagram) :
  in_zoom_range (current_scale d) ->
  Forall slider_in_range qs ->
  in_zoom_range (current_scale (zoom_run qs d))
  /\ (forall (e : wheel_event) (d0 : diagram),
        current_scale (wheel_zoom e d0)
        = if wheel_active e d0
          then Rmax 0.2 (Rmin 3.0
                 (current_scale d0
                  * (if (wheel_delta e >? 0)%Z then 1.1 else 1 / 1.1)))
          else current_scale d0)
  /\ (forall (s : R) (delta : Z), in_zoom_range (wheel_new_scale s delta))
  /\ (forall (val : R) (d0 : diagram),
        current_scale (set_zoom val d0)
        = if Rle_dec val 0 then current_scale d0
          else if Rlt_dec (Rabs (val - current_scale d0)) 1e-6
               then current_scale d0
               else if Req_dec_T (current_scale d0) 0
                    then current_scale d0
                    else val).
Proof.
  intros Hd Hqs. split; [ now apply zoom_run_in_range | ].
  split; [ intros e d0; apply wheel_zoom_scale | ].
  split; [ apply wheel_new_scale_in_range | ].
  intros val d0. apply set_zoom_scale.
Qed.

(** A notch down, the slider at its upper end, a notch up, the slider
    at its lower end: the scale of the diagram is within the bounds. *)
Lemma zoom_scale_stays_in_range_users_orders :
  in_zoom_range (current_scale users_orders_diagram)
  /\ Forall slider_in_range
       [Wheel ctrl_wheel_down; Slider 2.4; Wheel ctrl_wheel_up; Slider 0.4]
  /\ in_zoom_range
       (current_scale
          (zoom_run [Wheel ctrl_wheel_down; Slider 2.4; Wheel ctrl_wheel_up; Slider 0.4]
             users_orders_diagram)).
Proof.
  assert (H1 : in_zoom_range (current_scale users_orders_diagram)).
  { rewrite users_orders_scale. unfold in_zoom_range. lra. }
  assert (H2 : Forall slider_in_range
                 [Wheel ctrl_wheel_down; Slider 2.4; Wheel ctrl_wheel_up; Slider 0.4]).
  { repeat constructor; simpl; lra. }
  split; [ exact H1 | ]. split; [ exact H2 | ].
  apply (zoom_scale_stays_in_range _ users_orders_diagram H1 H2).
Defined.

(** ** Items keep their kind, tag and text *)

Lemma canvas_item_shape (c : canvas) (id : nat) :
  shape_item (canvas_shape c) id = option_map item_shape (canvas_item c id).
Proof.
  destruct id as [ | n ]; trivial. simpl. unfold canvas_shape.
  apply nth_error_map.
Qed.

Lemma canvas_move_shape (c : canvas) (tg : item_tag) (dx dy : R) :
  canvas_shape (canvas_move c tg dx dy) = canvas_shape c.
Proof.
  unfold canvas_shape, canvas_move. rewrite map_map. apply map_ext.
  intros it. now destruct (item_tag_eqb (itag it) tg).
Qed.

Lemma canvas_scale_all_shape (c : canvas) (ox oy fx fy : R) :
  canvas_shape (canvas_scale_all c ox oy fx fy) = canvas_shape c.
Proof.
  unfold canvas_shape, canvas_scale_all. rewrite map_map. now apply map_ext.
Qed.

Lemma canvas_coords_shape (c : canvas) :
  forall (id : nat) (cs : list R),
  canvas_shape (canvas_coords c id cs) = canvas_shape c.
Proof.
  induction c as [ | it rest IH ]; intros id cs; simpl; trivial.
  destruct id as [ | [ | n ] ]; simpl; trivial.
  f_equal. apply (IH (S n)).
Qed.

Lemma canvas_coords_same (c : canvas) :
  forall (id : nat) (cs : list R) (it : item),
  canvas_item c id = Some it ->
  canvas_item (canvas_coords c id cs) id = Some (set_coords it cs).
Proof.
  induction c as [ | it0 rest IH ]; intros id cs it.
  - destruct id as [ | [ | n ] ]; discriminate.
  - destruct id as [ | [ | n ] ]; simpl; try discriminate.
    + now intros [= ->].
    + intros H. apply (IH (S n) cs it H).
Qed.

Lemma canvas_coords_other (c : canvas) :
  forall (id id' : nat) (cs : list R),
  id <> id' ->
  canvas_item (canvas_coords c id cs) id' = canvas_item c id'.
Proof.
  induction c as [ | it0 rest IH ]; intros id id' cs Hne.
  - now destruct id.
  - destruct id as [ | [ | n ] ]; simpl; trivial.
    + destruct id' as [ | [ | n' ] ]; simpl; trivial. congruence.
    + destruct id' as [ | [ | n' ] ]; simpl; trivial.
      apply (IH (S n) (S n') cs). congruence.
Qed.

Lemma update_edges_loop_shape (nds : dict TableNode.t) (es : list edge) :
  forall c : canvas,
  canvas_shape (update_edges_loop nds es c) = canvas_shape c.
Proof.
  induction es as [ | e rest IH ]; intros c; simpl; trivial.
  destruct (dict_get nds (e_from e)); trivial.
  destruct (dict_get nds (e_to e)); trivial.
  now rewrite IH, !canvas_coords_shape.
Qed.

(** The loop leaves alone the items that belong to none of its edges. *)
Lemma update_edges_loop_frame (nds : dict TableNode.t) (es : list edge) :
  forall (c : canvas) (id : nat),
  ~ In id (edge_ids es) ->
  canvas_item (update_edges_loop nds es c) id = canvas_item c id.
Proof.
  induction es as [ | e rest IH ]; intros c id Hid; simpl; trivial.
  simpl in Hid.
  destruct (dict_get nds (e_from e)); trivial.
  destruct (dict_get nds (e_to e)); trivial.
  rewrite IH by tauto.
  rewrite !canvas_coords_other; trivial; intros E; apply Hid; auto.
Qed.

Lemma in_keys_get {V : Type} (d : dict V) (k : string) :
  In k (dict_keys d) -> exists v, dict_get d k = Some v.
Proof.
  intros H. destruct (dict_get d k) as [v | ] eqn:E; [ now exists v | ].
  apply dict_get_none in E. contradiction.
Qed.

(** After the loop every edge is drawn where its two nodes are. *)
Lemma update_edges_loop_draws (nds : dict TableNode.t) (es : list edge) :
  forall c : canvas,
  Forall (edge_ends_in nds) es ->
  Forall (edge_items_ok (canvas_shape c)) es ->
  NoDup (edge_ids es) ->
  Forall (edge_drawn nds (update_edges_loop nds es c)) es.
Proof.
  induction es as [ | e rest IH ]; intros c Hends Hitems Hids; [ constructor | ].
  apply Forall_cons_iff in Hends. destruct Hends as [[Hfrom Hto] Hends].
  apply Forall_cons_iff in Hitems. destruct Hitems as [[Hline Hlabel] Hitems].
  simpl in Hids. apply NoDup_cons_iff in Hids. destruct Hids as [Hl Hids].
  apply NoDup_cons_iff in Hids. destruct Hids as [Hb Hids].
  destruct (in_keys_get _ _ Hfrom) as [na Ena].
  destruct (in_keys_get _ _ Hto) as [nb Enb].
  simpl. rewrite Ena, Enb.
  set (c1 := canvas_coords c (e_line e) (line_coords na nb)).
  set (c2 := canvas_coords c1 (e_label e) (label_coords na nb)).
  constructor.
  - exists na, nb. repeat split; trivial.
    + rewrite update_edges_loop_frame by (intros H; apply Hl; now right).
      unfold c2. rewrite canvas_coords_other by (intros E; apply Hl; now left).
      rewrite canvas_item_shape in Hline.
      destruct (canvas_item c (e_line e)) as [it | ] eqn:Eit; [ | discriminate ].
      unfold c1. rewrite (canvas_coords_same _ _ _ _ Eit).
      destruct it; simpl in Hline. injection Hline as -> -> ->. reflexivity.
    + rewrite update_edges_loop_frame by exact Hb.
      assert (Hlab : shape_item (canvas_shape c1) (e_label e)
                     = Some (Text, FkLabel, fk_label_text (e_fk e))).
      { unfold c1. now rewrite canvas_coords_shape. }
      rewrite canvas_item_shape in Hlab.
      destruct (canvas_item c1 (e_label e)) as [it | ] eqn:Eit; [ | discriminate ].
      unfold c2. rewrite (canvas_coords_same _ _ _ _ Eit).
      destruct it; simpl in Hlab. injection Hlab as -> -> ->. reflexivity.
  - apply IH; trivial.
    unfold c2, c1. now rewrite !canvas_coords_shape.
Qed.

(** ** The invariant of the window *)

Lemma same_frame_refl (d : diagram) : same_frame d d.
Proof. now repeat split. Qed.

Lemma same_frame_trans (d1 d2 d3 : diagram) :
  same_frame d1 d2 -> same_frame d2 d3 -> same_frame d1 d3.
Proof.
  intros (E1 & K1 & S1) (E2 & K2 & S2). repeat split; congruence.
Qed.

Lemma well_formed_same_frame (d d' : diagram) :
  well_formed d -> same_frame d d' -> well_formed d'.
Proof.
  intros [He Hi Hn Hf] (E & K & S). split; rewrite E.
  - unfold edge_ends_in in *. now rewrite K.
  - now rewrite S.
  - exact Hn.
  - exact Hf.
Qed.

Lemma update_edges_frame (d : diagram) : same_frame d (_update_edges d).
Proof.
  repeat split. simpl. apply update_edges_loop_shape.
Qed.

Lemma layout_grid_shape (ncols : Z) (nds : dict TableNode.t) :
  forall (i : Z) (c : canvas),
  canvas_shape (snd (layout_grid ncols i nds c)) = canvas_shape c.
Proof.
  induction nds as [ | [tname nd] rest IH ]; intros i c; simpl; trivial.
  match goal with
  | |- context [ layout_grid ncols (i + 1) rest ?c1 ] =>
      specialize (IH (i + 1)%Z c1);
      destruct (layout_grid ncols (i + 1) rest c1) as [rest' c2]
  end.
  simpl in *. now rewrite IH, canvas_move_shape.
Qed.

Lemma layout_radial_shape (cx cy : R) (radius total : Z) (nds : dict TableNode.t) :
  forall (i : Z) (c : canvas),
  canvas_shape (snd (layout_radial cx cy radius total i nds c)) = canvas_shape c.
Proof.
  induction nds as [ | [tname nd] rest IH ]; intros i c; simpl; trivial.
  match goal with
  | |- context [ layout_radial cx cy radius total (i + 1) rest ?c1 ] =>
      specialize (IH (i + 1)%Z c1);
      destruct (layout_radial cx cy radius total (i + 1) rest c1) as [rest' c2]
  end.
  simpl in *. now rewrite IH, canvas_move_shape.
Qed.

(** A layout on a diagram that has nodes amounts to [_update_edges]
    on a diagram with the same edges, node names and items. *)
Lemma apply_layout_redraw (mode : string) (d : diagram) :
  dict_len (nodes d) <> 0%Z ->
  exists d1, same_frame d d1 /\ apply_layout mode d = _update_edges d1.
Proof.
  intros Hn. apply Z.eqb_neq in Hn. unfold apply_layout. rewrite Hn.
  destruct (String.eqb mode "grid").
  - pose proof (layout_grid_nodes (cols_grid (dict_len (nodes d))) (nodes d) 0 (cv d))
      as (K & _).
    pose proof (layout_grid_shape (cols_grid (dict_len (nodes d))) (nodes d) 0 (cv d))
      as S.
    destruct (layout_grid _ _ _ _) as [nds c]. simpl in K, S.
    exists (with_nodes d nds c). now repeat split.
  - destruct (String.eqb mode "radial").
    + match goal with
      | |- context [ layout_radial ?cx ?cy ?r ?t 0 (nodes d) (cv d) ] =>
          pose proof (layout_radial_nodes cx cy r t (nodes d) 0 (cv d)) as (K & _);
          pose proof (layout_radial_shape cx cy r t (nodes d) 0 (cv d)) as S;
          destruct (layout_radial cx cy r t 0 (nodes d) (cv d)) as [nds c]
      end.
      simpl in K, S. exists (with_nodes d nds c). now repeat split.
    + exists d. split; [ apply same_frame_refl | reflexivity ].
Qed.

Lemma dict_get_in_keys {V : Type} (d : dict V) (k : string) (v : V) :
  dict_get d k = Some v -> In k (dict_keys d).
Proof.
  intros H. apply dict_get_some_in in H. unfold dict_keys.
  change k with (fst (k, v)). now apply in_map.
Qed.

(** Dragging a node amounts to [_update_edges] on such a diagram too. *)
Lemma drag_node_redraw (tname : string) (ex ey : Z) (d : diagram) :
  exists d1, same_frame d d1 /\ drag_node tname ex ey d = _update_edges d1.
Proof.
  unfold drag_node. destruct (dict_get (nodes d) tname) as [nd | ] eqn:E.
  - assert (S : canvas_shape (snd (TableNode.on_drag nd ex ey (cv d)))
                = canvas_shape (cv d)).
    { unfold TableNode.on_drag. destruct (TableNode.drag_start nd) as [[sx sy] | ];
        trivial. simpl. apply canvas_move_shape. }
    destruct (TableNode.on_drag nd ex ey (cv d)) as [nd' c]. simpl in S.
    exists (with_nodes d (dict_set (nodes d) tname nd') c).
    split; trivial. repeat split; trivial. simpl.
    apply dict_set_keys. now apply dict_get_in_keys with nd.
  - exists d. split; [ apply same_frame_refl | reflexivity ].
Qed.

Lemma press_node_frame (tname : string) (ex ey : Z) (d : diagram) :
  same_frame d (press_node tname ex ey d).
Proof.
  unfold press_node. destruct (dict_get (nodes d) tname) as [nd | ] eqn:E.
  - repeat split. simpl. apply dict_set_keys. now apply dict_get_in_keys with nd.
  - apply same_frame_refl.
Qed.

Lemma set_zoom_frame (val : R) (d : diagram) : same_frame d (set_zoom val d).
Proof.
  unfold set_zoom. destruct (Rle_dec val 0); [ apply same_frame_refl | ].
  destruct (Rlt_dec _ _); [ apply same_frame_refl | ].
  destruct (Req_dec_T _ _); [ apply same_frame_refl | ].
  repeat split. simpl. apply canvas_scale_all_shape.
Qed.

Lemma zoom_var_set_frame (val : R) (d : diagram) : same_frame d (zoom_var_set val d).
Proof.
  unfold zoom_var_set.
  apply same_frame_trans with (with_zoom_var d val);
    [ now repeat split | apply set_zoom_frame ].
Qed.

Lemma wheel_zoom_frame (e : wheel_event) (d : diagram) :
  same_frame d (wheel_zoom e d).
Proof.
  rewrite wheel_zoom_unfold. destruct (wheel_active e d); [ | apply same_frame_refl ].
  repeat split. simpl. apply canvas_scale_all_shape.
Qed.

Lemma apply_layout_frame (mode : string) (d : diagram) :
  same_frame d (apply_layout mode d).
Proof.
  destruct (Z.eq_dec (dict_len (nodes d)) 0) as [E | E].
  - unfold apply_layout. apply Z.eqb_eq in E. rewrite E. apply same_frame_refl.
  - destruct (apply_layout_redraw mode d E) as (d1 & F & ->).
    apply same_frame_trans with d1; [ exact F | apply update_edges_frame ].
Qed.

Lemma drag_node_frame (tname : string) (ex ey : Z) (d : diagram) :
  same_frame d (drag_node tname ex ey d).
Proof.
  destruct (drag_node_redraw tname ex ey d) as (d1 & F & ->).
  apply same_frame_trans with d1; [ exact F | apply update_edges_frame ].
Qed.

(** ** The edges as built *)

Lemma edge_drawn_items_ok (nds : dict TableNode.t) (c : canvas) (e : edge) :
  edge_drawn nds c e -> edge_items_ok (canvas_shape c) e.
Proof.
  intros (na & nb & _ & _ & Hl & Hb). split; rewrite canvas_item_shape.
  - now rewrite Hl.
  - now rewrite Hb.
Qed.

Lemma edge_drawn_ends (nds : dict TableNode.t) (c : canvas) (e : edge) :
  edge_drawn nds c e -> edge_ends_in nds e.
Proof.
  intros (na & nb & Ha & Hb & _). split; eapply dict_get_in_keys; eassumption.
Qed.

(** The loop appends to the canvas and to the edges; the edges it adds
    are drawn, between nodes, on items of their own that are new. *)
Lemma build_edges_draws (nds : dict TableNode.t) (fk_list : list foreign_key) :
  forall (c : canvas) (es : list edge),
  exists items new,
    build_edges nds fk_list c es = (c ++ items, es ++ new)
    /\ Forall (fun id => (List.length c < id)%nat) (edge_ids new)
    /\ NoDup (edge_ids new)
    /\ Forall (edge_drawn nds (c ++ items)) new.
Proof.
  induction fk_list as [ | fk rest IH ]; intros c es.
  - exists [], []. simpl. rewrite !app_nil_r. repeat split; constructor.
  - simpl.
    destruct (dict_get nds (fk_table fk)) as [na | ] eqn:Ea; [ | apply IH ].
    destruct (dict_get nds (fk_ref_table fk)) as [nb | ] eqn:Eb; [ | apply IH ].
    set (line := mk_item Line FkLine (line_coords na nb) EmptyString).
    set (label := mk_item Text FkLabel (label_coords na nb) (fk_label_text fk)).
    set (e0 := mk_edge (S (List.length c)) (S (List.length (c ++ [line])))
                 (fk_table fk) (fk_ref_table fk) fk).
    destruct (IH ((c ++ [line]) ++ [label]) (es ++ [e0]))
      as (items & new & E & Hgt & Hnd & Hdr).
    exists (line :: label :: items), (e0 :: new).
    assert (Happ : (c ++ [line]) ++ [label] = c ++ [line; label])
      by now rewrite <- app_assoc.
    assert (Hall : ((c ++ [line]) ++ [label]) ++ items = c ++ line :: label :: items)
      by now rewrite <- !app_assoc.
    assert (Hlen : List.length ((c ++ [line]) ++ [label]) = S (S (List.length c))).
    { rewrite !length_app. simpl. lia. }
    assert (Hlen1 : List.length (c ++ [line]) = S (List.length c)).
    { rewrite length_app. simpl. lia. }
    rewrite Hlen in Hgt. rewrite Hall in E, Hdr.
    repeat split.
    + rewrite E. now rewrite <- app_assoc.
    + simpl. rewrite Hlen1. constructor; [ lia | constructor; [ lia | ] ].
      eapply Forall_impl; [ | exact Hgt ]. simpl. intros; lia.
    + simpl. rewrite Hlen1. rewrite Forall_forall in Hgt.
      constructor; [ | constructor; trivial ].
      * intros [H | H]; [ lia | ]. apply Hgt in H. lia.
      * intros H. apply Hgt in H. lia.
    + constructor; trivial.
      exists na, nb. repeat split; trivial.
      * simpl. rewrite nth_error_app2 by lia. now rewrite Nat.sub_diag.
      * simpl. rewrite Hlen1. rewrite nth_error_app2 by lia.
        now replace (S (List.length c) - List.length c)%nat with 1%nat by lia.
Qed.

Lemma show_drawn (v : viewport) (schema : dict (list string))
    (gv_positions : dict (R * R)) (fk_list : list foreign_key) :
  let d := _show_interactive_eer v schema gv_positions fk_list in
  NoDup (edge_ids (edges d))
  /\ Forall (edge_drawn (nodes d) (cv d)) (edges d).
Proof.
  unfold _show_interactive_eer. destruct (dict_keys schema) as [ | t rest ].
  - simpl. split; constructor.
  - cbv zeta. destruct (build_nodes _ _ _ _ _ _ _) as [c1 nds].
    destruct (build_edges_draws nds fk_list c1 []) as (items & new & E & _ & N & D).
    rewrite E. simpl. now split.
Qed.

Lemma show_well_formed (v : viewport) (schema : dict (list string))
    (gv_positions : dict (R * R)) (fk_list : list foreign_key) :
  well_formed (_show_interactive_eer v schema gv_positions fk_list).
Proof.
  destruct (show_drawn v schema gv_positions fk_list) as [N D].
  split; trivial.
  - eapply Forall_impl; [ | exact D ]. intros e. apply edge_drawn_ends.
  - eapply Forall_impl; [ | exact D ]. intros e. apply edge_drawn_items_ok.
  - apply show_edges.
Qed.

Lemma reachable_well_formed (d : diagram) : reachable d -> well_formed d.
Proof.
  induction 1 as [ v schema gv fks _ | mode d _ IH | t ex ey d _ IH
                 | t ex ey d _ IH | d _ IH | e d _ IH | val d _ IH | v d _ IH ].
  - apply show_well_formed.
  - apply (well_formed_same_frame d); [ exact IH | apply apply_layout_frame ].
  - apply (well_formed_same_frame d); [ exact IH | apply press_node_frame ].
  - apply (well_formed_same_frame d); [ exact IH | apply drag_node_frame ].
  - apply (well_formed_same_frame d); [ exact IH | apply update_edges_frame ].
  - apply (well_formed_same_frame d); [ exact IH | apply wheel_zoom_frame ].
  - apply (well_formed_same_frame d); [ exact IH | apply zoom_var_set_frame ].
  - apply (well_formed_same_frame d); [ exact IH | now repeat split ].
Qed.

(** [_update_edges] on a well-formed diagram draws every edge. *)
Lemma update_edges_draws (d : diagram) :
  well_formed d ->
  Forall (edge_drawn (nodes (_update_edges d)) (cv (_update_edges d)))
         (edges (_update_edges d)).
Proof.
  intros [He Hi Hn _]. simpl. now apply update_edges_loop_draws.
Qed.

Lemma redrawn_edges_drawn (d : diagram) :
  redrawn d -> Forall (edge_drawn (nodes d) (cv d)) (edges d).
Proof.
  intros [ v schema gv fks _ | mode d0 Hr | t ex ey d0 Hr | d0 Hr ].
  - apply show_drawn.
  - pose proof (reachable_well_formed d0 Hr) as W.
    destruct (Z.eq_dec (dict_len (nodes d0)) 0) as [E | E].
    + unfold apply_layout. rewrite (proj2 (Z.eqb_eq _ _) E).
      pose proof (wf_ends d0 W) as He. rewrite (dict_len_zero _ E) in *.
      destruct (edges d0) as [ | e rest ]; [ constructor | ].
      apply Forall_cons_iff in He. destruct He as [[[] _] _].
    + destruct (apply_layout_redraw mode d0 E) as (d1 & F & ->).
      apply update_edges_draws. now apply (well_formed_same_frame d0).
  - pose proof (reachable_well_formed d0 Hr) as W.
    destruct (drag_node_redraw t ex ey d0) as (d1 & F & ->).
    apply update_edges_draws. now apply (well_formed_same_frame d0).
  - apply update_edges_draws. now apply reachable_well_formed.
Qed.

(** ** The edge of the two-table schema *)

Lemma users_orders_nodes :
  exists nu no,
    nodes users_orders_diagram = [("users", nu); ("orders", no)]
    /\ node_pos nu = (80, 80)%R /\ TableNode.width nu = 220%Z
    /\ node_pos no = (80, 300)%R /\ TableNode.width no = 220%Z.
Proof.
  destruct (show_nodes_built window0 users_orders [] [fk_orders_users]
              nodup_users_orders) as (K & _ & P & W).
  specialize (P eq_refl). fold users_orders_diagram in K, P, W.
  rewrite cols_grid_nearest in P.
  destruct (nodes users_orders_diagram) as [ | [k1 n1] [ | [k2 n2] [ | ? ? ] ] ];
    try discriminate K.
  simpl in K. injection K as -> ->.
  apply Forall_cons_iff in W. destruct W as [W1 W].
  apply Forall_cons_iff in W. destruct W as [W2 _].
  injection P as X1 Y1 X2 Y2.
  exists n1, n2. unfold node_pos. rewrite X1, Y1, X2, Y2.
  repeat split; trivial.
Qed.

Lemma users_orders_edge :
  exists e,
    edges users_orders_diagram = [e]
    /\ e_fk e = fk_orders_users /\ e_from e = "orders" /\ e_to e = "users".
Proof.
  destruct (show_edges window0 users_orders [] [fk_orders_users]) as (F & W).
  fold users_orders_diagram in F, W.
  assert (D : fk_drawable (nodes users_orders_diagram) fk_orders_users = true).
  { unfold fk_drawable. apply andb_true_intro.
    split; apply dict_mem_in; rewrite users_orders_keys; simpl; auto. }
  cbn [filter] in F. rewrite D in F.
  destruct (edges users_orders_diagram) as [ | e [ | ? ? ] ]; try discriminate F.
  injection F as F. apply Forall_cons_iff in W. destruct W as [[Wf Wt] _].
  exists e. rewrite Wf, Wt, F. now repeat split.
Qed.

Lemma users_orders_drawn :
  exists e nu no,
    edges users_orders_diagram = [e]
    /\ e_fk e = fk_orders_users
    /\ dict_get (nodes users_orders_diagram) (e_from e) = Some no
    /\ dict_get (nodes users_orders_diagram) (e_to e) = Some nu
    /\ node_pos nu = (80, 80)%R /\ TableNode.width nu = 220%Z
    /\ node_pos no = (80, 300)%R /\ TableNode.width no = 220%Z
    /\ canvas_item (cv users_orders_diagram) (e_line e)
       = Some (mk_item Line FkLine (line_coords no nu) EmptyString)
    /\ canvas_item (cv users_orders_diagram) (e_label e)
       = Some (mk_item Text FkLabel (label_coords no nu) (fk_label_text (e_fk e))).
Proof.
  destruct users_orders_edge as (e & E & Hfk & Hfrom & Hto).
  destruct users_orders_nodes as (nu & no & N & Pu & Wu & Po & Wo).
  destruct (show_drawn window0 users_orders [] [fk_orders_users]) as (_ & D).
  fold users_orders_diagram in D. rewrite E in D.
  apply Forall_cons_iff in D. destruct D as [(na & nb & Ga & Gb & Hl & Ht) _].
  rewrite N, Hfrom in Ga. rewrite N, Hto in Gb. simpl in Ga, Gb.
  injection Ga as <-. injection Gb as <-.
  exists e, nu, no. rewrite N, Hfrom, Hto. now repeat split.
Qed.

(** C5, counterexample.  In the diagram of [users] and [orders] with
    the foreign key [orders.user_id -> users.id], the line of the edge
    runs from [(300, 338)] to [(80, 118)]: [38] below the top of each
    node, which is the middle of the first column row, where the
    vertical centre of the header is [14] below the top.  Its label
    is at [(190, 216)], which is [12] above the middle of the line. *)
Lemma edge_not_on_header_centre_label_not_on_midpoint :
  exists e nu no line label,
    edges users_orders_diagram = [e]
    /\ dict_get (nodes users_orders_diagram) (e_from e) = Some no
    /\ dict_get (nodes users_orders_diagram) (e_to e) = Some nu
    /\ canvas_item (cv users_orders_diagram) (e_line e) = Some line
    /\ canvas_item (cv users_orders_diagram) (e_label e) = Some label
    /\ icoords line = [300; 338; 80; 118]%R
    /\ spec_line_coords no nu = [300; 314; 80; 94]%R
    /\ icoords line <> spec_line_coords no nu
    /\ icoords label = [190; 216]%R
    /\ midpoint (icoords line) = [190; 228]%R
    /\ icoords label <> midpoint (icoords line).
Proof.
  destruct users_orders_drawn
    as (e & nu & no & E & _ & Ga & Gb & Pu & Wu & Po & Wo & Hl & Ht).
  injection Pu as Xu Yu. injection Po as Xo Yo.
  assert (L : line_coords no nu = [300; 338; 80; 118]%R).
  { unfold line_coords, anchor_y. rewrite Xu, Yu, Xo, Yo, Wo.
    unfold TableNode.HEADER_H, TableNode.ROW_H.
    repeat (f_equal; try lra). }
  assert (S : spec_line_coords no nu = [300; 314; 80; 94]%R).
  { unfold spec_line_coords, spec_anchor_y. rewrite Xu, Yu, Xo, Yo, Wo.
    unfold TableNode.HEADER_H. repeat (f_equal; try lra). }
  assert (B : label_coords no nu = [190; 216]%R).
  { unfold label_coords, anchor_y. rewrite Xu, Yu, Xo, Yo, Wo.
    unfold TableNode.HEADER_H, TableNode.ROW_H.
    repeat (f_equal; try lra). }
  assert (M : midpoint [300; 338; 80; 118]%R = [190; 228]%R).
  { simpl. repeat (f_equal; try lra). }
  eexists e, nu, no, _, _.
  split; [ exact E | ]. split; [ exact Ga | ]. split; [ exact Gb | ].
  split; [ exact Hl | ]. split; [ exact Ht | ].
  simpl icoords. rewrite L, S, B, M. repeat split; trivial.
  - intros H. injection H as H. lra.
  - intros H. injection H as H. lra.
Qed.

Lemma redrawn_edges_of_fk (d : diagram) : redrawn d -> Forall edge_of_fk (edges d).
Proof.
  intros [ v schema gv fks _ | mode d0 Hr | t ex ey d0 Hr | d0 Hr ].
  - apply show_edges.
  - rewrite (proj1 (apply_layout_frame mode d0)).
    now apply (wf_fk d0), reachable_well_formed.
  - rewrite (proj1 (drag_node_frame t ex ey d0)).
    now apply (wf_fk d0), reachable_well_formed.
  - now apply (wf_fk d0), reachable_well_formed.
Qed.

(** C5, as amended.  When the window is built and after every
    [_update_edges] (which ends a layout, a drag of a node and any
    pointer motion with the button down), every edge is drawn from the
    current position and width of its two nodes, which are the tables
    of its foreign key: the line starts on the right side of the source
    node and ends on the left side of the target node, both
    [HEADER_H + ROW_H / 2 = 38] below the top of the node, that is at
    mid-height of the first column row; the label, with the text
    [from_table.from_column → to_table.to_column], is [12] above the
    middle of the line.  An edge holds the ids of its two items and
    the names of its tables, and no coordinate. *)
Theorem edges_follow_nodes (d : diagram) :
  redrawn d ->
  Forall (edge_drawn (nodes d) (cv d)) (edges d)
  /\ Forall edge_of_fk (edges d)
  /\ (forall na nb : TableNode.t,
        line_coords na nb
        = [ TableNode.x na + IZR (TableNode.width na); TableNode.y na + 38;
            TableNode.x nb; TableNode.y nb + 38 ]%R)
  /\ (forall na nb : TableNode.t,
        label_coords na nb
        = [ (TableNode.x na + IZR (TableNode.width na) + TableNode.x nb) / 2;
            (TableNode.y na + 38 + (TableNode.y nb + 38)) / 2 - 12 ]%R)
  /\ (forall fk : foreign_key,
        fk_label_text fk
        = (fk_table fk ++ "." ++ fk_col fk ++ " → "
             ++ fk_ref_table fk ++ "." ++ fk_ref_col fk)%string).
Proof.
  intros Hr.
  assert (A : forall nd, anchor_y nd = (TableNode.y nd + 38)%R).
  { intros nd. unfold anchor_y, TableNode.HEADER_H, TableNode.ROW_H. lra. }
  split; [ now apply redrawn_edges_drawn | ].
  split; [ now apply redrawn_edges_of_fk | ].
  split; [ | split ].
  - intros na nb. unfold line_coords. now rewrite !A.
  - intros na nb. unfold label_coords. cbv zeta. now rewrite !A.
  - reflexivity.
Qed.

(** The diagram of [users] and [orders], as built: its edge is drawn
    where the two nodes are. *)
Lemma edges_follow_nodes_users_orders :
  redrawn users_orders_diagram
  /\ Forall (edge_drawn (nodes users_orders_diagram) (cv users_orders_diagram))
       (edges users_orders_diagram).
Proof.
  assert (H : redrawn users_orders_diagram).
  { apply redrawn_show. exact nodup_users_orders. }
  split; [ exact H | ].
  apply (edges_follow_nodes users_orders_diagram H).
Defined.

(** * Further properties of the code *)

(** ** Hit testing *)

Lemma Int_part_floor (r : R) (k : Z) :
  (IZR k <= r < IZR k + 1)%R -> Int_part r = k.
Proof. intros H. symmetry. apply Int_part_spec. lra. Qed.

Lemma Int_part_bounds (r : R) : (IZR (Int_part r) <= r < IZR (Int_part r) + 1)%R.
Proof.
  destruct (base_Int_part r) as [H1 H2]. lra.
Qed.

Lemma py_int_IZR (z : Z) : py_int (IZR z) = z.
Proof.
  unfold py_int. destruct (Rle_dec 0 (IZR z)).
  - apply Int_part_floor. lra.
  - rewrite <- opp_IZR. rewrite (Int_part_floor (IZR (- z)) (- z)) by lra. lia.
Qed.

Lemma contains_iff (nd : TableNode.t) (cx cy : R) :
  TableNode.contains nd cx cy = true
  <-> (TableNode.x nd <= cx <= TableNode.x nd + IZR (TableNode.width nd)
       /\ TableNode.y nd <= cy <= TableNode.y nd + IZR (TableNode.height nd))%R.
Proof.
  unfold TableNode.contains.
  repeat match goal with |- context [ Rle_dec ?a ?b ] => destruct (Rle_dec a b) end;
    simpl; split; intros H; try discriminate; trivial; lra.
Qed.

Lemma column_at_in_row (nd : TableNode.t) (cx cy : R) (col : string) :
  TableNode.column_at nd cx cy = Some col ->
  TableNode.contains nd cx cy = true
  /\ exists i : nat,
       nth_error (TableNode.cols nd) i = Some col
       /\ (TableNode.y nd + 28 + 20 * INR i <= cy
           < TableNode.y nd + 28 + 20 * (INR i + 1))%R.
Proof.
  unfold TableNode.column_at, py_floordiv, TableNode.HEADER_H, TableNode.ROW_H.
  rewrite py_int_IZR.
  set (rel := (cy - (TableNode.y nd + 28))%R).
  pose proof (Int_part_bounds (rel / 20)) as Hb.
  destruct (TableNode.contains nd cx cy); simpl; [ | discriminate ].
  destruct (Rlt_dec rel 0) as [ | Hrel ]; [ discriminate | ].
  destruct (0 <=? Int_part (rel / 20))%Z eqn:E0; simpl; [ | discriminate ].
  destruct (Int_part (rel / 20) <? _)%Z; [ | discriminate ].
  apply Z.leb_le in E0. intros H. split; trivial.
  exists (Z.to_nat (Int_part (rel / 20))). split; trivial.
  rewrite INR_IZR_INZ, Z2Nat.id by exact E0. unfold rel in *. lra.
Qed.

Lemma column_at_of_row (nd : TableNode.t) (cx cy : R) (col : string) (i : nat) :
  TableNode.contains nd cx cy = true ->
  nth_error (TableNode.cols nd) i = Some col ->
  (TableNode.y nd + 28 + 20 * INR i <= cy
   < TableNode.y nd + 28 + 20 * (INR i + 1))%R ->
  TableNode.column_at nd cx cy = Some col.
Proof.
  unfold TableNode.column_at, py_floordiv, TableNode.HEADER_H, TableNode.ROW_H.
  rewrite py_int_IZR.
  set (rel := (cy - (TableNode.y nd + 28))%R).
  intros Hc Hn [Hlo Hhi]. rewrite Hc. simpl.
  assert (Hi : Int_part (rel / 20) = Z.of_nat i).
  { apply Int_part_floor. rewrite <- INR_IZR_INZ. unfold rel. lra. }
  pose proof (pos_INR i) as Hpos.
  destruct (Rlt_dec rel 0) as [ Hrel | _ ]; [ unfold rel in Hrel; lra | ].
  rewrite Hi.
  assert (Hlt : (i < List.length (TableNode.cols nd))%nat).
  { apply nth_error_Some. congruence. }
  replace (0 <=? Z.of_nat i)%Z with true by (symmetry; apply Z.leb_le; lia).
  replace (Z.of_nat i <? Z.of_nat (List.length (TableNode.cols nd)))%Z with true
    by (symmetry; apply Z.ltb_lt; lia).
  simpl. now rewrite Nat2Z.id.
Qed.


Lemma init_size (c : canvas) (n : string) (cs : list string) (px py : R) :
  let nd := fst (TableNode.init c n cs px py) in
  TableNode.width nd = 220%Z
  /\ TableNode.height nd = (42 + 20 * Z.of_nat (List.length cs))%Z.
Proof.
  unfold TableNode.init.
  destruct (TableNode.draw _ _ _ _ _ _ _) as [[c' tg] ids].
  cbn [fst TableNode.width TableNode.height].
  unfold TableNode.BOX_WIDTH, TableNode.HEADER_H, TableNode.ROW_H,
    TableNode.PAD, TableNode.BOTTOM_PAD. split; lia.
Qed.

(** X3.  On a node as [TableNode(...)] creates it, the point where
    [draw] anchors the text of the column of index [i] is in the row
    [column_at] gives to that column; at the same place under the last
    row there is no column. *)
Theorem column_at_drawn_text (c : canvas) (n : string) (cs : list string)
    (px py : R) (i : nat) :
  let nd := fst (TableNode.init c n cs px py) in
  let cy := (py + IZR TableNode.HEADER_H + IZR (Z.of_nat i) * IZR TableNode.ROW_H
             + IZR TableNode.ROW_H / 2 + 3)%R in
  TableNode.column_at nd (px + 10) cy = nth_error cs i.
Proof.
  intros nd cy.
  destruct (init_fields c n cs px py) as (_ & Hc & Hx & Hy & _).
  destruct (init_size c n cs px py) as (Hw & Hh).
  fold nd in Hc, Hx, Hy, Hw, Hh.
  assert (Ecy : cy = (py + 28 + 20 * INR i + 13)%R).
  { unfold cy, TableNode.HEADER_H, TableNode.ROW_H. rewrite <- INR_IZR_INZ. lra. }
  pose proof (pos_INR i) as Hpos.
  destruct (nth_error cs i) as [col | ] eqn:En.
  - assert (Hlt : (i < List.length cs)%nat) by (apply nth_error_Some; congruence).
    apply lt_INR in Hlt.
    apply (column_at_of_row nd (px + 10) cy col i).
    + apply contains_iff. rewrite Hx, Hy, Hw, Hh, plus_IZR, mult_IZR,
        <- INR_IZR_INZ. lra.
    + now rewrite Hc.
    + rewrite Hy. lra.
  - destruct (TableNode.column_at nd (px + 10) cy) as [col | ] eqn:Ecol; trivial.
    exfalso. apply column_at_in_row in Ecol.
    destruct Ecol as (_ & j & Hj & Hlo & Hhi). rewrite Hc in Hj. rewrite Hy in Hlo, Hhi.
    apply nth_error_None in En.
    assert (Hjl : (j < List.length cs)%nat) by (apply nth_error_Some; congruence).
    assert (Hji : (j < i)%nat) by lia.
    apply lt_INR in Hji. rewrite S_INR in Hji || idtac.
    assert (INR j + 1 <= INR i)%R.
    { rewrite <- S_INR. apply le_INR. lia. }
    lra.
Qed.

(** ** What the handlers keep of the nodes *)

Lemma frames_dict_set (nds : dict TableNode.t) (k : string) (nd nd' : TableNode.t) :
  dict_get nds k = Some nd ->
  node_frame nd' = node_frame nd ->
  map (fun p => (fst p, node_frame (snd p))) (dict_set nds k nd')
  = map (fun p => (fst p, node_frame (snd p))) nds.
Proof.
  intros Hget Hf. induction nds as [ | [k0 v0] rest IH ]; [ discriminate | ].
  simpl in *. destruct (String.eqb k k0); simpl.
  - injection Hget as ->. now rewrite Hf.
  - f_equal. now apply IH.
Qed.

Lemma layout_grid_frames (ncols : Z) (nds : dict TableNode.t) :
  forall (i : Z) (c : canvas),
  map (fun p => (fst p, node_frame (snd p))) (fst (layout_grid ncols i nds c))
  = map (fun p => (fst p, node_frame (snd p))) nds.
Proof.
  induction nds as [ | [tname nd] rest IH ]; intros i c; simpl; trivial.
  match goal with
  | |- context [ layout_grid ncols (i + 1) rest ?c1 ] =>
      specialize (IH (i + 1)%Z c1);
      destruct (layout_grid ncols (i + 1) rest c1) as [rest' c2]
  end.
  simpl in *. now rewrite IH.
Qed.

Lemma layout_radial_frames (cx cy : R) (radius total : Z) (nds : dict TableNode.t) :
  forall (i : Z) (c : canvas),
  map (fun p => (fst p, node_frame (snd p)))
      (fst (layout_radial cx cy radius total i nds c))
  = map (fun p => (fst p, node_frame (snd p))) nds.
Proof.
  induction nds as [ | [tname nd] rest IH ]; intros i c; simpl; trivial.
  match goal with
  | |- context [ layout_radial cx cy radius total (i + 1) rest ?c1 ] =>
      specialize (IH (i + 1)%Z c1);
      destruct (layout_radial cx cy radius total (i + 1) rest c1) as [rest' c2]
  end.
  simpl in *. now rewrite IH.
Qed.

Lemma apply_layout_frames (mode : string) (d : diagram) :
  frames (apply_layout mode d) = frames d.
Proof.
  unfold apply_layout, frames.
  destruct (dict_len (nodes d) =? 0)%Z; trivial.
  rewrite update_edges_nodes.
  destruct (String.eqb mode "grid").
  - pose proof (layout_grid_frames (cols_grid (dict_len (nodes d))) (nodes d) 0 (cv d))
      as F.
    destruct (layout_grid _ _ _ _) as [nds c]. exact F.
  - destruct (String.eqb mode "radial"); trivial.
    match goal with
    | |- context [ layout_radial ?cx ?cy ?r ?t 0 (nodes d) (cv d) ] =>
        pose proof (layout_radial_frames cx cy r t (nodes d) 0 (cv d)) as F;
        destruct (layout_radial cx cy r t 0 (nodes d) (cv d)) as [nds c]
    end.
    exact F.
Qed.

Lemma press_node_frames (tname : string) (ex ey : Z) (d : diagram) :
  frames (press_node tname ex ey d) = frames d.
Proof.
  unfold press_node, frames. destruct (dict_get (nodes d) tname) as [nd | ] eqn:E;
    trivial.
  simpl. now apply frames_dict_set with nd.
Qed.

Lemma drag_node_frames (tname : string) (ex ey : Z) (d : diagram) :
  frames (drag_node tname ex ey d) = frames d.
Proof.
  unfold drag_node, frames. destruct (dict_get (nodes d) tname) as [nd | ] eqn:E;
    trivial.
  assert (F : node_frame (fst (TableNode.on_drag nd ex ey (cv d))) = node_frame nd).
  { unfold TableNode.on_drag. now destruct (TableNode.drag_start nd) as [[sx sy] | ]. }
  destruct (TableNode.on_drag nd ex ey (cv d)) as [nd' c]. simpl in *.
  now apply frames_dict_set with nd.
Qed.

Lemma zoom_var_set_nodes (val : R) (d : diagram) :
  nodes (zoom_var_set val d) = nodes d.
Proof.
  unfold zoom_var_set, set_zoom. simpl.
  destruct (Rle_dec val 0); trivial.
  destruct (Rlt_dec _ _); trivial.
  now destruct (Req_dec_T _ _).
Qed.

Lemma wheel_zoom_nodes (e : wheel_event) (d : diagram) :
  nodes (wheel_zoom e d) = nodes d.
Proof. rewrite wheel_zoom_unfold. now destruct (wheel_active e d). Qed.

(** X4.  No handler of the window adds, removes, renames or resizes a
    node, or touches the list of edges: a layout, a press or a drag on
    a node, an edge update, a wheel or slider zoom and a scroll leave
    the names, tables, sizes and tags of the nodes and the edges as
    they were.  Only positions and item coordinates change. *)
Theorem handlers_keep_nodes_and_edges (d : diagram) :
  (forall mode, frames (apply_layout mode d) = frames d
                /\ edges (apply_layout mode d) = edges d)
  /\ (forall tname ex ey, frames (press_node tname ex ey d) = frames d
                          /\ edges (press_node tname ex ey d) = edges d)
  /\ (forall tname ex ey, frames (drag_node tname ex ey d) = frames d
                          /\ edges (drag_node tname ex ey d) = edges d)
  /\ (frames (_update_edges d) = frames d /\ edges (_update_edges d) = edges d)
  /\ (forall e, frames (wheel_zoom e d) = frames d
                /\ edges (wheel_zoom e d) = edges d)
  /\ (forall val, frames (zoom_var_set val d) = frames d
                  /\ edges (zoom_var_set val d) = edges d)
  /\ (forall v, frames (with_view d v) = frames d /\ edges (with_view d v) = edges d).
Proof.
  split; [ intros mode; split;
           [ apply apply_layout_frames | apply (apply_layout_frame mode d) ] | ].
  split; [ intros t ex ey; split;
           [ apply press_node_frames | apply (press_node_frame t ex ey d) ] | ].
  split; [ intros t ex ey; split;
           [ apply drag_node_frames | apply (drag_node_frame t ex ey d) ] | ].
  split; [ now split | ].
  split; [ intros e; split;
           [ unfold frames; now rewrite wheel_zoom_nodes
           | apply (wheel_zoom_frame e d) ] | ].
  split; [ intros val; split;
           [ unfold frames; now rewrite zoom_var_set_nodes
           | apply (zoom_var_set_frame val d) ] | ].
  intros v. now split.
Qed.

(** ** Redrawing the edges *)

Lemma diagram_eq (a b : diagram) :
  cv a = cv b -> nodes a = nodes b -> edges a = edges b ->
  current_scale a = current_scale b -> zoom_var a = zoom_var b ->
  view a = view b -> a = b.
Proof. destruct a, b; simpl; intros; subst; reflexivity. Qed.

Lemma canvas_ext (c c' : canvas) :
  (forall id, canvas_item c id = canvas_item c' id) -> c = c'.
Proof.
  intros H. apply nth_error_ext. intros n. apply (H (S n)).
Qed.

Lemma edge_ids_in (es : list edge) (id : nat) :
  In id (edge_ids es) ->
  exists e, In e es /\ (id = e_line e \/ id = e_label e).
Proof.
  unfold edge_ids. rewrite in_flat_map. intros (e & He & [H | [H | []]]);
    exists e; auto.
Qed.

(** Two canvases on which the same edges are drawn from the same
    nodes agree on the items of these edges. *)
Lemma edge_drawn_agree (nds : dict TableNode.t) (c c' : canvas) (es : list edge) :
  Forall (edge_drawn nds c) es ->
  Forall (edge_drawn nds c') es ->
  forall id, In id (edge_ids es) -> canvas_item c id = canvas_item c' id.
Proof.
  intros D D' id Hid. destruct (edge_ids_in es id Hid) as (e & He & Hor).
  rewrite Forall_forall in D, D'.
  destruct (D e He) as (na & nb & Ga & Gb & Hl & Ht).
  destruct (D' e He) as (na' & nb' & Ga' & Gb' & Hl' & Ht').
  rewrite Ga in Ga'. rewrite Gb in Gb'. injection Ga' as <-. injection Gb' as <-.
  destruct Hor as [-> | ->]; congruence.
Qed.

(** X9.  [_update_edges] is idempotent on every state of the window:
    a second update right after the first changes nothing. *)
Theorem update_edges_idempotent (d : diagram) :
  reachable d -> _update_edges (_update_edges d) = _update_edges d.
Proof.
  intros Hr. pose proof (reachable_well_formed d Hr) as W.
  pose proof (reachable_well_formed _ (reach_motion d Hr)) as W1.
  pose proof (update_edges_draws d W) as D1.
  pose proof (update_edges_draws _ W1) as D2.
  apply diagram_eq; trivial. apply canvas_ext. intros id.
  destruct (in_dec Nat.eq_dec id (edge_ids (edges d))) as [Hin | Hout].
  - apply (edge_drawn_agree (nodes d) _ _ (edges d)); trivial.
  - simpl. now apply update_edges_loop_frame.
Qed.

(** The diagram of [users] and [orders]. *)
Lemma update_edges_idempotent_users_orders :
  reachable users_orders_diagram
  /\ _update_edges (_update_edges users_orders_diagram)
     = _update_edges users_orders_diagram.
Proof.
  assert (Hr : reachable users_orders_diagram).
  { apply reach_show. exact nodup_users_orders. }
  split; [ exact Hr | ].
  apply (update_edges_idempotent users_orders_diagram Hr).
Defined.

Lemma redrawn_reachable (d : diagram) : redrawn d -> reachable d.
Proof.
  intros [ v schema gv fks H | mode d0 Hr | t ex ey d0 Hr | d0 Hr ].
  - now apply reach_show.
  - now apply reach_layout.
  - now apply reach_drag.
  - now apply reach_motion.
Qed.

(** X10.  A zoom rescales the items of the canvas and leaves the
    recorded positions of the nodes as they were.  So when the edges
    have been drawn, and a wheel zoom is followed by the next
    [_update_edges], every edge line and label is back at the
    coordinates it had before the zoom, whatever the zoom factor. *)
Theorem zoom_then_update_restores_edges (e : wheel_event) (d : diagram) :
  redrawn d ->
  nodes (wheel_zoom e d) = nodes d
  /\ positions (nodes (wheel_zoom e d)) = positions (nodes d)
  /\ Forall (fun ed =>
               canvas_item (cv (_update_edges (wheel_zoom e d))) (e_line ed)
               = canvas_item (cv d) (e_line ed)
               /\ canvas_item (cv (_update_edges (wheel_zoom e d))) (e_label ed)
                  = canvas_item (cv d) (e_label ed))
            (edges d).
Proof.
  intros Hd. pose proof (wheel_zoom_nodes e d) as N.
  split; [ exact N | ]. split; [ now rewrite N | ].
  pose proof (redrawn_edges_drawn d Hd) as D.
  pose proof (redrawn_edges_drawn _
                (redrawn_motion _ (reach_wheel e d (redrawn_reachable d Hd)))) as D'.
  change (Forall (edge_drawn (nodes (wheel_zoom e d))
                    (cv (_update_edges (wheel_zoom e d))))
                 (edges (wheel_zoom e d))) in D'.
  rewrite N, (proj1 (wheel_zoom_frame e d)) in D'.
  apply Forall_forall. intros ed Hin.
  assert (Hids : In (e_line ed) (edge_ids (edges d))
                 /\ In (e_label ed) (edge_ids (edges d))).
  { unfold edge_ids. split; apply in_flat_map; exists ed; simpl; auto. }
  split; apply (edge_drawn_agree (nodes d) _ _ (edges d) D' D); apply Hids.
Qed.

(** The diagram of [users] and [orders], zoomed by a notch. *)
Lemma zoom_then_update_restores_edges_users_orders :
  redrawn users_orders_diagram
  /\ positions (nodes (wheel_zoom ctrl_wheel_up users_orders_diagram))
     = positions (nodes users_orders_diagram).
Proof.
  assert (H : redrawn users_orders_diagram).
  { apply redrawn_show. exact nodup_users_orders. }
  split; [ exact H | ].
  apply (zoom_then_update_restores_edges ctrl_wheel_up users_orders_diagram H).
Defined.

(** ** Drawing a node *)

Lemma create_all_items (its : list item) :
  forall c : canvas, fst (create_all c its) = c ++ its.
Proof.
  induction its as [ | it rest IH ]; intros c; simpl.
  - now rewrite app_nil_r.
  - specialize (IH (c ++ [it])). destruct (create_all (c ++ [it]) rest) as [c2 ids].
    simpl in *. now rewrite IH, <- app_assoc.
Qed.

Lemma draw_cols_items (tg : item_tag) (x1 y1 x2 : R) (cs : list string) :
  forall (i : Z) (c : canvas) (ids : list nat),
  fst (TableNode.draw_cols tg x1 y1 x2 (i + Z.of_nat (List.length cs)) i cs c ids)
  = c ++ col_items tg x1 y1 x2 i cs.
Proof.
  induction cs as [ | col rest IH ]; intros i c ids.
  - simpl. now rewrite app_nil_r.
  - cbn [TableNode.draw_cols col_items].
    replace (i + Z.of_nat (List.length (col :: rest)))%Z
      with (i + 1 + Z.of_nat (List.length rest))%Z
      by (cbn [List.length]; lia).
    destruct rest as [ | col2 rest2 ].
    + replace (i <? i + 1 + Z.of_nat (List.length (@nil string)) - 1)%Z with false
        by (symmetry; apply Z.ltb_ge; simpl; lia).
      cbv zeta. unfold create at 1. cbv iota beta.
      rewrite IH. now rewrite <- app_assoc.
    + replace (i <? i + 1 + Z.of_nat (List.length (col2 :: rest2)) - 1)%Z with true
        by (symmetry; apply Z.ltb_lt; cbn [List.length]; lia).
      cbv zeta. unfold create at 2. cbn [fst]. unfold create at 1. cbv iota beta.
      rewrite IH. now rewrite <- !app_assoc.
Qed.

Lemma init_canvas (c : canvas) (n : string) (cs : list string) (px py : R) :
  snd (TableNode.init c n cs px py) = c ++ node_items n cs px py.
Proof.
  unfold TableNode.init, TableNode.draw, node_items.
  unfold _create_box_with_shadow at 1. cbv zeta. cbv iota beta.
  rewrite !create_all_items. unfold create at 1. cbv iota beta.
  pose proof (draw_cols_items) as H.
  match goal with
  | |- context [ TableNode.draw_cols ?tg ?a ?b ?x2 ?nn 0 cs ?c0 ?ids ] =>
      specialize (H tg a b x2 cs 0%Z c0 ids);
      rewrite Z.add_0_l in H;
      destruct (TableNode.draw_cols tg a b x2 nn 0 cs c0 ids) as [c4 ids4]
  end.
  cbn [fst snd] in *. rewrite H.
  unfold _create_box_with_shadow. cbn [snd]. now rewrite <- !app_assoc.
Qed.

Lemma init_tag (c : canvas) (n : string) (cs : list string) (px py : R) :
  TableNode.tag (fst (TableNode.init c n cs px py))
  = BoxTag px py (px + 220) (py + IZR (42 + 20 * Z.of_nat (List.length cs))).
Proof.
  unfold TableNode.init, TableNode.draw.
  unfold _create_box_with_shadow at 1. cbv zeta. cbv iota beta.
  unfold create at 1. cbv iota beta.
  destruct (TableNode.draw_cols _ _ _ _ _ _ _ _ _) as [c4 ids4].
  cbn [fst TableNode.tag].
  unfold TableNode.BOX_WIDTH, TableNode.HEADER_H, TableNode.ROW_H,
    TableNode.PAD, TableNode.BOTTOM_PAD.
  now replace (28 + Z.of_nat (List.length cs) * 20 + 6 + 8)%Z
    with (42 + 20 * Z.of_nat (List.length cs))%Z by lia.
Qed.

Lemma col_items_tagged (tg : item_tag) (x1 y1 x2 : R) (cs : list string) :
  forall i : Z, Forall (fun it => itag it = tg) (col_items tg x1 y1 x2 i cs).
Proof.
  induction cs as [ | col rest IH ]; intros i; [ constructor | ].
  cbn [col_items]. apply Forall_app. split.
  - destruct rest; repeat constructor.
  - constructor; [ reflexivity | apply IH ].
Qed.

Lemma col_items_length (tg : item_tag) (x1 y1 x2 : R) (cs : list string) :
  forall i : Z,
  List.length (col_items tg x1 y1 x2 i cs)
  = (List.length cs + Nat.pred (List.length cs))%nat.
Proof.
  induction cs as [ | col rest IH ]; intros i; trivial.
  cbn [col_items]. rewrite length_app. cbn [List.length]. rewrite IH.
  destruct rest; cbn [List.length Nat.pred]; lia.
Qed.

Lemma node_items_tagged (n : string) (cs : list string) (px py : R) :
  Forall (fun it =>
            itag it = BoxTag px py (px + 220)
                        (py + IZR (42 + 20 * Z.of_nat (List.length cs))))
         (node_items n cs px py).
Proof.
  unfold node_items.
  unfold TableNode.BOX_WIDTH, TableNode.HEADER_H, TableNode.ROW_H,
    TableNode.PAD, TableNode.BOTTOM_PAD.
  replace (28 + Z.of_nat (List.length cs) * 20 + 6 + 8)%Z
    with (42 + 20 * Z.of_nat (List.length cs))%Z by lia.
  cbv zeta. apply Forall_app. split.
  - unfold _create_box_with_shadow, _create_rounded_rect. cbn [snd app].
    repeat constructor.
  - apply Forall_app. split.
    + unfold _draw_header_gradient. apply Forall_forall. intros it Hin.
      apply in_map_iff in Hin. destruct Hin as (i & <- & _). reflexivity.
    + constructor; [ reflexivity | apply col_items_tagged ].
Qed.

Lemma node_items_length (n : string) (cs : list string) (px py : R) :
  List.length (node_items n cs px py)
  = (33 + List.length cs + Nat.pred (List.length cs))%nat.
Proof.
  unfold node_items. cbv zeta.
  rewrite !length_app. cbn [List.length]. rewrite col_items_length.
  unfold _create_box_with_shadow, _draw_header_gradient. cbn [snd].
  rewrite length_app, length_map, length_seq. simpl. lia.
Qed.

(** X11.  Creating a node leaves the items already on the canvas as
    they are and puts the node's items on top: [33] items for the
    shadow, the box, the header bands and the title, one text per
    column and one separator between two columns.  Every one of them
    carries the node's tag, which names the corners the node was
    created at. *)
Theorem init_draws_node_items (c : canvas) (n : string) (cs : list string)
    (px py : R) :
  let nd := fst (TableNode.init c n cs px py) in
  let c' := snd (TableNode.init c n cs px py) in
  c' = c ++ node_items n cs px py
  /\ firstn (List.length c) c' = c
  /\ List.length c'
     = (List.length c + 33 + List.length cs + Nat.pred (List.length cs))%nat
  /\ TableNode.tag nd
     = BoxTag px py (px + 220) (py + IZR (42 + 20 * Z.of_nat (List.length cs)))
  /\ Forall (fun it => itag it = TableNode.tag nd) (node_items n cs px py).
Proof.
  intros nd c'. unfold nd, c'. rewrite init_canvas, init_tag.
  split; [ reflexivity | ].
  split; [ now rewrite firstn_app, Nat.sub_diag, firstn_all, app_nil_r | ].
  split; [ rewrite length_app, node_items_length; lia | ].
  split; [ reflexivity | apply node_items_tagged ].
Qed.

(** * The scroll region: properties *)








(** * The diagram in Python's arithmetic: properties *)

(** ** Numbers *)

Lemma is_int_inv (a : Py.num) : Py.is_int a = true -> exists z, a = Py.Int z.
Proof. destruct a as [ z | f ]; [ now exists z | discriminate ]. Qed.

Lemma on_ints_inv (nd : Machine.TableNode.t) :
  Machine.on_ints nd = true ->
  exists px py, Machine.node_pos nd = (Py.Int px, Py.Int py).
Proof.
  unfold Machine.on_ints, Machine.node_pos. intros H.
  apply andb_prop in H. destruct H as [Hx Hy].
  destruct (is_int_inv _ Hx) as [px ->]. destruct (is_int_inv _ Hy) as [py ->].
  now exists px, py.
Qed.

(** On ints the way to a target ends on the target. *)
Lemma landing_on_ints (px py tx ty : Z) :
  Machine.landing (Py.Int px, Py.Int py) (Py.Int tx, Py.Int ty)
  = (Py.Int tx, Py.Int ty).
Proof. unfold Machine.landing. simpl. f_equal; f_equal; lia. Qed.

(** ** Moving a node *)

Lemma py_node_eq (a b : Machine.TableNode.t) :
  Machine.node_pos a = Machine.node_pos b ->
  Machine.node_frame a = Machine.node_frame b ->
  a = b.
Proof.
  destruct a, b. unfold Machine.node_pos, Machine.node_frame. simpl.
  intros Hp Hf. injection Hp as -> ->. injection Hf as -> -> -> -> -> ->.
  reflexivity.
Qed.

Lemma py_move_node (nd : Machine.TableNode.t) (dx dy : Py.num) (c : Machine.canvas) :
  Machine.node_pos (fst (Machine.TableNode.move nd dx dy c))
  = ((Machine.TableNode.x nd + dx)%num, (Machine.TableNode.y nd + dy)%num)
  /\ Machine.node_frame (fst (Machine.TableNode.move nd dx dy c))
     = Machine.node_frame nd.
Proof. split; reflexivity. Qed.

(** C7, as amended.  [move] adds the displacement to the position
    and tests nothing.  For a node on integer coordinates and an
    integer displacement, as the window creates and drags its nodes,
    the additions are exact: moving by [(dx, dy)] and then by
    [(-dx, -dy)] gives back the node as it was, position included. *)
Theorem move_round_trip_on_integers (nd : Machine.TableNode.t) (dx dy : Z)
    (c : Machine.canvas) :
  Machine.on_ints nd = true ->
  let nd1 := fst (Machine.TableNode.move nd (Py.Int dx) (Py.Int dy) c) in
  let nd2 := fst (Machine.there_and_back nd (Py.Int dx) (Py.Int dy) c) in
  (exists px py,
      Machine.node_pos nd = (Py.Int px, Py.Int py)
      /\ Machine.node_pos nd1 = (Py.Int (px + dx), Py.Int (py + dy)))
  /\ Machine.node_pos nd2 = Machine.node_pos nd
  /\ nd2 = nd.
Proof.
  intros Hi nd1 nd2.
  destruct (on_ints_inv nd Hi) as (px & py & Hp).
  assert (H1 : Machine.node_pos nd1 = (Py.Int (px + dx), Py.Int (py + dy))).
  { unfold nd1, Machine.node_pos in *. simpl.
    injection Hp as Hx Hy. now rewrite Hx, Hy. }
  assert (H2 : Machine.node_pos nd2 = Machine.node_pos nd).
  { rewrite Hp. unfold nd2, Machine.there_and_back, Machine.node_pos in *. simpl.
    injection Hp as Hx Hy. rewrite Hx, Hy. simpl. f_equal; f_equal; lia. }
  split; [ now exists px, py | ]. split; [ exact H2 | ].
  apply py_node_eq; [ exact H2 | reflexivity ].
Qed.

(** ** The grid layout *)

Lemma py_grid_cells_length (ncols i : Z) (n : nat) :
  List.length (Machine.grid_cells ncols i n) = n.
Proof. revert i. induction n; intros i; simpl; [ | rewrite IHn ]; reflexivity. Qed.

Lemma py_grid_cells_map (ncols : Z) (n : nat) :
  forall i : Z,
  Machine.grid_cells ncols i n
  = map (fun j : nat =>
           (Py.Int (80 + ((i + Z.of_nat j) mod ncols) * 320),
            Py.Int (80 + ((i + Z.of_nat j) / ncols) * 220)))
        (seq 0 n).
Proof.
  induction n as [ | n IH ]; intros i; [ reflexivity | ].
  simpl. rewrite Z.add_0_r. f_equal. rewrite IH, <- seq_shift, map_map.
  apply map_ext. intros j.
  now replace (i + 1 + Z.of_nat j)%Z with (i + Z.of_nat (S j))%Z by lia.
Qed.

Lemma py_positions_length (nds : dict Machine.TableNode.t) :
  List.length (Machine.positions nds) = List.length nds.
Proof. apply length_map. Qed.

(** The loop keeps the names and the frames, and leaves node [j]
    where the way from its position to the cell [i + j] lands. *)
Lemma py_layout_grid_nodes (ncols : Z) (nds : dict Machine.TableNode.t) :
  forall (i : Z) (c : Machine.canvas),
  dict_keys (fst (Machine.layout_grid ncols i nds c)) = dict_keys nds
  /\ Machine.frames (fst (Machine.layout_grid ncols i nds c)) = Machine.frames nds
  /\ Machine.positions (fst (Machine.layout_grid ncols i nds c))
     = Machine.landings (Machine.positions nds)
         (Machine.grid_cells ncols i (List.length nds)).
Proof.
  induction nds as [ | [tname nd] rest IH ]; intros i c; [ now repeat split | ].
  simpl.
  match goal with
  | |- context [ Machine.layout_grid ncols (i + 1) rest ?c1 ] =>
      destruct (IH (i + 1)%Z c1) as (K & F & P);
      destruct (Machine.layout_grid ncols (i + 1) rest c1) as [rest' c2]
  end.
  simpl in *. split; [ now rewrite K | ]. split; [ now rewrite F | ].
  unfold Machine.landings. simpl. f_equal. exact P.
Qed.

Lemma py_landings_on_ints (ncols : Z) (nds : dict Machine.TableNode.t) :
  forall i : Z,
  Machine.all_on_ints nds = true ->
  Machine.landings (Machine.positions nds)
    (Machine.grid_cells ncols i (List.length nds))
  = Machine.grid_cells ncols i (List.length nds).
Proof.
  induction nds as [ | [tname nd] rest IH ]; intros i H; [ reflexivity | ].
  simpl in H. apply andb_prop in H. destruct H as [Hn Hr].
  destruct (on_ints_inv nd Hn) as (px & py & Hp).
  unfold Machine.landings in *. simpl. rewrite Hp, landing_on_ints. f_equal.
  now apply IH.
Qed.

Lemma py_grid_cells_on_ints (ncols : Z) (nds : dict Machine.TableNode.t) :
  forall i : Z,
  Machine.positions nds = Machine.grid_cells ncols i (List.length nds) ->
  Machine.all_on_ints nds = true.
Proof.
  induction nds as [ | [tname nd] rest IH ]; intros i H; [ reflexivity | ].
  unfold Machine.positions, Machine.node_pos in *. simpl in H.
  injection H as Hx Hy Hr. simpl.
  unfold Machine.on_ints. rewrite Hx, Hy. simpl. now apply (IH (i + 1)%Z).
Qed.

Lemma py_update_edges_nodes (d : Machine.diagram) :
  Machine.nodes (Machine._update_edges d) = Machine.nodes d.
Proof. reflexivity. Qed.

Lemma py_apply_layout_grid (m : libm) (center : PrimFloat.float * PrimFloat.float)
    (d : Machine.diagram) :
  Machine.nodes (Machine.apply_layout m center "grid" d)
  = fst (Machine.layout_grid (cols_grid (dict_len (Machine.nodes d))) 0
           (Machine.nodes d) (Machine.cv d)).
Proof.
  unfold Machine.apply_layout.
  destruct (dict_len (Machine.nodes d) =? 0)%Z eqn:E.
  - apply Z.eqb_eq, dict_len_zero in E. now rewrite E.
  - simpl. destruct (Machine.layout_grid _ _ _ _) as [nds c]. reflexivity.
Qed.

(** What the grid layout does to the nodes of any diagram. *)
Lemma py_apply_layout_grid_positions (m : libm)
    (center : PrimFloat.float * PrimFloat.float) (d : Machine.diagram) :
  let nds := Machine.nodes (Machine.apply_layout m center "grid" d) in
  let n := List.length (Machine.nodes d) in
  dict_keys nds = dict_keys (Machine.nodes d)
  /\ Machine.frames nds = Machine.frames (Machine.nodes d)
  /\ Machine.positions nds
     = Machine.landings (Machine.positions (Machine.nodes d))
         (Machine.grid_cells (cols_grid (Z.of_nat n)) 0 n).
Proof.
  intros nds n. unfold nds. rewrite py_apply_layout_grid.
  apply py_layout_grid_nodes.
Qed.

Lemma py_apply_layout_grid_on_ints (m : libm)
    (center : PrimFloat.float * PrimFloat.float) (d : Machine.diagram) :
  Machine.all_on_ints (Machine.nodes d) = true ->
  let nds := Machine.nodes (Machine.apply_layout m center "grid" d) in
  let n := List.length (Machine.nodes d) in
  List.length nds = n
  /\ Machine.positions nds = Machine.grid_cells (cols_grid (Z.of_nat n)) 0 n
  /\ Machine.all_on_ints nds = true.
Proof.
  intros Hi nds n.
  destruct (py_apply_layout_grid_positions m center d) as (K & _ & P).
  fold nds n in K, P.
  assert (L : List.length nds = n).
  { unfold n. now rewrite <- !dict_keys_length, K. }
  rewrite py_landings_on_ints in P by exact Hi.
  split; [ exact L | ]. split; [ exact P | ].
  apply (py_grid_cells_on_ints (cols_grid (Z.of_nat n)) nds 0). now rewrite L.
Qed.

(** C2, as amended.  On a diagram whose nodes are on integer
    coordinates, as they are built and dragged, the grid layout keeps
    the nodes and puts them, in insertion order and row by row, on a
    grid of [k = max(1, int(sqrt(n) + 0.5))] columns, the integer
    nearest to the square root of the node count [n]: node [j] goes
    to [(80 + (j mod k) * 320, 80 + (j / k) * 220)], exactly. *)
Theorem grid_layout_row_major (m : libm) (center : PrimFloat.float * PrimFloat.float)
    (d : Machine.diagram) :
  Machine.all_on_ints (Machine.nodes d) = true ->
  let n := List.length (Machine.nodes d) in
  let k := cols_grid (Z.of_nat n) in
  dict_keys (Machine.nodes (Machine.apply_layout m center "grid" d))
  = dict_keys (Machine.nodes d)
  /\ Machine.positions (Machine.nodes (Machine.apply_layout m center "grid" d))
     = map (fun j : nat =>
              (Py.Int (80 + (Z.of_nat j mod k) * 320),
               Py.Int (80 + (Z.of_nat j / k) * 220)))
           (seq 0 n)
  /\ k = Z.max 1 (nearest_sqrt (Z.of_nat n)).
Proof.
  intros Hi n k.
  destruct (py_apply_layout_grid_positions m center d) as (K & _ & _).
  destruct (py_apply_layout_grid_on_ints m center d Hi) as (_ & P & _).
  split; [ exact K | ]. split; [ | apply cols_grid_nearest ].
  fold n in P. fold k in P. rewrite P, py_grid_cells_map. reflexivity.
Qed.

(** A diagram on its grid cells is a fixed point of the loop. *)
Lemma py_layout_grid_fixed (ncols : Z) (nds : dict Machine.TableNode.t) :
  forall (i : Z) (c : Machine.canvas),
  Machine.positions nds = Machine.grid_cells ncols i (List.length nds) ->
  fst (Machine.layout_grid ncols i nds c) = nds
  /\ Machine.grid_deltas ncols i nds
     = repeat (Py.Int 0, Py.Int 0) (List.length nds).
Proof.
  induction nds as [ | [tname nd] rest IH ]; intros i c H; [ now split | ].
  unfold Machine.positions, Machine.node_pos in H. simpl in H.
  injection H as Hx Hy Hr. simpl.
  match goal with
  | |- context [ Machine.layout_grid ncols (i + 1) rest ?c1 ] =>
      destruct (IH (i + 1)%Z c1 Hr) as (E & D);
      destruct (Machine.layout_grid ncols (i + 1) rest c1) as [rest' c2]
  end.
  simpl in *. rewrite Hx, Hy. simpl. rewrite !Z.sub_diag. split.
  - f_equal; [ | exact E ]. f_equal.
    apply py_node_eq; [ | reflexivity ].
    unfold Machine.node_pos. simpl. rewrite Hx, Hy. simpl.
    now rewrite !Z.add_0_r.
  - now rewrite D.
Qed.

(** C6, as amended.  On a diagram whose nodes are on integer
    coordinates the grid layout is idempotent: the second application
    computes the displacement [(0, 0)] for every node and changes no
    node. *)
Theorem grid_layout_idempotent_on_integers (m : libm)
    (center : PrimFloat.float * PrimFloat.float) (d : Machine.diagram) :
  Machine.all_on_ints (Machine.nodes d) = true ->
  let d1 := Machine.apply_layout m center "grid" d in
  let d2 := Machine.apply_layout m center "grid" d1 in
  Machine.nodes d2 = Machine.nodes d1
  /\ Machine.positions (Machine.nodes d2) = Machine.positions (Machine.nodes d1)
  /\ Machine.grid_deltas (cols_grid (dict_len (Machine.nodes d1))) 0 (Machine.nodes d1)
     = repeat (Py.Int 0, Py.Int 0) (List.length (Machine.nodes d1)).
Proof.
  intros Hi d1 d2.
  destruct (py_apply_layout_grid_on_ints m center d Hi) as (L & P & _).
  fold d1 in L, P.
  assert (P1 : Machine.positions (Machine.nodes d1)
               = Machine.grid_cells (cols_grid (dict_len (Machine.nodes d1))) 0
                   (List.length (Machine.nodes d1))).
  { rewrite P. unfold dict_len. now rewrite L. }
  destruct (py_layout_grid_fixed _ _ 0 (Machine.cv d1) P1) as (E & D).
  assert (N : Machine.nodes d2 = Machine.nodes d1).
  { unfold d2. now rewrite py_apply_layout_grid. }
  split; [ exact N | ]. split; [ now rewrite N | exact D ].
Qed.

(** ** Building the nodes *)

Lemma py_init_fields (c : Machine.canvas) (n : string) (cs : list string)
    (px py : Py.num) :
  let nd := fst (Machine.TableNode.init c n cs px py) in
  Machine.TableNode.name nd = n /\ Machine.TableNode.cols nd = cs
  /\ Machine.TableNode.x nd = px /\ Machine.TableNode.y nd = py.
Proof.
  unfold Machine.TableNode.init.
  destruct (Machine.TableNode.draw _ _ _ _ _ _ _) as [[c' tg] ids]. simpl. tauto.
Qed.

Lemma saved_on_ints_get (gv_positions : dict (Py.num * Py.num)) (t : string)
    (gx gy : Py.num) :
  Machine.saved_on_ints gv_positions = true ->
  dict_get gv_positions t = Some (gx, gy) ->
  Py.is_int gx = true /\ Py.is_int gy = true.
Proof.
  intros Hs Hg. apply dict_get_some_in in Hg.
  unfold Machine.saved_on_ints in Hs. rewrite forallb_forall in Hs.
  specialize (Hs _ Hg). simpl in Hs. now apply andb_prop in Hs.
Qed.

Section PyBuildNodes.

Variable schema : dict (list string).
Variable gv_positions : dict (Py.num * Py.num).
Variable ncols : Z.

Lemma py_build_nodes_appends (tables : list string) :
  forall (index : Z) (c : Machine.canvas) (nds : dict Machine.TableNode.t),
  NoDup tables ->
  (forall t, In t tables -> ~ In t (dict_keys nds)) ->
  exists new,
    snd (Machine.build_nodes schema gv_positions ncols tables index c nds) = nds ++ new
    /\ dict_keys new = tables
    /\ (gv_positions = [] ->
        Machine.positions new = Machine.grid_cells ncols index (List.length tables))
    /\ (Machine.saved_on_ints gv_positions = true -> Machine.all_on_ints new = true).
Proof.
  induction tables as [ | t rest IH ]; intros index c nds Hnd Hfresh.
  - exists []. simpl. rewrite app_nil_r. repeat split; trivial.
  - apply NoDup_cons_iff in Hnd. destruct Hnd as [Hnotin Hrest]. simpl.
    destruct (Machine.place_node gv_positions ncols index t)
      as [[px py] index'] eqn:Ep.
    pose proof (py_init_fields c t (schema_cols schema t) px py) as Hf.
    destruct (Machine.TableNode.init c t (schema_cols schema t) px py) as [nd c'].
    simpl in Hf. destruct Hf as (Hn & Hc & Hx & Hy).
    rewrite dict_set_fresh by (apply Hfresh; now left).
    destruct (IH index' c' (nds ++ [(t, nd)]) Hrest) as (new & E & K & P & I).
    { intros t' Ht'. unfold dict_keys. rewrite map_app, in_app_iff. simpl.
      intros [H | [H | []]].
      - revert H. apply Hfresh. now right.
      - subst t'. contradiction. }
    exists ((t, nd) :: new). rewrite E, <- app_assoc. simpl.
    split; [ reflexivity | ]. split; [ now rewrite K | ]. split.
    + intros ->. unfold Machine.place_node in Ep. simpl in Ep.
      injection Ep as <- <- <-. unfold Machine.positions in *. simpl.
      unfold Machine.node_pos at 1. rewrite Hx, Hy. f_equal. now apply P.
    + intros Hs. rewrite (I Hs), andb_true_r. unfold Machine.on_ints.
      rewrite Hx, Hy. unfold Machine.place_node in Ep.
      destruct (dict_get gv_positions t) as [[gx gy] | ] eqn:Eg.
      * injection Ep as <- <- _.
        destruct (saved_on_ints_get _ _ _ _ Hs Eg) as [-> ->]. reflexivity.
      * injection Ep as <- <- _. reflexivity.
Qed.

End PyBuildNodes.

Lemma py_show_nodes (schema : dict (list string))
    (gv_positions : dict (Py.num * Py.num)) (fk_list : list foreign_key) :
  Machine.nodes (Machine._show_interactive_eer schema gv_positions fk_list)
  = match schema with
    | [] => []
    | _ :: _ =>
        snd (Machine.build_nodes schema gv_positions
               (cols_grid (Z.of_nat (List.length (dict_keys schema))))
               (dict_keys schema) 0 [] [])
    end.
Proof.
  unfold Machine._show_interactive_eer. destruct schema as [ | entry rest ]; trivial.
  cbv zeta. change (dict_keys (entry :: rest)) with (fst entry :: dict_keys rest).
  cbv iota beta.
  destruct (Machine.build_nodes _ _ _ _ _ _ _) as [c1 nds].
  destruct (Machine.build_edges _ _ _ _) as [c2 es]. reflexivity.
Qed.

Lemma py_show_nodes_built (schema : dict (list string))
    (gv_positions : dict (Py.num * Py.num)) (fk_list : list foreign_key) :
  NoDup (dict_keys schema) ->
  let nds := Machine.nodes (Machine._show_interactive_eer schema gv_positions fk_list) in
  dict_keys nds = dict_keys schema
  /\ (gv_positions = [] ->
      Machine.positions nds
      = Machine.grid_cells (cols_grid (Z.of_nat (List.length schema))) 0
          (List.length schema))
  /\ (Machine.saved_on_ints gv_positions = true -> Machine.all_on_ints nds = true).
Proof.
  intros Hnd. rewrite py_show_nodes. destruct schema as [ | entry rest ].
  - simpl. repeat split; trivial.
  - destruct (py_build_nodes_appends (entry :: rest) gv_positions
                (cols_grid (Z.of_nat (List.length (dict_keys (entry :: rest)))))
                (dict_keys (entry :: rest)) 0 [] [] Hnd)
      as (new & E & K & P & I); [ intros t _ [] | ].
    rewrite E. simpl app. split; [ exact K | ]. split; [ | exact I ].
    intros Hgv. rewrite (P Hgv). unfold dict_keys. now rewrite length_map.
Qed.

(** C10.  A schema opened without saved positions is built on the
    placement of the grid layout: node [j] is created on the cell [j]
    of a grid of [cols_grid] columns, and the grid layout, applied to
    the nodes of these tables wherever they are on integer
    coordinates, computes the same column count and the same cells
    and brings every node to the place it was built on; applied to
    the fresh diagram it leaves every node as it is. *)
Theorem initial_placement_is_grid_layout (m : libm)
    (center : PrimFloat.float * PrimFloat.float)
    (schema : dict (list string)) (fk_list : list foreign_key)
    (d' : Machine.diagram) :
  NoDup (dict_keys schema) ->
  dict_keys (Machine.nodes d') = dict_keys schema ->
  Machine.all_on_ints (Machine.nodes d') = true ->
  let d := Machine._show_interactive_eer schema [] fk_list in
  let k := cols_grid (Z.of_nat (List.length schema)) in
  Machine.positions (Machine.nodes d)
  = map (fun j : nat =>
           (Py.Int (80 + (Z.of_nat j mod k) * 320),
            Py.Int (80 + (Z.of_nat j / k) * 220)))
        (seq 0 (List.length schema))
  /\ Machine.positions (Machine.nodes (Machine.apply_layout m center "grid" d'))
     = Machine.positions (Machine.nodes d)
  /\ Machine.nodes (Machine.apply_layout m center "grid" d) = Machine.nodes d.
Proof.
  intros Hnd Hk Hi d k.
  destruct (py_show_nodes_built schema [] fk_list Hnd) as (K & P & _).
  specialize (P eq_refl). fold d in K, P. fold k in P.
  assert (L : List.length (Machine.nodes d) = List.length schema).
  { now rewrite <- !dict_keys_length, K. }
  assert (L' : List.length (Machine.nodes d') = List.length schema).
  { now rewrite <- !dict_keys_length, Hk. }
  split; [ rewrite P, py_grid_cells_map; reflexivity | ]. split.
  - destruct (py_apply_layout_grid_on_ints m center d' Hi) as (_ & P' & _).
    rewrite P', L', P. reflexivity.
  - rewrite py_apply_layout_grid. apply py_layout_grid_fixed.
    rewrite P. unfold dict_len. now rewrite L.
Qed.

(** ** The radial layout *)


Lemma py_layout_radial_nodes (m : libm) (cx cy : PrimFloat.float) (radius total : Z)
    (nds : dict Machine.TableNode.t) :
  forall (i : Z) (c : Machine.canvas),
  dict_keys (fst (Machine.layout_radial m cx cy radius total i nds c)) = dict_keys nds
  /\ Machine.frames (fst (Machine.layout_radial m cx cy radius total i nds c))
     = Machine.frames nds
  /\ Machine.positions (fst (Machine.layout_radial m cx cy radius total i nds c))
     = Machine.landings (Machine.positions nds)
         (Machine.radial_targets m cx cy radius total i (List.length nds)).
Proof.
  induction nds as [ | [tname nd] rest IH ]; intros i c; [ now repeat split | ].
  cbn [Machine.layout_radial Machine.radial_targets List.length].
  destruct (Machine.radial_target m cx cy radius total i) as [tx ty].
  unfold Machine.TableNode.move.
  match goal with
  | |- context [ Machine.layout_radial m cx cy radius total (i + 1) rest ?c1 ] =>
      destruct (IH (i + 1)%Z c1) as (K & F & P);
      destruct (Machine.layout_radial m cx cy radius total (i + 1) rest c1)
        as [rest' c2]
  end.
  cbn [fst snd] in *.
  unfold dict_keys, Machine.frames, Machine.positions, Machine.landings in *.
  cbn [map combine fst snd].
  split; [ now rewrite K | ]. split; [ now rewrite F | ].
  f_equal. exact P.
Qed.

Lemma py_apply_layout_radial (m : libm) (center : PrimFloat.float * PrimFloat.float)
    (d : Machine.diagram) :
  Machine.nodes (Machine.apply_layout m center "radial" d)
  = fst (Machine.layout_radial m (fst center) (snd center)
           (radial_radius (dict_len (Machine.nodes d)))
           (dict_len (Machine.nodes d)) 0 (Machine.nodes d) (Machine.cv d)).
Proof.
  unfold Machine.apply_layout.
  destruct (dict_len (Machine.nodes d) =? 0)%Z eqn:E.
  - apply Z.eqb_eq, dict_len_zero in E. now rewrite E.
  - simpl. destruct (Machine.layout_radial _ _ _ _ _ _ _ _) as [nds c]. reflexivity.
Qed.


(** ** Where rounding shows *)

(** The positions after a layout, from the positions before it. *)
Lemma py_grid_from_positions (m : libm) (center : PrimFloat.float * PrimFloat.float)
    (d : Machine.diagram) :
  Machine.positions (Machine.nodes (Machine.apply_layout m center "grid" d))
  = let ps := Machine.positions (Machine.nodes d) in
    Machine.landings ps
      (Machine.grid_cells (Z.max 1 (nearest_sqrt (Z.of_nat (List.length ps)))) 0
         (List.length ps)).
Proof.
  cbv zeta. rewrite py_positions_length, <- cols_grid_nearest.
  apply py_apply_layout_grid_positions.
Qed.

Lemma py_radial_from_positions (m : libm) (center : PrimFloat.float * PrimFloat.float)
    (d : Machine.diagram) :
  Machine.positions (Machine.nodes (Machine.apply_layout m center "radial" d))
  = let ps := Machine.positions (Machine.nodes d) in
    let n := Z.of_nat (List.length ps) in
    Machine.landings ps
      (Machine.radial_targets m (fst center) (snd center) (radial_radius n) n 0
         (List.length ps)).
Proof.
  cbv zeta. rewrite py_positions_length, py_apply_layout_radial.
  apply py_layout_radial_nodes.
Qed.

Lemma py_fresh_positions (schema : dict (list string)) (fk_list : list foreign_key) :
  NoDup (dict_keys schema) ->
  Machine.positions (Machine.nodes (Machine._show_interactive_eer schema [] fk_list))
  = Machine.grid_cells (Z.max 1 (nearest_sqrt (Z.of_nat (List.length schema)))) 0
      (List.length schema).
Proof.
  intros Hnd. rewrite <- cols_grid_nearest.
  now apply (py_show_nodes_built schema [] fk_list Hnd).
Qed.

Lemma nodup_tables19 : NoDup (dict_keys Machine.tables19).
Proof.
  unfold dict_keys. simpl.
  repeat (apply NoDup_cons; [ simpl; intuition discriminate | ]).
  apply NoDup_nil.
Qed.


(** C7, counterexample.  In the two-table diagram, laid out radially
    in a window whose middle is the canvas point [(700, 250)], the
    node [orders] is at [y = 250.00000000000003].  Moving it by
    [(0, 6)] and then by [(0, -6)] leaves it at [y = 250.0]: the
    position is not restored. *)
Lemma move_round_trip_off_after_radial :
  let d :=
    Machine.apply_layout libm_c (700, 250)%float "radial" Machine.users_orders_diagram in
  exists nd,
    nth_error (Machine.nodes d) 1 = Some ("orders", nd)
    /\ Machine.node_pos nd = (Py.Float 500, Py.Float 250.00000000000003)
    /\ Machine.node_pos
         (fst (Machine.there_and_back nd (Py.Int 0) (Py.Int 6) (Machine.cv d)))
       = (Py.Float 500, Py.Float 250)
    /\ Machine.same_point
         (Machine.node_pos
            (fst (Machine.there_and_back nd (Py.Int 0) (Py.Int 6) (Machine.cv d))))
         (Machine.node_pos nd)
       = false.
Proof.
  intros d.
  assert (P : Machine.positions (Machine.nodes d)
              = [ (Py.Float 900, Py.Float 250);
                  (Py.Float 500, Py.Float 250.00000000000003) ]).
  { unfold d, Machine.users_orders_diagram.
    rewrite py_radial_from_positions, (py_fresh_positions _ _ nodup_users_orders).
    vm_compute. reflexivity. }
  assert (K : dict_keys (Machine.nodes d) = ["users"; "orders"]).
  { unfold d. rewrite py_apply_layout_radial.
    rewrite (proj1 (py_layout_radial_nodes _ _ _ _ _ _ _ _)).
    apply (py_show_nodes_built users_orders [] [fk_orders_users] nodup_users_orders). }
  generalize (Machine.cv d). intros c.
  pose proof (f_equal (fun l => fst (nth 1 l (Py.Int 0, Py.Int 0))) P) as Hx.
  pose proof (f_equal (fun l => snd (nth 1 l (Py.Int 0, Py.Int 0))) P) as Hy.
  destruct (Machine.nodes d) as [ | [k0 n0] [ | [k1 n1] [ | ] ] ];
    try discriminate K.
  unfold Machine.positions, Machine.node_pos in Hx, Hy. simpl in Hx, Hy, K.
  injection K as _ ->.
  exists n1. unfold Machine.there_and_back, Machine.node_pos. simpl.
  rewrite Hx, Hy. repeat split.
Qed.

(** C6, counterexample.  Nineteen tables in a window whose middle is
    the canvas point [(700, 450)], laid out radially twice and then on
    the grid: the grid layout leaves the node of index [15] at
    [y = 740.0000000000001], and a second grid layout moves it to
    [y = 740.0]. *)
Lemma grid_layout_twice_moves_a_node :
  let c := (700, 450)%float in
  let d0 := Machine._show_interactive_eer Machine.tables19 [] [] in
  let r :=
    Machine.apply_layout libm_c c "radial"
      (Machine.apply_layout libm_c c "radial" d0) in
  let g1 := Machine.apply_layout libm_c c "grid" r in
  let g2 := Machine.apply_layout libm_c c "grid" g1 in
  nth_error (Machine.positions (Machine.nodes g1)) 15
  = Some (Py.Float 1040, Py.Float 740.0000000000001)
  /\ nth_error (Machine.positions (Machine.nodes g2)) 15
     = Some (Py.Float 1040, Py.Float 740)
  /\ Machine.positions (Machine.nodes g2) <> Machine.positions (Machine.nodes g1).
Proof.
  intros c d0 r g1 g2.
  assert (P1 : Machine.positions (Machine.nodes g1)
               = Machine.landings (Machine.positions (Machine.nodes r))
                   (Machine.grid_cells 4 0 19)
               /\ nth_error (Machine.positions (Machine.nodes g1)) 15
                  = Some (Py.Float 1040, Py.Float 740.0000000000001)).
  { unfold g1, r, d0.
    rewrite py_grid_from_positions, !py_radial_from_positions,
      (py_fresh_positions _ _ nodup_tables19).
    vm_compute. split; reflexivity. }
  assert (P2 : nth_error (Machine.positions (Machine.nodes g2)) 15
               = Some (Py.Float 1040, Py.Float 740)).
  { unfold g2, g1, r, d0.
    rewrite !py_grid_from_positions, !py_radial_from_positions,
      (py_fresh_positions _ _ nodup_tables19).
    vm_compute. reflexivity. }
  split; [ apply P1 | ]. split; [ exact P2 | ].
  intros E. rewrite E, (proj2 P1) in P2.
  apply (f_equal (fun o => match o with
                           | Some (_, Py.Float f) => PrimFloat.eqb f 740
                           | _ => false
                           end)) in P2.
  discriminate P2.
Qed.


(** ** On integers *)

Lemma py_users_orders_built :
  dict_keys (Machine.nodes Machine.users_orders_diagram) = ["users"; "orders"]
  /\ List.length (Machine.nodes Machine.users_orders_diagram) = 2%nat
  /\ Machine.all_on_ints (Machine.nodes Machine.users_orders_diagram) = true.
Proof.
  destruct (py_show_nodes_built users_orders [] [fk_orders_users] nodup_users_orders)
    as (K & _ & I).
  split; [ exact K | ]. split; [ | now apply I ].
  fold Machine.users_orders_diagram in K. now rewrite <- dict_keys_length, K.
Qed.

(** The node of [users], built on [(80, 80)], moved by [(30, 15)] and
    back. *)
Lemma move_round_trip_on_integers_users :
  let nd :=
    fst (Machine.TableNode.init [] "users" ["id"; "name"] (Py.Int 80) (Py.Int 80)) in
  let c :=
    snd (Machine.TableNode.init [] "users" ["id"; "name"] (Py.Int 80) (Py.Int 80)) in
  Machine.on_ints nd = true
  /\ fst (Machine.there_and_back nd (Py.Int 30) (Py.Int 15) c) = nd.
Proof.
  intros nd c. split; [ reflexivity | ].
  exact (proj2 (proj2 (move_round_trip_on_integers nd 30 15 c eq_refl))).
Defined.

(** The two-table diagram: one column, [orders] under [users]. *)
Lemma grid_layout_row_major_users_orders :
  Machine.all_on_ints (Machine.nodes Machine.users_orders_diagram) = true
  /\ Machine.positions
       (Machine.nodes
          (Machine.apply_layout libm_c (700, 450)%float "grid"
             Machine.users_orders_diagram))
     = [ (Py.Int 80, Py.Int 80); (Py.Int 80, Py.Int 300) ].
Proof.
  destruct py_users_orders_built as (_ & L & Hi).
  split; [ exact Hi | ].
  destruct (grid_layout_row_major libm_c (700, 450)%float
              Machine.users_orders_diagram Hi) as (_ & P & _).
  rewrite P, L, cols_grid_nearest. reflexivity.
Defined.

(** The two-table diagram: a second grid layout changes no node. *)
Lemma grid_layout_idempotent_on_integers_users_orders :
  let c := (700, 450)%float in
  let d1 := Machine.apply_layout libm_c c "grid" Machine.users_orders_diagram in
  Machine.all_on_ints (Machine.nodes Machine.users_orders_diagram) = true
  /\ Machine.nodes (Machine.apply_layout libm_c c "grid" d1) = Machine.nodes d1.
Proof.
  intros c d1. destruct py_users_orders_built as (_ & _ & Hi).
  split; [ exact Hi | ].
  apply (grid_layout_idempotent_on_integers libm_c c Machine.users_orders_diagram Hi).
Defined.

(** The two tables opened with [users] saved at [(5, 7)]: the grid
    layout brings both nodes to the places a fresh window builds them
    on. *)
Lemma initial_placement_is_grid_layout_users_orders :
  let saved :=
    Machine._show_interactive_eer users_orders [("users", (Py.Int 5, Py.Int 7))] [] in
  NoDup (dict_keys users_orders)
  /\ dict_keys (Machine.nodes saved) = dict_keys users_orders
  /\ Machine.all_on_ints (Machine.nodes saved) = true
  /\ Machine.positions
       (Machine.nodes (Machine.apply_layout libm_c (700, 450)%float "grid" saved))
     = Machine.positions (Machine.nodes Machine.users_orders_diagram).
Proof.
  intros saved.
  destruct (py_show_nodes_built users_orders [("users", (Py.Int 5, Py.Int 7))] []
              nodup_users_orders) as (K & _ & I).
  specialize (I eq_refl). fold saved in K, I.
  split; [ exact nodup_users_orders | ]. split; [ exact K | ]. split; [ exact I | ].
  apply (initial_placement_is_grid_layout libm_c (700, 450)%float users_orders
           [fk_orders_users] saved nodup_users_orders K I).
Defined.

(** * The result grid *)

Lemma py_slice_page {A : Type} (l : list A) (start : Z) :
  (0 <= start)%Z ->
  py_slice l start (start + PAGE_SIZE) = firstn 100 (skipn (Z.to_nat start) l).
Proof.
  intros H0. unfold py_slice, PAGE_SIZE.
  replace (start <? 0)%Z with false by (symmetry; apply Z.ltb_ge; lia).
  replace (start + 100 <? 0)%Z with false by (symmetry; apply Z.ltb_ge; lia).
  set (len := List.length l).
  destruct (Z_le_gt_dec start (Z.of_nat len)) as [Hle | Hgt].
  - rewrite (Z.min_l start) by lia.
    assert (Hs : List.length (skipn (Z.to_nat start) l) = (len - Z.to_nat start)%nat)
      by apply length_skipn.
    destruct (Z_le_gt_dec (start + 100) (Z.of_nat len)) as [Hle2 | Hgt2].
    + rewrite Z.min_l by lia. f_equal. lia.
    + rewrite Z.min_r by lia.
      rewrite !firstn_all2; trivial; rewrite Hs; lia.
  - rewrite !Z.min_r by lia.
    rewrite (skipn_all2 l) by (fold len; lia).
    rewrite (skipn_all2 l) by (fold len; lia). now rewrite !firstn_nil.
Qed.

Lemma enumerate_from_snd {A : Type} (l : list A) :
  forall i : Z, map snd (enumerate_from i l) = l.
Proof. induction l as [ | a rest IH ]; intros i; simpl; [ | rewrite IH ]; trivial. Qed.

Lemma nodup_snoc (l : list nat) (a : nat) :
  ~ In a l -> NoDup l -> NoDup (l ++ [a]).
Proof.
  induction l as [ | b l IH ]; intros Hn Hd; simpl.
  - constructor; [ intros [] | constructor ].
  - apply NoDup_cons_iff in Hd. destruct Hd as [Hb Hd]. constructor.
    + rewrite in_app_iff. simpl. intros [H | [H | []]]; [ contradiction | ].
      apply Hn. now left.
    + apply IH; trivial. intros H. apply Hn. now right.
Qed.

Lemma filter_twice {A : Type} (f h : A -> bool) (l : list A) :
  filter h (filter f l) = filter (fun x => f x && h x) l.
Proof.
  induction l as [ | a l IH ]; simpl; [ reflexivity | ].
  destruct (f a); simpl; [ destruct (h a) | ]; now rewrite IH.
Qed.

Section ResultGridFacts.

Context {V : Type}.
Variable empty : V.
Variable py_str : V -> string.
Variable py_lower : string -> string.
Variable py_strip : string -> string.

(** The rows are appended in order, under the next ids. *)
Lemma insert_rows_spec (cols : list string) (rows : list (Z * db_row V)) :
  forall (tree : list (tree_item V)) (next : nat),
  exists new,
    insert_rows empty cols rows tree next = (tree ++ new, (next + List.length rows)%nat)
    /\ map values new = map (fun p => row_values empty cols (snd p)) rows
    /\ map iid new = seq next (List.length rows)
    /\ map row_tag new
       = map (fun p => if (fst p mod 2 =? 0)%Z then "evenrow" else "oddrow") rows.
Proof.
  induction rows as [ | [i r] rest IH ]; intros tree next.
  - exists []. simpl. now rewrite app_nil_r, Nat.add_0_r.
  - simpl. destruct (IH (tree ++ [mk_tree_item next (row_values empty cols r)
                                    (if (i mod 2 =? 0)%Z then "evenrow" else "oddrow")])
                        (S next)) as (new & E & Hv & Hi & Ht).
    exists (mk_tree_item next (row_values empty cols r)
              (if (i mod 2 =? 0)%Z then "evenrow" else "oddrow") :: new).
    rewrite E, <- app_assoc. simpl.
    rewrite Hv, Hi, Ht. split; [ | now repeat split ].
    f_equal. lia.
Qed.

Lemma insert_rows_tree_ok (cols : list string) (rows : list (Z * db_row V))
    (next : nat) :
  let r := insert_rows empty cols rows [] next in
  NoDup (map iid (fst r))
  /\ Forall (fun it => (iid it < snd r)%nat) (fst r)
  /\ (next <= snd r)%nat
  /\ map values (fst r) = map (fun p => row_values empty cols (snd p)) rows.
Proof.
  destruct (insert_rows_spec cols rows [] next) as (new & E & Hv & Hi & _).
  rewrite E. simpl. split; [ | split; [ | split ] ]; trivial.
  - rewrite Hi. apply seq_NoDup.
  - apply Forall_forall. intros it Hin.
    assert (H : In (iid it) (seq next (List.length rows))).
    { rewrite <- Hi. now apply in_map. }
    apply in_seq in H. lia.
  - lia.
Qed.

Lemma update_result_grid_fields (g : grid V) :
  query_rows (update_result_grid empty g) = query_rows g
  /\ current_page (update_result_grid empty g) = current_page g
  /\ columns (update_result_grid empty g) = columns g
  /\ (next_iid g <= next_iid (update_result_grid empty g))%nat.
Proof.
  unfold update_result_grid.
  destruct (Z.of_nat (List.length (query_rows g)) =? 0)%Z; [ now repeat split | ].
  match goal with
  | |- context [ insert_rows empty ?c ?r [] ?n ] =>
      pose proof (insert_rows_tree_ok c r n) as (_ & _ & H & _);
      destruct (insert_rows empty c r [] n) as [tree next]
  end.
  simpl in *. now repeat split.
Qed.

Lemma update_result_grid_tree_ok (g : grid V) : tree_ok (update_result_grid empty g).
Proof.
  unfold update_result_grid, tree_ok.
  destruct (Z.of_nat (List.length (query_rows g)) =? 0)%Z;
    [ simpl; split; constructor | ].
  match goal with
  | |- context [ insert_rows empty ?c ?r [] ?n ] =>
      pose proof (insert_rows_tree_ok c r n) as (H1 & H2 & _);
      destruct (insert_rows empty c r [] n) as [tree next]
  end.
  simpl in *. now split.
Qed.

(** What [update_result_grid] shows: the rows of the current page. *)
Lemma update_result_grid_shows (g : grid V) :
  (1 <= current_page g)%Z ->
  map values (result_tree (update_result_grid empty g))
  = map (row_values empty (columns g)) (page_rows (query_rows g) (current_page g)).
Proof.
  intros Hp. unfold update_result_grid, page_rows.
  destruct (Z.of_nat (List.length (query_rows g)) =? 0)%Z eqn:E.
  - apply Z.eqb_eq in E. destruct (query_rows g); [ | simpl in E; lia ].
    simpl. now rewrite skipn_nil.
  - rewrite py_slice_page by (unfold PAGE_SIZE; lia).
    match goal with
    | |- context [ insert_rows empty ?c ?r [] ?n ] =>
        pose proof (insert_rows_tree_ok c r n) as (_ & _ & _ & H);
        destruct (insert_rows empty c r [] n) as [tree next]
    end.
    simpl in *. rewrite H, <- (map_map snd (row_values empty (columns g))).
    now rewrite enumerate_from_snd.
Qed.

(** ** Filtering the shown rows *)

Lemma detach_absent (rid : nat) (l : list (tree_item V)) :
  ~ In rid (map iid l) -> detach rid l = l.
Proof.
  intros H. unfold detach. induction l as [ | it rest IH ]; trivial.
  simpl in *. destruct (Nat.eqb (iid it) rid) eqn:E.
  - apply Nat.eqb_eq in E. exfalso. apply H. now left.
  - simpl. f_equal. apply IH. intros Hin. apply H. now right.
Qed.

(** Moving the matching children to the end, one after the other, and
    detaching the others leaves the matching children in their order. *)
Lemma filter_children_spec (val : string) (rest : list (tree_item V)) :
  forall acc : list (tree_item V),
  NoDup (map iid (rest ++ acc)) ->
  filter_children py_str py_lower val (map iid rest) (rest ++ acc)
  = acc ++ filter (fun it => row_matches py_str py_lower val (values it)) rest.
Proof.
  induction rest as [ | it rest IH ]; intros acc Hnd.
  - simpl. now rewrite app_nil_r.
  - cbn [map app] in Hnd. apply NoDup_cons_iff in Hnd. destruct Hnd as [Hnotin Hnd].
    unfold filter_children in *. cbn [map fold_left app].
    assert (Hf : tree_find (iid it) (it :: rest ++ acc) = Some it).
    { unfold tree_find. simpl. now rewrite Nat.eqb_refl. }
    assert (Hd : detach (iid it) (it :: rest ++ acc) = rest ++ acc).
    { unfold detach. simpl. rewrite Nat.eqb_refl. simpl.
      now apply detach_absent. }
    rewrite Hf. cbn [filter].
    destruct (row_matches py_str py_lower val (values it)).
    + unfold reattach_end. rewrite Hf, Hd, <- app_assoc.
      rewrite IH.
      * now rewrite <- app_assoc.
      * rewrite app_assoc, map_app. now apply nodup_snoc.
    + rewrite Hd. now apply IH.
Qed.

Lemma filter_tree_ok (f : tree_item V -> bool) (tree : list (tree_item V)) (next : nat) :
  NoDup (map iid tree) ->
  Forall (fun it => (iid it < next)%nat) tree ->
  NoDup (map iid (filter f tree))
  /\ Forall (fun it => (iid it < next)%nat) (filter f tree).
Proof.
  intros Hn Hf. split.
  - induction tree as [ | it rest IH ]; simpl; [ constructor | ].
    simpl in Hn. apply NoDup_cons_iff in Hn. destruct Hn as [Hi Hn].
    apply Forall_cons_iff in Hf.
    destruct (f it); simpl; [ constructor | ]; try (apply IH; tauto).
    intros H. apply Hi. apply in_map_iff in H. destruct H as (x & Ex & Hx).
    apply filter_In in Hx. apply in_map_iff. exists x. tauto.
  - apply Forall_forall. intros it Hin. apply filter_In in Hin.
    rewrite Forall_forall in Hf. now apply Hf.
Qed.

Lemma apply_filter_tree (search : string) (g : grid V) :
  NoDup (map iid (result_tree g)) ->
  py_lower (py_strip search) <> EmptyString ->
  apply_filter empty py_str py_lower py_strip search g
  = mk_grid (query_rows g) (current_page g) (columns g)
      (filter (fun it =>
                 row_matches py_str py_lower (py_lower (py_strip search)) (values it))
              (result_tree g))
      (next_iid g).
Proof.
  intros Hnd Hval. unfold apply_filter.
  destruct (py_lower (py_strip search)) as [ | a val ] eqn:E; [ congruence | ].
  f_equal.
  pose proof (filter_children_spec (String a val) (result_tree g) []) as H.
  rewrite app_nil_r in H. now apply H.
Qed.

Lemma grid_reachable_ok (g : grid V) :
  grid_reachable empty py_str py_lower py_strip g -> page_ok g /\ tree_ok g.
Proof.
  induction 1 as [ | rows cols g _ [Hp Ht] | g _ [Hp Ht] | rows cols g _ [Hp Ht]
                 | g _ [Hp Ht] | g _ [Hp Ht] | search g _ [Hp Ht]
                 | cols tree g _ [Hp Ht] Hnd Hin ].
  - split; [ split; [ simpl; lia | intros H; now contradiction H ] | ].
    split; constructor.
  - split; [ | apply update_result_grid_tree_ok ].
    unfold on_select_success, page_ok.
    destruct (update_result_grid_fields
                (mk_grid rows 1 cols (result_tree g) (next_iid g))) as (Er & Ep & _).
    rewrite Er, Ep. simpl. split; [ lia | ].
    intros Hne. destruct rows; [ congruence | simpl; lia ].
  - split; [ | split; constructor ].
    split; [ apply Hp | intros H; now contradiction H ].
  - split; [ | ].
    + unfold run_explain.
      destruct (insert_rows _ _ _ _ _) as [tree next]. exact Hp.
    + unfold run_explain, tree_ok.
      match goal with
      | |- context [ insert_rows empty ?c ?r [] ?n ] =>
          pose proof (insert_rows_tree_ok c r n) as (H1 & H2 & _);
          destruct (insert_rows empty c r [] n) as [tree next]
      end.
      simpl in *. now split.
  - unfold next_page.
    destruct (current_page g * PAGE_SIZE <? _)%Z eqn:E; [ | now split ].
    apply Z.ltb_lt in E.
    split; [ | apply update_result_grid_tree_ok ].
    unfold page_ok.
    destruct (update_result_grid_fields (with_page g (current_page g + 1)))
      as (Er & Ep & _).
    rewrite Er, Ep. simpl. destruct Hp as [H1 _]. split; [ lia | ].
    intros _. replace (current_page g + 1 - 1)%Z with (current_page g) by lia.
    exact E.
  - unfold prev_page.
    destruct (current_page g >? 1)%Z eqn:E; [ | now split ].
    apply Z.gtb_lt in E.
    split; [ | apply update_result_grid_tree_ok ].
    unfold page_ok.
    destruct (update_result_grid_fields (with_page g (current_page g - 1)))
      as (Er & Ep & _).
    rewrite Er, Ep. simpl. destruct Hp as [H1 H2]. split; [ lia | ].
    intros Hne. specialize (H2 Hne). unfold PAGE_SIZE in *. lia.
  - destruct (string_dec (py_lower (py_strip search)) EmptyString) as [E | E].
    + unfold apply_filter. rewrite E.
      split; [ | apply update_result_grid_tree_ok ].
      unfold page_ok.
      destruct (update_result_grid_fields g) as (Er & Ep & _).
      now rewrite Er, Ep.
    + rewrite apply_filter_tree by (trivial; apply Ht).
      split; [ exact Hp | ]. unfold tree_ok. simpl.
      apply filter_tree_ok; apply Ht.
  - split; [ exact Hp | ]. split; [ exact Hnd | ]. simpl.
    apply Forall_forall. intros it Hit.
    destruct Ht as [_ Hf]. rewrite Forall_forall in Hf. now apply Hf, Hin.
Qed.

Lemma page_rows_first (rows : list (db_row V)) :
  page_rows rows 1 = firstn 100 rows.
Proof. reflexivity. Qed.

Lemma select_first_page (rows : list (db_row V)) (cols : list string) (g : grid V) :
  map values (result_tree (on_select_success empty rows cols g))
  = map (row_values empty cols) (firstn 100 rows)
  /\ query_rows (on_select_success empty rows cols g) = rows
  /\ current_page (on_select_success empty rows cols g) = 1%Z
  /\ columns (on_select_success empty rows cols g) = cols.
Proof.
  unfold on_select_success.
  set (g1 := mk_grid rows 1 cols (result_tree g) (next_iid g)).
  assert (Hp : (1 <= current_page g1)%Z) by (unfold g1; cbn [current_page]; lia).
  pose proof (update_result_grid_shows g1 Hp) as S.
  destruct (update_result_grid_fields g1) as (Er & Ep & Ec & _).
  split; [ | split; [ exact Er | split; [ exact Ep | exact Ec ] ] ].
  rewrite S. unfold g1. cbn [query_rows current_page columns].
  now rewrite page_rows_first.
Qed.

(** X13.  After a SELECT the grid shows the first page only: the
    values of the first [100] rows, in order, or of all the rows when
    they are fewer; a dict row shows its values by column, with the
    default for a column it has not.  All the rows stay in
    [query_rows] and the page is [1]. *)
Theorem select_shows_first_hundred_rows (rows : list (db_row V)) (cols : list string)
    (g : grid V) :
  let g' := on_select_success empty rows cols g in
  map values (result_tree g') = map (row_values empty cols) (firstn 100 rows)
  /\ List.length (result_tree g') = Nat.min 100 (List.length rows)
  /\ query_rows g' = rows
  /\ current_page g' = 1%Z
  /\ columns g' = cols.
Proof.
  intros g'. destruct (select_first_page rows cols g) as (S & Er & Ep & Ec).
  fold g' in S, Er, Ep, Ec.
  split; [ exact S | ]. split; [ | now repeat split ].
  rewrite <- (length_map values), S, length_map. apply length_firstn.
Qed.

(** X14.  The page stays a page of the rows: in every state of the
    grid the page number is at least [1] and, when there are rows, the
    page starts before the end of the rows, so a page shown by
    [update_result_grid] is never empty; and the ids of the rows shown
    are distinct. *)
Theorem grid_page_stays_valid (g : grid V) :
  grid_reachable empty py_str py_lower py_strip g ->
  (1 <= current_page g)%Z
  /\ (query_rows g <> [] ->
      ((current_page g - 1) * 100 < Z.of_nat (List.length (query_rows g)))%Z
      /\ page_rows (query_rows g) (current_page g) <> []
      /\ map values (result_tree (update_result_grid empty g))
         = map (row_values empty (columns g))
             (page_rows (query_rows g) (current_page g)))
  /\ NoDup (map iid (result_tree g)).
Proof.
  intros Hr. destruct (grid_reachable_ok g Hr) as [[H1 H2] [H3 _]].
  split; [ exact H1 | ]. split; [ | exact H3 ].
  intros Hne. specialize (H2 Hne). unfold PAGE_SIZE in H2.
  split; [ exact H2 | ]. split; [ | now apply update_result_grid_shows ].
  unfold page_rows, PAGE_SIZE.
  set (k := Z.to_nat ((current_page g - 1) * 100)).
  assert (Hk : (k < List.length (query_rows g))%nat) by (unfold k; lia).
  assert (Hl : List.length (skipn k (query_rows g)) <> 0%nat)
    by (rewrite length_skipn; lia).
  destruct (skipn k (query_rows g)); [ now contradiction Hl | discriminate ].
Qed.

(** X15.  When the page is not the last, [next_page] goes to the next
    page and shows its rows, and [prev_page] after it comes back to
    the page and shows its rows again. *)
Theorem next_then_prev_page (g : grid V) :
  (1 <= current_page g)%Z ->
  (current_page g * 100 < Z.of_nat (List.length (query_rows g)))%Z ->
  let g1 := next_page empty g in
  let g2 := prev_page empty g1 in
  current_page g1 = (current_page g + 1)%Z
  /\ map values (result_tree g1)
     = map (row_values empty (columns g))
         (page_rows (query_rows g) (current_page g + 1))
  /\ current_page g2 = current_page g
  /\ map values (result_tree g2)
     = map (row_values empty (columns g)) (page_rows (query_rows g) (current_page g))
  /\ query_rows g2 = query_rows g.
Proof.
  intros Hp Hlt g1 g2.
  assert (E1 : g1 = update_result_grid empty (with_page g (current_page g + 1))).
  { unfold g1, next_page, PAGE_SIZE.
    now rewrite (proj2 (Z.ltb_lt _ _) Hlt). }
  destruct (update_result_grid_fields (with_page g (current_page g + 1)))
    as (Er & Ep & Ec & _).
  rewrite <- E1 in Er, Ep, Ec. simpl in Er, Ep, Ec.
  assert (E2 : g2 = update_result_grid empty (with_page g1 (current_page g))).
  { unfold g2, prev_page. rewrite Ep.
    replace (current_page g + 1 >? 1)%Z with true by (symmetry; apply Z.gtb_lt; lia).
    now replace (current_page g + 1 - 1)%Z with (current_page g) by lia. }
  destruct (update_result_grid_fields (with_page g1 (current_page g)))
    as (Er2 & Ep2 & Ec2 & _).
  rewrite <- E2 in Er2, Ep2, Ec2. simpl in Er2, Ep2, Ec2.
  split; [ exact Ep | ].
  split.
  { rewrite E1.
    rewrite (update_result_grid_shows (with_page g (current_page g + 1)))
      by (simpl; lia).
    reflexivity. }
  split; [ exact Ep2 | ].
  split; [ | congruence ].
  rewrite E2.
  rewrite (update_result_grid_shows (with_page g1 (current_page g))) by (simpl; lia).
  simpl. now rewrite Er, Ec.
Qed.

Lemma page_rows_skip (rows : list (db_row V)) (p : Z) :
  (1 <= p)%Z ->
  page_rows rows p = firstn 100 (skipn (100 * Z.to_nat (p - 1)) rows).
Proof.
  intros Hp. unfold page_rows, PAGE_SIZE. do 2 f_equal. lia.
Qed.

(** Walking the pages from a page that is shown gives the rows from
    that page on. *)
Lemma walk_pages_from (n : nat) :
  forall g : grid V,
  (1 <= current_page g)%Z ->
  map values (result_tree g)
  = map (row_values empty (columns g)) (page_rows (query_rows g) (current_page g)) ->
  n = ((List.length (skipn (100 * Z.to_nat (current_page g - 1)) (query_rows g)) + 99)
       / 100)%nat ->
  List.concat (walk_pages empty n g)
  = map (row_values empty (columns g))
      (skipn (100 * Z.to_nat (current_page g - 1)) (query_rows g)).
Proof.
  induction n as [ | n IH ]; intros g Hp Hs Hn.
  - simpl. set (r := skipn _ _) in *.
    assert (List.length r = 0%nat).
    { destruct (List.length r) as [ | k ] eqn:E; trivial.
      assert (1 <= (S k + 99) / 100)%nat
        by (apply Nat.div_le_lower_bound; lia).
      lia. }
    destruct r; [ reflexivity | discriminate ].
  - cbn [walk_pages List.concat]. rewrite Hs, (page_rows_skip _ _ Hp).
    set (k := (100 * Z.to_nat (current_page g - 1))%nat) in *.
    set (r := skipn k (query_rows g)) in *.
    assert (Hlen : List.length r = (List.length (query_rows g) - k)%nat)
      by apply length_skipn.
    destruct (le_gt_dec (List.length r) 100) as [Hle | Hgt].
    + assert (Hn0 : n = 0%nat).
      { assert ((List.length r + 99) / 100 < 2)%nat
          by (apply Nat.Div0.div_lt_upper_bound; lia).
        lia. }
      subst n. cbn [walk_pages List.concat]. rewrite app_nil_r.
      now rewrite firstn_all2.
    + assert (Hnext : (current_page g * PAGE_SIZE
                       <? Z.of_nat (List.length (query_rows g)))%Z = true).
      { apply Z.ltb_lt. unfold PAGE_SIZE. unfold k in *. lia. }
      unfold next_page. rewrite Hnext.
      set (g1 := with_page g (current_page g + 1)).
      destruct (update_result_grid_fields g1) as (Er & Ep & Ec & _).
      simpl in Er, Ep, Ec.
      assert (Hk1 : (100 * Z.to_nat (current_page g + 1 - 1))%nat = (100 + k)%nat)
        by (unfold k; lia).
      rewrite IH.
      * rewrite Er, Ep, Ec, Hk1, <- skipn_skipn. fold r.
        rewrite <- map_app. now rewrite firstn_skipn.
      * rewrite Ep. lia.
      * rewrite (update_result_grid_shows g1) by (simpl; lia).
        now rewrite Er, Ep, Ec.
      * rewrite Er, Ep, Hk1, <- skipn_skipn. fold r.
        rewrite length_skipn.
        assert (E : (List.length r + 99 = (List.length r - 100 + 99) + 1 * 100)%nat)
          by lia.
        rewrite E, Nat.div_add in Hn by lia. lia.
Qed.

(** X16.  Paging loses no row and repeats none: after a SELECT, the
    first page followed by the pages that [next_page] shows, as many
    as it takes to hold the rows [100] at a time, are together the
    values of all the rows, in order. *)
Theorem pages_cover_all_rows (rows : list (db_row V)) (cols : list string)
    (g : grid V) :
  let g0 := on_select_success empty rows cols g in
  let n := ((List.length rows + 99) / 100)%nat in
  List.concat (walk_pages empty n g0) = map (row_values empty cols) rows.
Proof.
  intros g0 n.
  destruct (select_first_page rows cols g) as (S & Er & Ep & Ec).
  fold g0 in S, Er, Ep, Ec.
  rewrite (walk_pages_from n g0); rewrite ?Er, ?Ep, ?Ec; try reflexivity; try lia.
  rewrite S. unfold page_rows. reflexivity.
Qed.

(** X17.  A search keeps, of the rows the grid shows, those whose
    text contains the search text, in their order; it looks at the
    page shown only, and changes neither the rows of the query nor
    the page.  A second search looks among the rows the first has
    left: it cannot bring back a row the first search has hidden. *)
Theorem filter_keeps_matching_shown_rows (search search2 : string) (g : grid V) :
  grid_reachable empty py_str py_lower py_strip g ->
  py_lower (py_strip search) <> EmptyString ->
  py_lower (py_strip search2) <> EmptyString ->
  let val := py_lower (py_strip search) in
  let val2 := py_lower (py_strip search2) in
  let g1 := apply_filter empty py_str py_lower py_strip search g in
  let g2 := apply_filter empty py_str py_lower py_strip search2 g1 in
  result_tree g1
  = filter (fun it => row_matches py_str py_lower val (values it)) (result_tree g)
  /\ query_rows g1 = query_rows g
  /\ current_page g1 = current_page g
  /\ result_tree g2
     = filter (fun it => row_matches py_str py_lower val (values it)
                         && row_matches py_str py_lower val2 (values it))
              (result_tree g)
  /\ incl (result_tree g2) (result_tree g1).
Proof.
  intros Hr Hv Hv2 val val2 g1 g2.
  destruct (grid_reachable_ok g Hr) as [_ [Hnd _]].
  assert (E1 : g1 = mk_grid (query_rows g) (current_page g) (columns g)
                      (filter (fun it => row_matches py_str py_lower val (values it))
                              (result_tree g)) (next_iid g))
    by now apply apply_filter_tree.
  destruct (grid_reachable_ok g1 (grid_filter _ _ _ _ search g Hr)) as [_ [Hnd1 _]].
  assert (E2 : result_tree g2
               = filter (fun it => row_matches py_str py_lower val2 (values it))
                        (result_tree g1)).
  { unfold g2. now rewrite apply_filter_tree. }
  rewrite E2, E1. simpl. repeat split.
  - apply filter_twice.
  - intros it Hin. apply filter_In in Hin. tauto.
Qed.

End ResultGridFacts.

(** The grid after a SELECT of [150] rows: the page is valid and its
    [100] rows are shown. *)
Lemma grid_page_stays_valid_150_rows :
  (1 <= current_page grid_150)%Z
  /\ (query_rows grid_150 <> [] ->
      ((current_page grid_150 - 1) * 100 < Z.of_nat (List.length (query_rows grid_150)))%Z
      /\ page_rows (query_rows grid_150) (current_page grid_150) <> []
      /\ map values (result_tree (update_result_grid EmptyString grid_150))
         = map (row_values EmptyString (columns grid_150))
             (page_rows (query_rows grid_150) (current_page grid_150)))
  /\ NoDup (map iid (result_tree grid_150)).
Proof.
  apply (grid_page_stays_valid EmptyString str_id str_id str_id grid_150).
  unfold grid_150. apply grid_select, grid_start.
Defined.

(** From the first page of [150] rows, "next" shows page [2] and
    "previous" comes back to page [1]. *)
Lemma next_then_prev_page_150_rows :
  let g1 := next_page EmptyString grid_150 in
  let g2 := prev_page EmptyString g1 in
  current_page g1 = (current_page grid_150 + 1)%Z
  /\ map values (result_tree g1)
     = map (row_values EmptyString (columns grid_150))
         (page_rows (query_rows grid_150) (current_page grid_150 + 1))
  /\ current_page g2 = current_page grid_150
  /\ map values (result_tree g2)
     = map (row_values EmptyString (columns grid_150))
         (page_rows (query_rows grid_150) (current_page grid_150))
  /\ query_rows g2 = query_rows grid_150.
Proof.
  apply (next_then_prev_page EmptyString grid_150).
  - vm_compute. discriminate.
  - vm_compute. reflexivity.
Defined.

(** Of the rows [ab], [b], [a], a search for [A] leaves [ab] and [a],
    and a search for [b] after it leaves [ab]. *)
Lemma filter_keeps_matching_rows_ab :
  let g1 := apply_filter EmptyString str_id str_id str_id "a" grid_ab in
  let g2 := apply_filter EmptyString str_id str_id str_id "b" g1 in
  map values (result_tree g1) = [["ab"]; ["a"]]
  /\ map values (result_tree g2) = [["ab"]]
  /\ incl (result_tree g2) (result_tree g1).
Proof.
  intros g1 g2.
  assert (Hr : grid_reachable EmptyString str_id str_id str_id grid_ab)
    by (unfold grid_ab; apply grid_select, grid_start).
  destruct (filter_keeps_matching_shown_rows EmptyString str_id str_id str_id
              "a" "b" grid_ab Hr)
    as (E1 & _ & _ & E2 & Hin); [ discriminate | discriminate | ].
  fold g1 in E1, E2, Hin. fold g2 in E2, Hin.
  split; [ rewrite E1; reflexivity | ].
  split; [ rewrite E2; reflexivity | exact Hin ].
Defined.

(** ** The action history *)

Lemma forall2_snoc {A B : Type} (R : A -> B -> Prop) (l : list A) (m : list B)
    (a : A) (b : B) :
  Forall2 R l m -> R a b -> Forall2 R (l ++ [a]) (m ++ [b]).
Proof.
  intros H Hab. apply Forall2_app; [ exact H | ]. now constructor.
Qed.

Lemma forall2_remove_nth {A B : Type} (R : A -> B -> Prop) (i : nat) :
  forall (l : list A) (m : list B),
  Forall2 R l m -> Forall2 R (remove_nth i l) (remove_nth i m).
Proof.
  induction i as [ | i IH ]; intros l m H; destruct H; simpl;
    try constructor; auto.
Qed.

Lemma forall2_nth {A B : Type} (R : A -> B -> Prop) (l : list A) (m : list B) :
  Forall2 R l m ->
  forall (i : nat) (a : A), nth_error l i = Some a ->
  exists b, nth_error m i = Some b /\ R a b.
Proof.
  induction 1 as [ | x y l m Hxy _ IH ]; intros [ | i ] a Hn; simpl in Hn;
    try discriminate.
  - injection Hn as <-. now exists y.
  - now apply IH.
Qed.

Lemma remove_nth_length {A : Type} (i : nat) :
  forall l : list A, (i < List.length l)%nat ->
  S (List.length (remove_nth i l)) = List.length l.
Proof.
  induction i as [ | i IH ]; intros [ | a l ] H; simpl in *; try lia.
  rewrite IH; lia.
Qed.

Lemma refresh_lines (data : list history_entry) :
  Forall2 line_of (map entry_display data) data.
Proof.
  induction data as [ | e data IH ]; simpl; constructor; trivial.
  unfold line_of, entry_display. destruct (h_display e); auto.
Qed.

Lemma history_aligned (h : history) :
  history_reachable h -> Forall2 line_of (history_list h) (_history_data h).
Proof.
  induction 1 as [ | ts txt h _ IH | iso ts preview status raw h _ IH | h _ IH
                 | yes h _ IH | sel h h' _ IH Hsel Hd ].
  - constructor.
  - apply forall2_snoc; [ exact IH | ]. unfold line_of. simpl. now left.
  - apply forall2_snoc; [ exact IH | ]. reflexivity.
  - apply refresh_lines.
  - destruct yes; [ constructor | exact IH ].
  - unfold _delete_history_item in Hd. destruct sel as [ | idx more ].
    + now injection Hd as <-.
    + destruct (idx <? _)%nat; [ | discriminate ]. injection Hd as <-.
      now apply forall2_remove_nth.
Qed.

(** X18.  The Listbox of the history and the list behind it go
    together: they have the same length and the line at an index is
    the line of the entry at that index, its display, or for an entry
    logged without one its status or an empty line.  So the index of a
    selected line is always an index of [_history_data]. *)
Theorem history_list_matches_data (h : history) :
  history_reachable h ->
  List.length (history_list h) = List.length (_history_data h)
  /\ forall (i : nat) (line : string),
       nth_error (history_list h) i = Some line ->
       exists e, nth_error (_history_data h) i = Some e /\ line_of line e.
Proof.
  intros Hr. pose proof (history_aligned h Hr) as Ha.
  split; [ exact (Forall2_length Ha) | ].
  intros i line. now apply forall2_nth.
Qed.

(** X19.  With a line selected, Copy and Delete never fail on the
    index: Copy puts on the clipboard the raw text of the entry of
    the selected line, and Delete takes that line and that entry, and
    no other, out of the Listbox and of [_history_data]. *)
Theorem history_selection_is_safe (h : history) (idx : nat) (more : list nat)
    (clipboard : string) :
  history_reachable h ->
  selection_of (idx :: more) h ->
  exists (line : string) (e : history_entry) (h' : history),
    nth_error (history_list h) idx = Some line
    /\ nth_error (_history_data h) idx = Some e
    /\ line_of line e
    /\ _copy_history_item (idx :: more) h clipboard = Some (h_raw e)
    /\ _delete_history_item (idx :: more) h = Some h'
    /\ history_list h' = remove_nth idx (history_list h)
    /\ _history_data h' = remove_nth idx (_history_data h)
    /\ S (List.length (history_list h')) = List.length (history_list h)
    /\ List.length (history_list h') = List.length (_history_data h').
Proof.
  intros Hr Hsel. pose proof (history_aligned h Hr) as Ha.
  pose proof (Forall2_length Ha) as Hlen.
  apply Forall_inv in Hsel.
  destruct (nth_error (history_list h) idx) as [ line | ] eqn:El;
    [ | apply nth_error_None in El; lia ].
  destruct (forall2_nth _ _ _ Ha idx line El) as (e & Ee & Hle).
  exists line, e,
    (mk_history (remove_nth idx (history_list h)) (remove_nth idx (_history_data h))).
  split; [ reflexivity | ]. split; [ exact Ee | ]. split; [ exact Hle | ].
  split; [ simpl; now rewrite Ee | ].
  split.
  { simpl. replace (idx <? List.length (_history_data h))%nat with true; trivial.
    symmetry. apply Nat.ltb_lt. lia. }
  split; [ reflexivity | ]. split; [ reflexivity | ].
  split; [ simpl; now apply remove_nth_length | ].
  simpl. apply (Forall2_length (R := line_of)). now apply forall2_remove_nth.
Qed.

(** The first line of the history of a query and a log line can be
    copied and deleted. *)
Lemma history_selection_is_safe_first_line :
  exists (line : string) (e : history_entry) (h' : history),
    nth_error (history_list history_two) 0 = Some line
    /\ nth_error (_history_data history_two) 0 = Some e
    /\ line_of line e
    /\ _copy_history_item [0%nat] history_two "old" = Some (h_raw e)
    /\ _delete_history_item [0%nat] history_two = Some h'
    /\ history_list h' = remove_nth 0 (history_list history_two)
    /\ _history_data h' = remove_nth 0 (_history_data history_two)
    /\ S (List.length (history_list h')) = List.length (history_list history_two)
    /\ List.length (history_list h') = List.length (_history_data h').
Proof.
  apply (history_selection_is_safe history_two 0 [] "old").
  - unfold history_two. apply hist_log, hist_add, hist_start.
  - constructor; [ simpl; lia | constructor ].
Defined.

(** The history of a query and a log line has two lines for its two
    entries. *)
Lemma history_list_matches_data_two :
  List.length (history_list history_two) = List.length (_history_data history_two)
  /\ forall (i : nat) (line : string),
       nth_error (history_list history_two) i = Some line ->
       exists e, nth_error (_history_data history_two) i = Some e /\ line_of line e.
Proof.
  apply (history_list_matches_data history_two).
  unfold history_two. apply hist_log, hist_add, hist_start.
Defined.

(** X20.  Refresh is not a redraw of what the Listbox shows: it keeps
    the line of an entry that [_add_history] made, and empties the
    line of an entry that [_log_history] made, which has no display;
    the entries themselves are kept. *)
Theorem refresh_empties_logged_lines (h : history) :
  history_reachable h ->
  _history_data (refresh_history h) = _history_data h
  /\ List.length (history_list (refresh_history h)) = List.length (history_list h)
  /\ (forall (i : nat) (line : string) (e : history_entry),
        nth_error (history_list h) i = Some line ->
        nth_error (_history_data h) i = Some e ->
        nth_error (history_list (refresh_history h)) i
        = Some match h_display e with
               | Some _ => line
               | None => EmptyString
               end)
  /\ (forall ts txt : string,
        last (history_list (_log_history ts txt h)) EmptyString
        = (ts ++ "  " ++ txt)%string
        /\ last (history_list (refresh_history (_log_history ts txt h))) "gone"
           = EmptyString).
Proof.
  intros Hr. pose proof (history_aligned h Hr) as Ha.
  split; [ reflexivity | ].
  split; [ simpl; rewrite length_map; symmetry; exact (Forall2_length Ha) | ].
  split.
  - intros i line e Hl He. simpl. rewrite nth_error_map, He. simpl. f_equal.
    destruct (forall2_nth _ _ _ Ha i line Hl) as (e' & He' & Hle).
    rewrite He in He'. injection He' as <-.
    unfold line_of in Hle. unfold entry_display.
    destruct (h_display e); congruence.
  - intros ts txt. split; simpl.
    + apply last_last.
    + rewrite map_app. simpl. apply last_last.
Qed.

(** After a query and a log line, Refresh keeps the line of the
    query and empties the line of the log. *)
Lemma refresh_empties_logged_lines_two :
  _history_data (refresh_history history_two) = _history_data history_two
  /\ List.length (history_list (refresh_history history_two))
     = List.length (history_list history_two)
  /\ (forall (i : nat) (line : string) (e : history_entry),
        nth_error (history_list history_two) i = Some line ->
        nth_error (_history_data history_two) i = Some e ->
        nth_error (history_list (refresh_history history_two)) i
        = Some match h_display e with
               | Some _ => line
               | None => EmptyString
               end)
  /\ (forall ts txt : string,
        last (history_list (_log_history ts txt history_two)) EmptyString
        = (ts ++ "  " ++ txt)%string
        /\ last (history_list (refresh_history (_log_history ts txt history_two))) "gone"
           = EmptyString).
Proof.
  apply (refresh_empties_logged_lines history_two).
  unfold history_two. apply hist_log, hist_add, hist_start.
Defined.
